(** * aioquic: wire codec ([packet.py]) and [RangeSet] ([rangeset.py])

    A shallow embedding of the two modules and the properties of the
    specification that are about them.

    Conventions.
    - Python integers are [Z]; a byte is a [Z] in [0, 256); [bytes] and
      [bytearray] values are [list Z].
    - Code that works on a [Buffer] is a function [Buffer -> result (A * Buffer)]:
      the cursor is threaded explicitly and an exception ends the computation.
    - [None] is [PyNone] for dynamically typed attributes and [option]'s [None]
      for [Optional] record fields. *)

From Stdlib Require Import ZArith List Lia Bool.
Import ListNotations.
Open Scope Z_scope.

(* ================================================================= *)
(** ** Exceptions and the buffer monad *)

(** The exception classes the code raises.  [FrameEncodingError] and
    [ProtocolViolation] are the error kinds the specification names; no
    operation of the two modules raises them.  [FuelExhausted] is not a Python
    exception: it marks the cut-off of the bounded model of a [while] loop and
    is shown never to be returned. *)
Inductive exn : Set :=
| BufferReadError
| BufferWriteError
| ValueError
| AssertionError
| IndexError
| TypeError
| UnicodeDecodeError
| FrameEncodingError
| ProtocolViolation
| FuelExhausted.

Definition exn_eq_dec (a b : exn) : {a = b} + {a <> b}.
Proof. decide equality. Defined.

Definition exn_eqb (a b : exn) : bool :=
  if exn_eq_dec a b then true else false.

Inductive result (A : Type) : Type :=
| Ok (a : A)
| Raise (e : exn).
Arguments Ok {A} a.
Arguments Raise {A} e.

(** Modelled from the spec: the buffer cursor of [buffer.py], "a byte sequence
    plus a read/write position".  [_data] has a fixed length, the capacity. *)
Record Buffer : Type := mkBuffer { _data : list Z; _pos : nat }.

Definition M (A : Type) : Type := Buffer -> result (A * Buffer).

Definition ret {A} (a : A) : M A := fun buf => Ok (a, buf).
Definition raise {A} (e : exn) : M A := fun _ => Raise e.
Definition bind {A B} (m : M A) (k : A -> M B) : M B :=
  fun buf => match m buf with
             | Ok (a, buf') => k a buf'
             | Raise e => Raise e
             end.

Notation "x <- m ;; k" := (bind m (fun x => k))
  (at level 61, m at next level, right associativity).
Notation "m ;;; k" := (bind m (fun _ => k))
  (at level 61, right associativity).

(** [assert c] *)
Definition assert (c : bool) : M unit :=
  if c then ret tt else raise AssertionError.

(** A computation that does not touch the buffer. *)
Definition lift {A} (r : result A) : M A :=
  fun buf => match r with Ok a => Ok (a, buf) | Raise e => Raise e end.

(* ================================================================= *)
(** ** buffer.py (modelled from the spec) *)

(** Modelled from the spec: [Buffer(capacity=n)], a zero-filled buffer. *)
Definition Buffer_capacity (capacity : nat) : Buffer :=
  mkBuffer (repeat 0 capacity) 0.

(** Modelled from the spec: [Buffer(data=d)], a buffer over given bytes. *)
Definition Buffer_data (data : list Z) : Buffer := mkBuffer data 0.

(** Modelled from the spec: [buf.capacity], [buf.tell()], [buf.data] (the
    bytes before the cursor) and [buf.seek(pos)]. *)
Definition capacity (buf : Buffer) : Z := Z.of_nat (length (_data buf)).
Definition tell (buf : Buffer) : Z := Z.of_nat (_pos buf).
Definition data (buf : Buffer) : list Z := firstn (_pos buf) (_data buf).

Definition get_tell : M Z := fun buf => Ok (tell buf, buf).
Definition get_capacity : M Z := fun buf => Ok (capacity buf, buf).

Definition seek (pos : Z) : M unit := fun buf =>
  if (0 <=? pos) && (pos <=? capacity buf)
  then Ok (tt, mkBuffer (_data buf) (Z.to_nat pos))
  else Raise AssertionError.

(** Big-endian bytes of a fixed width, and their value. *)
Fixpoint le_bytes (n : nat) (v : Z) : list Z :=
  match n with
  | O => []
  | S k => v mod 256 :: le_bytes k (v / 256)
  end.

Definition be_bytes (n : nat) (v : Z) : list Z := rev (le_bytes n v).

Definition be_value (bs : list Z) : Z :=
  fold_left (fun acc b => acc * 256 + b) bs 0.

(** Overwrite [length bs] bytes of [d] from index [pos]. *)
Definition write_at (pos : nat) (bs d : list Z) : list Z :=
  firstn pos d ++ bs ++ skipn (pos + length bs) d.

(** Modelled from the spec: [pull_bytes(buf, length)], which fails "when
    insufficient bytes remain". *)
Definition pull_bytes (length : Z) : M (list Z) := fun buf =>
  if tell buf + length >? capacity buf then Raise BufferReadError
  else Ok (firstn (Z.to_nat length) (skipn (_pos buf) (_data buf)),
           mkBuffer (_data buf) (_pos buf + Z.to_nat length)).

(** Modelled from the spec: [push_bytes(buf, v)]. *)
Definition push_bytes (v : list Z) : M unit := fun buf =>
  if tell buf + Z.of_nat (length v) >? capacity buf then Raise BufferWriteError
  else Ok (tt, mkBuffer (write_at (_pos buf) v (_data buf))
                        (_pos buf + length v)).

(** Modelled from the spec: the fixed-width big-endian readers
    [pull_uint8], [pull_uint16], [pull_uint32], [pull_uint64]. *)
Definition pull_uint (n : nat) : M Z := fun buf =>
  if tell buf + Z.of_nat n >? capacity buf then Raise BufferReadError
  else Ok (be_value (firstn n (skipn (_pos buf) (_data buf))),
           mkBuffer (_data buf) (_pos buf + n)).

Definition pull_uint8 : M Z := pull_uint 1.
Definition pull_uint16 : M Z := pull_uint 2.
Definition pull_uint32 : M Z := pull_uint 4.
Definition pull_uint64 : M Z := pull_uint 8.

(** Modelled from the spec: the fixed-width big-endian writers.  A value
    outside the format's range is the spec's [ValueTooLarge], which the code
    spells [ValueError]. *)
Definition push_uint (n : nat) (v : Z) : M unit := fun buf =>
  if (v <? 0) || (256 ^ Z.of_nat n <=? v) then Raise ValueError
  else if tell buf + Z.of_nat n >? capacity buf then Raise BufferWriteError
  else Ok (tt, mkBuffer (write_at (_pos buf) (be_bytes n v) (_data buf))
                        (_pos buf + n)).

Definition push_uint8 : Z -> M unit := push_uint 1.
Definition push_uint16 : Z -> M unit := push_uint 2.
Definition push_uint32 : Z -> M unit := push_uint 4.
Definition push_uint64 : Z -> M unit := push_uint 8.

(** [buf._data[index]], an [IndexError] out of range. *)
Definition data_get (index : nat) : M Z := fun buf =>
  match nth_error (_data buf) index with
  | Some x => Ok (x, buf)
  | None => Raise IndexError
  end.

(** [buf._data[index] = x] *)
Definition data_set (index : nat) (x : Z) : M unit := fun buf =>
  if (index <? length (_data buf))%nat
  then Ok (tt, mkBuffer (write_at index [x] (_data buf)) (_pos buf))
  else Raise IndexError.

(** Python's [try: m except e_from: raise e_to]. *)
Definition reraise {A} (e_from e_to : exn) (m : M A) : M A := fun buf =>
  match m buf with
  | Ok r => Ok r
  | Raise e => if exn_eqb e e_from then Raise e_to else Raise e
  end.

Definition get_pos : M nat := fun buf => Ok (_pos buf, buf).

(* ================================================================= *)
(** ** packet.py: constants *)

Definition PACKET_LONG_HEADER : Z := 0x80.
Definition PACKET_FIXED_BIT : Z := 0x40.
Definition PACKET_SPIN_BIT : Z := 0x20.

Definition PACKET_TYPE_INITIAL : Z :=
  Z.lor (Z.lor PACKET_LONG_HEADER PACKET_FIXED_BIT) 0x00.
Definition PACKET_TYPE_HANDSHAKE : Z :=
  Z.lor (Z.lor PACKET_LONG_HEADER PACKET_FIXED_BIT) 0x20.
Definition PACKET_TYPE_RETRY : Z :=
  Z.lor (Z.lor PACKET_LONG_HEADER PACKET_FIXED_BIT) 0x30.
Definition PACKET_TYPE_MASK : Z := 0xF0.

Definition PACKET_NUMBER_SEND_SIZE : Z := 2.

Definition UINT_VAR_FORMATS : list (M Z * (Z -> M unit) * Z) :=
  [ (pull_uint8, push_uint8, 0x3F);
    (pull_uint16, push_uint16, 0x3FFF);
    (pull_uint32, push_uint32, 0x3FFFFFFF);
    (pull_uint64, push_uint64, 0x3FFFFFFFFFFFFFFF) ].

Definition NEGOTIATION : Z := 0.

(** [bool(x)] of an integer. *)
Definition truthy (x : Z) : bool := negb (x =? 0).

(* ================================================================= *)
(** ** packet.py: variable-length integers *)

Definition pull_uint_var : M Z :=
  kind <- reraise IndexError BufferReadError
            (pos <- get_pos ;; x <- data_get pos ;; ret (x / 64)) ;;
  match nth_error UINT_VAR_FORMATS (Z.to_nat kind) with
  | Some (pull, _, mask) => v <- pull ;; ret (Z.land v mask)
  | None => raise IndexError
  end.

Fixpoint push_uint_var_from (i : Z) (formats : list (M Z * (Z -> M unit) * Z))
         (value : Z) : M unit :=
  match formats with
  | (_, push, mask) :: formats' =>
      if value <=? mask then
        start <- get_pos ;;
        push value ;;;
        x <- data_get start ;;
        data_set start (Z.lor x (i * 64))
      else push_uint_var_from (i + 1) formats' value
  | [] => raise ValueError
  end.

Definition push_uint_var (value : Z) : M unit :=
  push_uint_var_from 0 UINT_VAR_FORMATS value.

(* ================================================================= *)
(** ** rangeset.py *)

(** Python's [range(start, stop)] with step 1. *)
Record range : Set := Range { range_start : Z; range_stop : Z }.

Module RangeSet.

(** The private list [__ranges]. *)
Definition t : Set := list range.

Definition empty : t := [].

(** The inner [while] loop of [add]: absorbs the ranges after slot [i]
    whose start is at most [stop]; returns the widened [stop] and the
    ranges that stay. *)
Fixpoint absorb (stop : Z) (next : list range) : Z * list range :=
  match next with
  | r :: next' =>
      if range_start r <=? stop
      then absorb (Z.max (range_stop r) stop) next'
      else (stop, next)
  | [] => (stop, [])
  end.

(** The [for] loop of [add] from slot [i] on; [ranges] are the slots
    [i], [i+1], ... *)
Fixpoint add_scan (ranges : list range) (start stop : Z) : list range :=
  match ranges with
  | r :: ranges' =>
      if stop <? range_start r then
        (* the added range is entirely before current item, insert here *)
        Range start stop :: r :: ranges'
      else if start >? range_stop r then
        (* the added range is entirely after current item, keep looking *)
        r :: add_scan ranges' start stop
      else
        (* the added range touches the current item, merge it *)
        let start := Z.min start (range_start r) in
        let stop := Z.max stop (range_stop r) in
        let '(stop, ranges'') := absorb stop ranges' in
        Range start stop :: ranges''
  | [] =>
      (* the added range is entirely after all existing items, append it *)
      [Range start stop]
  end.

Definition add (self : t) (start : Z) (stop : option Z) : result t :=
  let stop := match stop with None => start + 1 | Some stop => stop end in
  if stop >? start then Ok (add_scan self start stop)
  else Raise AssertionError.

Definition shift (self : t) : result (range * t) :=
  match self with
  | r :: self' => Ok (r, self')
  | [] => Raise IndexError
  end.

Definition len (self : t) : Z := Z.of_nat (length self).

(** [self[key]] for an integer key, with Python's negative indices. *)
Definition getitem (self : t) (key : Z) : result range :=
  let key := if key <? 0 then key + len self else key in
  if key <? 0 then Raise IndexError
  else match nth_error self (Z.to_nat key) with
       | Some r => Ok r
       | None => Raise IndexError
       end.

(** [RangeSet(ranges)] *)
Fixpoint init_from (self : t) (ranges : list range) : result t :=
  match ranges with
  | [] => Ok self
  | r :: ranges' =>
      match add self (range_start r) (Some (range_stop r)) with
      | Ok self' => init_from self' ranges'
      | Raise e => Raise e
      end
  end.

Definition init (ranges : list range) : result t := init_from empty ranges.

End RangeSet.

(* ================================================================= *)
(** ** packet.py: packet headers *)

Record QuicHeader : Type := mkQuicHeader {
  version : option Z;
  packet_type : option Z;
  destination_cid : list Z;
  source_cid : list Z;
  original_destination_cid : list Z;
  token : list Z;
  rest_length : Z
}.

Definition decode_cid_length (length : Z) : Z :=
  if truthy length then length + 3 else 0.

Definition encode_cid_length (length : Z) : Z :=
  if truthy length then length - 3 else 0.

Definition get_spin_bit (first_byte : Z) : bool :=
  truthy (Z.land first_byte PACKET_SPIN_BIT).

Definition is_long_header (first_byte : Z) : bool :=
  truthy (Z.land first_byte PACKET_LONG_HEADER).

(** [len(x)] of a list or of a byte string. *)
Definition len {A} (l : list A) : Z := Z.of_nat (length l).

Definition pull_quic_header (host_cid_length : option Z) : M QuicHeader :=
  first_byte <- pull_uint8 ;;
  let original_destination_cid := [] in
  let token := [] in
  if is_long_header first_byte then
    (* long header packet *)
    version <- pull_uint32 ;;
    cid_lengths <- pull_uint8 ;;
    let destination_cid_length := decode_cid_length (cid_lengths / 16) in
    destination_cid <- pull_bytes destination_cid_length ;;
    let source_cid_length := decode_cid_length (cid_lengths mod 16) in
    source_cid <- pull_bytes source_cid_length ;;
    if version =? NEGOTIATION then
      (* version negotiation *)
      let packet_type := None in
      capacity <- get_capacity ;;
      pos <- get_tell ;;
      let rest_length := capacity - pos in
      ret (mkQuicHeader (Some version) packet_type destination_cid source_cid
             original_destination_cid token rest_length)
    else
      if negb (truthy (Z.land first_byte PACKET_FIXED_BIT)) then
        raise ValueError
      else
        let packet_type := Z.land first_byte PACKET_TYPE_MASK in
        if packet_type =? PACKET_TYPE_INITIAL then
          token_length <- pull_uint_var ;;
          token <- pull_bytes token_length ;;
          rest_length <- pull_uint_var ;;
          ret (mkQuicHeader (Some version) (Some packet_type) destination_cid
                 source_cid original_destination_cid token rest_length)
        else if packet_type =? PACKET_TYPE_RETRY then
          let original_destination_cid_length :=
            decode_cid_length (Z.land first_byte 0xF) in
          original_destination_cid <-
            pull_bytes original_destination_cid_length ;;
          capacity <- get_capacity ;;
          pos <- get_tell ;;
          token <- pull_bytes (capacity - pos) ;;
          let rest_length := 0 in
          ret (mkQuicHeader (Some version) (Some packet_type) destination_cid
                 source_cid original_destination_cid token rest_length)
        else
          rest_length <- pull_uint_var ;;
          ret (mkQuicHeader (Some version) (Some packet_type) destination_cid
                 source_cid original_destination_cid token rest_length)
  else
    (* short header packet *)
    if negb (truthy (Z.land first_byte PACKET_FIXED_BIT)) then
      raise ValueError
    else
      let packet_type := Z.land first_byte PACKET_TYPE_MASK in
      match host_cid_length with
      | None => raise TypeError
      | Some host_cid_length =>
          destination_cid <- pull_bytes host_cid_length ;;
          capacity <- get_capacity ;;
          pos <- get_tell ;;
          ret (mkQuicHeader None (Some packet_type) destination_cid [] []
                 [] (capacity - pos))
      end.

Definition push_quic_header (header : QuicHeader) : M unit :=
  match packet_type header, version header with
  | Some header_packet_type, Some header_version =>
      push_uint8 header_packet_type ;;;
      push_uint32 header_version ;;;
      push_uint8
        (Z.lor (Z.shiftl (encode_cid_length (len (destination_cid header))) 4)
               (encode_cid_length (len (source_cid header)))) ;;;
      push_bytes (destination_cid header) ;;;
      push_bytes (source_cid header) ;;;
      (if Z.land header_packet_type PACKET_TYPE_MASK =? PACKET_TYPE_INITIAL
       then push_uint_var (len (token header)) ;;;
            push_bytes (token header)
       else ret tt) ;;;
      push_uint16 0 ;;;  (* length *)
      push_uint16 0      (* pn *)
  | _, _ => raise TypeError
  end.

(* ================================================================= *)
(** ** packet.py: transport parameters (TLS extension) *)

(** A Python value held by a dynamically typed attribute. *)
Inductive pyval : Type :=
| PyNone
| PyInt (n : Z)
| PyBytes (b : list Z)
| PyBool (b : bool).

Record QuicTransportParameters : Type := mkQuicTransportParameters {
  initial_version : pyval;
  negotiated_version : pyval;
  supported_versions : list Z;

  original_connection_id : pyval;
  idle_timeout : pyval;
  stateless_reset_token : pyval;
  max_packet_size : pyval;
  initial_max_data : pyval;
  initial_max_stream_data_bidi_local : pyval;
  initial_max_stream_data_bidi_remote : pyval;
  initial_max_stream_data_uni : pyval;
  initial_max_streams_bidi : pyval;
  initial_max_streams_uni : pyval;
  ack_delay_exponent : pyval;
  max_ack_delay : pyval;
  disable_migration : pyval;
  preferred_address : pyval
}.

(** [QuicTransportParameters()] *)
Definition QuicTransportParameters_default : QuicTransportParameters :=
  mkQuicTransportParameters PyNone PyNone []
    PyNone PyNone PyNone PyNone PyNone PyNone PyNone PyNone PyNone PyNone
    PyNone PyNone (PyBool false) PyNone.

(** The attribute names that [PARAMS] lists. *)
Inductive param_name : Set :=
| original_connection_id_
| idle_timeout_
| stateless_reset_token_
| max_packet_size_
| initial_max_data_
| initial_max_stream_data_bidi_local_
| initial_max_stream_data_bidi_remote_
| initial_max_stream_data_uni_
| initial_max_streams_bidi_
| initial_max_streams_uni_
| ack_delay_exponent_
| max_ack_delay_
| disable_migration_
| preferred_address_.

Inductive param_type : Set := int_ | bytes_ | bool_.

Definition PARAMS : list (param_name * param_type) :=
  [ (original_connection_id_, bytes_);
    (idle_timeout_, int_);
    (stateless_reset_token_, bytes_);
    (max_packet_size_, int_);
    (initial_max_data_, int_);
    (initial_max_stream_data_bidi_local_, int_);
    (initial_max_stream_data_bidi_remote_, int_);
    (initial_max_stream_data_uni_, int_);
    (initial_max_streams_bidi_, int_);
    (initial_max_streams_uni_, int_);
    (ack_delay_exponent_, int_);
    (max_ack_delay_, int_);
    (disable_migration_, bool_);
    (preferred_address_, bytes_) ].

Definition getattr (p : QuicTransportParameters) (name : param_name) : pyval :=
  match name with
  | original_connection_id_ => original_connection_id p
  | idle_timeout_ => idle_timeout p
  | stateless_reset_token_ => stateless_reset_token p
  | max_packet_size_ => max_packet_size p
  | initial_max_data_ => initial_max_data p
  | initial_max_stream_data_bidi_local_ => initial_max_stream_data_bidi_local p
  | initial_max_stream_data_bidi_remote_ =>
      initial_max_stream_data_bidi_remote p
  | initial_max_stream_data_uni_ => initial_max_stream_data_uni p
  | initial_max_streams_bidi_ => initial_max_streams_bidi p
  | initial_max_streams_uni_ => initial_max_streams_uni p
  | ack_delay_exponent_ => ack_delay_exponent p
  | max_ack_delay_ => max_ack_delay p
  | disable_migration_ => disable_migration p
  | preferred_address_ => preferred_address p
  end.

Definition setattr (p : QuicTransportParameters) (name : param_name)
           (v : pyval) : QuicTransportParameters :=
  let '(mkQuicTransportParameters iv nv sv f0 f1 f2 f3 f4 f5 f6 f7 f8 f9 f10
          f11 f12 f13) := p in
  match name with
  | original_connection_id_ =>
      mkQuicTransportParameters iv nv sv v f1 f2 f3 f4 f5 f6 f7 f8 f9 f10 f11
        f12 f13
  | idle_timeout_ =>
      mkQuicTransportParameters iv nv sv f0 v f2 f3 f4 f5 f6 f7 f8 f9 f10 f11
        f12 f13
  | stateless_reset_token_ =>
      mkQuicTransportParameters iv nv sv f0 f1 v f3 f4 f5 f6 f7 f8 f9 f10 f11
        f12 f13
  | max_packet_size_ =>
      mkQuicTransportParameters iv nv sv f0 f1 f2 v f4 f5 f6 f7 f8 f9 f10 f11
        f12 f13
  | initial_max_data_ =>
      mkQuicTransportParameters iv nv sv f0 f1 f2 f3 v f5 f6 f7 f8 f9 f10 f11
        f12 f13
  | initial_max_stream_data_bidi_local_ =>
      mkQuicTransportParameters iv nv sv f0 f1 f2 f3 f4 v f6 f7 f8 f9 f10 f11
        f12 f13
  | initial_max_stream_data_bidi_remote_ =>
      mkQuicTransportParameters iv nv sv f0 f1 f2 f3 f4 f5 v f7 f8 f9 f10 f11
        f12 f13
  | initial_max_stream_data_uni_ =>
      mkQuicTransportParameters iv nv sv f0 f1 f2 f3 f4 f5 f6 v f8 f9 f10 f11
        f12 f13
  | initial_max_streams_bidi_ =>
      mkQuicTransportParameters iv nv sv f0 f1 f2 f3 f4 f5 f6 f7 v f9 f10 f11
        f12 f13
  | initial_max_streams_uni_ =>
      mkQuicTransportParameters iv nv sv f0 f1 f2 f3 f4 f5 f6 f7 f8 v f10 f11
        f12 f13
  | ack_delay_exponent_ =>
      mkQuicTransportParameters iv nv sv f0 f1 f2 f3 f4 f5 f6 f7 f8 f9 v f11
        f12 f13
  | max_ack_delay_ =>
      mkQuicTransportParameters iv nv sv f0 f1 f2 f3 f4 f5 f6 f7 f8 f9 f10 v
        f12 f13
  | disable_migration_ =>
      mkQuicTransportParameters iv nv sv f0 f1 f2 f3 f4 f5 f6 f7 f8 f9 f10 f11
        v f13
  | preferred_address_ =>
      mkQuicTransportParameters iv nv sv f0 f1 f2 f3 f4 f5 f6 f7 f8 f9 f10 f11
        f12 v
  end.

(** Modelled from the spec: [pull_block(buf, capacity)] of [tls.py], the
    "length-prefixed sub-buffer primitive": reads a big-endian length of
    [capacity] bytes, hands it to the body, and checks afterwards that the
    body stopped at the block's end. *)
Definition pull_block {A} (capacity : nat) (body : Z -> M A) : M A :=
  length <- pull_uint capacity ;;
  start <- get_tell ;;
  a <- body length ;;
  pos <- get_tell ;;
  assert (pos =? start + length) ;;;
  ret a.

(** Modelled from the spec: [push_block(buf, capacity)] of [tls.py]: reserves
    [capacity] bytes, runs the body, then writes the body's length into the
    reserved bytes, big-endian. *)
Definition push_block (capacity : nat) (body : M unit) : M unit :=
  push_bytes (repeat 0 capacity) ;;;
  start <- get_tell ;;
  body ;;;
  end_ <- get_tell ;;
  seek (start - Z.of_nat capacity) ;;;
  push_uint capacity (end_ - start) ;;;
  seek end_.

(** One TLV entry: the part of the loop body between reading the entry's
    header and the assertion on the cursor. *)
Definition pull_param (params : QuicTransportParameters)
           (param_id param_len : Z) : M QuicTransportParameters :=
  if param_id <? len PARAMS then
    (* parse known parameter *)
    match nth_error PARAMS (Z.to_nat param_id) with
    | Some (param_name, param_type) =>
        match param_type with
        | int_ => v <- pull_uint_var ;; ret (setattr params param_name (PyInt v))
        | bytes_ =>
            v <- pull_bytes param_len ;;
            ret (setattr params param_name (PyBytes v))
        | bool_ => ret (setattr params param_name (PyBool true))
        end
    | None => raise IndexError
    end
  else
    (* skip unknown parameter *)
    pull_bytes param_len ;;;
    ret params.

(** The [while buf.tell() < end] loop.  Every iteration that does not raise
    reads at least the four bytes of an entry's header, so a [fuel] above the
    buffer's capacity is never used up. *)
Fixpoint pull_params_loop (fuel : nat) (end_ : Z)
         (params : QuicTransportParameters) : M QuicTransportParameters :=
  pos <- get_tell ;;
  if pos <? end_ then
    match fuel with
    | O => raise FuelExhausted
    | S fuel' =>
        param_id <- pull_uint16 ;;
        param_len <- pull_uint16 ;;
        param_start <- get_tell ;;
        params <- pull_param params param_id param_len ;;
        pos <- get_tell ;;
        assert (pos =? param_start + param_len) ;;;
        pull_params_loop fuel' end_ params
    end
  else ret params.

Definition pull_quic_transport_parameters : M QuicTransportParameters :=
  let params := QuicTransportParameters_default in
  pull_block 2 (fun length =>
    pos <- get_tell ;;
    let end_ := pos + length in
    capacity <- get_capacity ;;
    pull_params_loop (S (Z.to_nat capacity)) end_ params).

(** [param_value is not None and param_value is not False] *)
Definition is_present (param_value : pyval) : bool :=
  match param_value with
  | PyNone => false
  | PyBool false => false
  | _ => true
  end.

(** The [for param_id, (param_name, param_type) in enumerate(PARAMS)] loop. *)
Fixpoint push_params_from (param_id : Z) (table : list (param_name * param_type))
         (params : QuicTransportParameters) : M unit :=
  match table with
  | (param_name, param_type) :: table' =>
      let param_value := getattr params param_name in
      (if is_present param_value then
         push_uint16 param_id ;;;
         push_block 2
           match param_type with
           | int_ =>
               match param_value with
               | PyInt n => push_uint_var n
               | PyBool b => push_uint_var (if b then 1 else 0)
               | _ => raise TypeError
               end
           | bytes_ =>
               match param_value with
               | PyBytes b => push_bytes b
               | _ => raise TypeError
               end
           | bool_ => ret tt
           end
       else ret tt) ;;;
      push_params_from (param_id + 1) table' params
  | [] => ret tt
  end.

Definition push_quic_transport_parameters (params : QuicTransportParameters)
  : M unit :=
  push_block 2 (push_params_from 0 PARAMS params).

(* ================================================================= *)
(** ** packet.py: frames *)

(** The [for _ in range(ack_range_count)] loop of [pull_ack_frame]. *)
Fixpoint pull_ack_ranges (count : nat) (rangeset : RangeSet.t) (end_ : Z)
  : M RangeSet.t :=
  match count with
  | O => ret rangeset
  | S count' =>
      gap <- pull_uint_var ;;
      let end_ := end_ - (gap + 2) in
      ack_count <- pull_uint_var ;;
      rangeset <- lift (RangeSet.add rangeset (end_ - ack_count)
                          (Some (end_ + 1))) ;;
      let end_ := end_ - ack_count in
      pull_ack_ranges count' rangeset end_
  end.

Definition pull_ack_frame : M (RangeSet.t * Z) :=
  let rangeset := RangeSet.empty in
  end_ <- pull_uint_var ;;  (* largest acknowledged *)
  delay <- pull_uint_var ;;
  ack_range_count <- pull_uint_var ;;
  ack_count <- pull_uint_var ;;  (* first ack range *)
  rangeset <- lift (RangeSet.add rangeset (end_ - ack_count)
                      (Some (end_ + 1))) ;;
  let end_ := end_ - ack_count in
  rangeset <- pull_ack_ranges (Z.to_nat ack_range_count) rangeset end_ ;;
  ret (rangeset, delay).

(** The [while index > 0] loop of [push_ack_frame]. *)
Fixpoint push_ack_ranges (index : nat) (rangeset : RangeSet.t) (start : Z)
  : M unit :=
  match index with
  | O => ret tt
  | S index' =>
      r <- lift (RangeSet.getitem rangeset (Z.of_nat index')) ;;
      push_uint_var (start - range_stop r - 1) ;;;
      push_uint_var (range_stop r - range_start r - 1) ;;;
      push_ack_ranges index' rangeset (range_start r)
  end.

Definition push_ack_frame (rangeset : RangeSet.t) (delay : Z) : M unit :=
  let index := RangeSet.len rangeset - 1 in
  r <- lift (RangeSet.getitem rangeset index) ;;
  push_uint_var (range_stop r - 1) ;;;
  push_uint_var delay ;;;
  push_uint_var index ;;;
  push_uint_var (range_stop r - 1 - range_start r) ;;;
  push_ack_ranges (Z.to_nat index) rangeset (range_start r).

Record QuicStreamFrame : Type := mkQuicStreamFrame {
  frame_data : list Z;
  fin : bool;
  offset : Z
}.

Definition pull_crypto_frame : M QuicStreamFrame :=
  offset <- pull_uint_var ;;
  length <- pull_uint_var ;;
  data <- pull_bytes length ;;
  ret (mkQuicStreamFrame data false offset).

(** The context manager [push_crypto_frame]; [body] is the [with] block. *)
Definition push_crypto_frame (offset : Z) (body : M unit) : M unit :=
  push_uint_var offset ;;;
  push_uint16 0 ;;;
  start <- get_tell ;;
  body ;;;
  end_ <- get_tell ;;
  seek (start - 2) ;;;
  push_uint16 (Z.lor (end_ - start) 0x4000) ;;;
  seek end_.

Definition pull_new_token_frame : M (list Z) :=
  length <- pull_uint_var ;;
  pull_bytes length.

Definition push_new_token_frame (token : list Z) : M unit :=
  push_uint_var (len token) ;;;
  push_bytes token.

Definition pull_new_connection_id_frame : M (Z * list Z * list Z) :=
  sequence_number <- pull_uint_var ;;
  length <- pull_uint8 ;;
  connection_id <- pull_bytes length ;;
  stateless_reset_token <- pull_bytes 16 ;;
  ret (sequence_number, connection_id, stateless_reset_token).

Definition push_new_connection_id_frame (sequence_number : Z)
           (connection_id stateless_reset_token : list Z) : M unit :=
  assert (len stateless_reset_token =? 16) ;;;
  push_uint_var sequence_number ;;;
  push_uint8 (len connection_id) ;;;
  push_bytes connection_id ;;;
  push_bytes stateless_reset_token.

(** Python's built-in [bytes.decode("utf8")], the strict UTF-8 decoder: a
    [str] is the list of its code points; overlong forms, surrogates, code
    points above U+10FFFF and truncated sequences raise
    [UnicodeDecodeError]. *)
Definition is_continuation (b : Z) : bool := (0x80 <=? b) && (b <=? 0xBF).

Definition cons_char (c : Z) (r : result (list Z)) : result (list Z) :=
  match r with Ok s => Ok (c :: s) | Raise e => Raise e end.

Fixpoint bytes_decode_utf8 (bs : list Z) : result (list Z) :=
  match bs with
  | [] => Ok []
  | b0 :: r0 =>
      if (0 <=? b0) && (b0 <=? 0x7F) then cons_char b0 (bytes_decode_utf8 r0)
      else if (0xC2 <=? b0) && (b0 <=? 0xDF) then
        match r0 with
        | b1 :: r1 =>
            if is_continuation b1
            then cons_char ((b0 - 0xC0) * 64 + (b1 - 0x80))
                   (bytes_decode_utf8 r1)
            else Raise UnicodeDecodeError
        | _ => Raise UnicodeDecodeError
        end
      else if (0xE0 <=? b0) && (b0 <=? 0xEF) then
        match r0 with
        | b1 :: b2 :: r2 =>
            if is_continuation b1 && is_continuation b2
               && ((0xE1 <=? b0) || (0xA0 <=? b1))
               && (negb (b0 =? 0xED) || (b1 <=? 0x9F))
            then cons_char
                   ((b0 - 0xE0) * 4096 + (b1 - 0x80) * 64 + (b2 - 0x80))
                   (bytes_decode_utf8 r2)
            else Raise UnicodeDecodeError
        | _ => Raise UnicodeDecodeError
        end
      else if (0xF0 <=? b0) && (b0 <=? 0xF4) then
        match r0 with
        | b1 :: b2 :: b3 :: r3 =>
            if is_continuation b1 && is_continuation b2 && is_continuation b3
               && ((0xF1 <=? b0) || (0x90 <=? b1))
               && ((b0 <=? 0xF3) || (b1 <=? 0x8F))
            then cons_char
                   ((b0 - 0xF0) * 262144 + (b1 - 0x80) * 4096
                    + (b2 - 0x80) * 64 + (b3 - 0x80))
                   (bytes_decode_utf8 r3)
            else Raise UnicodeDecodeError
        | _ => Raise UnicodeDecodeError
        end
      else Raise UnicodeDecodeError
  end.

Definition decode_reason_phrase (reason_bytes : list Z) : result (list Z) :=
  match bytes_decode_utf8 reason_bytes with
  | Ok s => Ok s
  | Raise e => if exn_eqb e UnicodeDecodeError then Ok [] else Raise e
  end.

Definition pull_transport_close_frame : M (Z * Z * list Z) :=
  error_code <- pull_uint16 ;;
  frame_type <- pull_uint_var ;;
  reason_length <- pull_uint_var ;;
  reason_bytes <- pull_bytes reason_length ;;
  reason_phrase <- lift (decode_reason_phrase reason_bytes) ;;
  ret (error_code, frame_type, reason_phrase).

Definition pull_application_close_frame : M (Z * list Z) :=
  error_code <- pull_uint16 ;;
  reason_length <- pull_uint_var ;;
  reason_bytes <- pull_bytes reason_length ;;
  reason_phrase <- lift (decode_reason_phrase reason_bytes) ;;
  ret (error_code, reason_phrase).

(* ================================================================= *)
(** ** packet.py: the remaining functions *)

(** The property [QuicHeader.is_long_header]. *)
Definition QuicHeader_is_long_header (self : QuicHeader) : bool :=
  match packet_type self with
  | None => true
  | Some packet_type => is_long_header packet_type
  end.

(** The [for version in supported_versions] loop. *)
Fixpoint push_versions (supported_versions : list Z) : M unit :=
  match supported_versions with
  | [] => ret tt
  | version :: supported_versions' =>
      push_uint32 version ;;; push_versions supported_versions'
  end.

(** [encode_quic_version_negotiation]; [random_byte] is the byte
    [os.urandom(1)[0]] yields. *)
Definition encode_quic_version_negotiation (random_byte : Z)
           (source_cid destination_cid : list Z) (supported_versions : list Z)
  : result (list Z) :=
  let buf := Buffer_capacity 100 in
  match
    (push_uint8 (Z.lor random_byte PACKET_LONG_HEADER) ;;;
     push_uint32 NEGOTIATION ;;;
     push_uint8
       (Z.lor (Z.shiftl (encode_cid_length (len destination_cid)) 4)
              (encode_cid_length (len source_cid))) ;;;
     push_bytes destination_cid ;;;
     push_bytes source_cid ;;;
     push_versions supported_versions) buf
  with
  | Ok (_, buf) => Ok (data buf)
  | Raise e => Raise e
  end.

(** The context manager [push_stream_frame]; [body] is the [with] block. *)
Definition push_stream_frame (stream_id offset : Z) (body : M unit) : M unit :=
  push_uint_var stream_id ;;;
  (if truthy offset then push_uint_var offset else ret tt) ;;;
  push_uint16 0 ;;;
  start <- get_tell ;;
  body ;;;
  end_ <- get_tell ;;
  seek (start - 2) ;;;
  push_uint16 (Z.lor (end_ - start) 0x4000) ;;;
  seek end_.

(** Python's built-in [str.encode("utf8")] on the list of code points of a
    [str].  A surrogate cannot be encoded: Python raises
    [UnicodeEncodeError], a subclass of [ValueError], which stands for it
    here; so does a number that is no code point, which no [str] holds. *)
Fixpoint str_encode_utf8 (s : list Z) : result (list Z) :=
  match s with
  | [] => Ok []
  | c :: s' =>
      let rest := str_encode_utf8 s' in
      let emit (bs : list Z) : result (list Z) :=
        match rest with Ok r => Ok (bs ++ r) | Raise e => Raise e end in
      if (c <? 0) || (0x10FFFF <? c) then Raise ValueError
      else if c <=? 0x7F then emit [c]
      else if c <=? 0x7FF then emit [0xC0 + c / 64; 0x80 + c mod 64]
      else if (0xD800 <=? c) && (c <=? 0xDFFF) then Raise ValueError
      else if c <=? 0xFFFF then
        emit [0xE0 + c / 4096; 0x80 + (c / 64) mod 64; 0x80 + c mod 64]
      else
        emit [0xF0 + c / 262144; 0x80 + (c / 4096) mod 64;
              0x80 + (c / 64) mod 64; 0x80 + c mod 64]
  end.

Definition push_transport_close_frame (error_code frame_type : Z)
           (reason_phrase : list Z) : M unit :=
  reason_bytes <- lift (str_encode_utf8 reason_phrase) ;;
  push_uint16 error_code ;;;
  push_uint_var frame_type ;;;
  push_uint_var (len reason_bytes) ;;;
  push_bytes reason_bytes.

Definition push_application_close_frame (error_code : Z)
           (reason_phrase : list Z) : M unit :=
  reason_bytes <- lift (str_encode_utf8 reason_phrase) ;;
  push_uint16 error_code ;;;
  push_uint_var (len reason_bytes) ;;;
  push_bytes reason_bytes.

(* ================================================================= *)
(** ** Specification vocabulary *)

(** *** RangeSet invariant *)

(** A range of a [RangeSet] is never empty: [add] asserts [stop > start]
    and merging only widens. *)
Definition range_ok (r : range) : Prop := range_start r < range_stop r.

(** Sorted ascending (by start). *)
Definition sorted_ascending (rs : list range) : Prop :=
  forall i j r s, (i < j)%nat ->
    nth_error rs i = Some r -> nth_error rs j = Some s ->
    range_start r <= range_start s.

(** Pairwise disjoint, as half-open intervals. *)
Definition pairwise_disjoint (rs : list range) : Prop :=
  forall i j r s, (i < j)%nat ->
    nth_error rs i = Some r -> nth_error rs j = Some s ->
    range_stop r <= range_start s \/ range_stop s <= range_start r.

(** No [r[i].stop == r[i+1].start]. *)
Definition non_adjacent (rs : list range) : Prop :=
  forall i r s,
    nth_error rs i = Some r -> nth_error rs (S i) = Some s ->
    range_stop r <> range_start s.

Definition RangeSet_inv (rs : list range) : Prop :=
  Forall range_ok rs /\ sorted_ascending rs /\ pairwise_disjoint rs
  /\ non_adjacent rs.

(** The same invariant in recursive form: every range is non-empty and
    starts strictly after [lo], the stop of the range before it. *)
Fixpoint chain_from (lo : Z) (rs : list range) : Prop :=
  match rs with
  | [] => True
  | r :: rs' => lo < range_start r /\ range_ok r
                /\ chain_from (range_stop r) rs'
  end.

Definition chain (rs : list range) : Prop :=
  match rs with
  | [] => True
  | r :: rs' => range_ok r /\ chain_from (range_stop r) rs'
  end.

(** [m] covers [r]. *)
Definition covers (m r : range) : Prop :=
  range_start m <= range_start r /\ range_stop r <= range_stop m.

(** *** Wire encodings *)

(** The length class of a value: the index of the first entry of
    [UINT_VAR_FORMATS] whose mask covers it. *)
Definition uint_var_class (v : Z) : nat :=
  if v <=? 0x3F then 0
  else if v <=? 0x3FFF then 1
  else if v <=? 0x3FFFFFFF then 2
  else 3.

(** The byte width of a length class: 1, 2, 4 or 8. *)
Definition uint_var_width (v : Z) : nat := Nat.pow 2 (uint_var_class v).

(** The bytes of a variable-length integer: big-endian in the width of its
    class, with the class selector ORed into the first byte. *)
Definition uint_var_bytes (v : Z) : list Z :=
  match be_bytes (uint_var_width v) v with
  | x :: r => Z.lor x (Z.of_nat (uint_var_class v) * 64) :: r
  | [] => []
  end.

(** [m] writes the bytes [bs] at the cursor and advances it, whenever the
    buffer has room for them. *)
Definition writes (m : M unit) (bs : list Z) : Prop :=
  forall buf, (_pos buf + length bs <= length (_data buf))%nat ->
    m buf = Ok (tt, mkBuffer (write_at (_pos buf) bs (_data buf))
                             (_pos buf + length bs)).

(** [m] returns [a] and advances the cursor over [bs], whenever the bytes at
    the cursor are [bs]. *)
Definition reads {A} (m : M A) (bs : list Z) (a : A) : Prop :=
  forall buf rest, (_pos buf <= length (_data buf))%nat ->
    skipn (_pos buf) (_data buf) = bs ++ rest ->
    m buf = Ok (a, mkBuffer (_data buf) (_pos buf + length bs)).

(** The bytes [push_ack_frame] emits for the ranges below slot [index],
    from the highest down; [start] is the start of the range just above. *)
Fixpoint ack_ranges_bytes (index : nat) (rangeset : RangeSet.t) (start : Z)
  : list Z :=
  match index with
  | O => []
  | S index' =>
      match nth_error rangeset index' with
      | Some r =>
          uint_var_bytes (start - range_stop r - 1)
          ++ uint_var_bytes (range_stop r - range_start r - 1)
          ++ ack_ranges_bytes index' rangeset (range_start r)
      | None => []
      end
  end.

(** The bytes of an ACK frame: largest acknowledged, delay, range count,
    first range length, then a gap and a length per further range. *)
Definition ack_frame_bytes (rangeset : RangeSet.t) (delay : Z) : list Z :=
  match nth_error rangeset (length rangeset - 1) with
  | Some r =>
      uint_var_bytes (range_stop r - 1)
      ++ uint_var_bytes delay
      ++ uint_var_bytes (RangeSet.len rangeset - 1)
      ++ uint_var_bytes (range_stop r - 1 - range_start r)
      ++ ack_ranges_bytes (length rangeset - 1) rangeset (range_start r)
  | None => []
  end.

(** The bytes of a long-header Initial packet header with an 8-byte
    destination CID, no source CID and a 4-byte token: first byte, version,
    CID lengths, destination CID, token length, token, and the zero
    placeholders of the length and the packet number. *)
Definition initial_header_bytes (version : Z) (destination_cid token : list Z)
  : list Z :=
  [0xC0] ++ be_bytes 4 version ++ [0x50] ++ destination_cid
  ++ uint_var_bytes 4 ++ token ++ [0; 0] ++ [0; 0].

(** *** Transport parameter entries *)

(** [entries_done end_ params buf params' buf']: from the loop state
    [(params, buf)], the [while] loop of [pull_quic_transport_parameters]
    processes some entries, each leaving the cursor at
    [param_start + param_len], and reaches the state [(params', buf')]. *)
Inductive entries_done (end_ : Z)
  : QuicTransportParameters -> Buffer -> QuicTransportParameters -> Buffer
    -> Prop :=
| entries_none params buf : entries_done end_ params buf params buf
| entries_next params buf param_id param_len buf1 buf2 params1 buf3
               params' buf' :
    tell buf < end_ ->
    pull_uint16 buf = Ok (param_id, buf1) ->
    pull_uint16 buf1 = Ok (param_len, buf2) ->
    pull_param params param_id param_len buf2 = Ok (params1, buf3) ->
    tell buf3 = tell buf2 + param_len ->
    entries_done end_ params1 buf3 params' buf' ->
    entries_done end_ params buf params' buf'.

(** The record in which only [initial_max_data] is set, to 100: every other
    field has the value [QuicTransportParameters()] gives it. *)
Definition params_initial_max_data_100 : QuicTransportParameters :=
  {| initial_version := PyNone;
     negotiated_version := PyNone;
     supported_versions := [];
     original_connection_id := PyNone;
     idle_timeout := PyNone;
     stateless_reset_token := PyNone;
     max_packet_size := PyNone;
     initial_max_data := PyInt 100;
     initial_max_stream_data_bidi_local := PyNone;
     initial_max_stream_data_bidi_remote := PyNone;
     initial_max_stream_data_uni := PyNone;
     initial_max_streams_bidi := PyNone;
     initial_max_streams_uni := PyNone;
     ack_delay_exponent := PyNone;
     max_ack_delay := PyNone;
     disable_migration := PyBool false;
     preferred_address := PyNone |}.

(** *** Integers covered by a RangeSet *)

(** [x] lies in the half-open range [r]. *)
Definition in_range (r : range) (x : Z) : Prop :=
  range_start r <= x < range_stop r.

(** [x] lies in one of the ranges. *)
Definition contains (rs : list range) (x : Z) : Prop :=
  exists r, In r rs /\ in_range r x.

(** *** Readers whose result depends on what follows *)

(** [m] returns [a] and advances the cursor over [bs] and [extra] more
    bytes, whenever the bytes at the cursor are [bs] followed by exactly
    [rest], the remainder of the buffer. *)
Definition parses_at {A} (rest : list Z) (m : M A) (bs : list Z) (a : A)
           (extra : nat) : Prop :=
  forall buf, (_pos buf <= length (_data buf))%nat ->
    skipn (_pos buf) (_data buf) = bs ++ rest ->
    m buf = Ok (a, mkBuffer (_data buf) (_pos buf + length bs + extra)).

(** The bytes of a variable-length integer in a given length class, minimal
    or not. *)
Definition uint_var_bytes_in (class : nat) (v : Z) : list Z :=
  match be_bytes (Nat.pow 2 class) v with
  | x :: r => Z.lor x (Z.of_nat class * 64) :: r
  | [] => []
  end.

(** The mask of a length class. *)
Definition uint_var_mask (class : nat) : Z :=
  2 ^ (8 * Z.of_nat (Nat.pow 2 class) - 2) - 1.

(** A CID length that the nibble encoding can carry: 0, or 4 to 18. *)
Definition cid_length_ok (n : Z) : Prop := n = 0 \/ 4 <= n <= 18.

(** A byte. *)
Definition is_byte (b : Z) : Prop := 0 <= b < 256.

(** *** Long headers *)

(** The bytes [push_quic_header] emits for a long header: first byte,
    version, the two CID-length nibbles, the CIDs, for an Initial packet the
    token with its length, and the zero placeholders of the length and the
    packet number. *)
Definition long_header_bytes (first_byte version : Z)
           (destination_cid source_cid token : list Z) : list Z :=
  [first_byte] ++ be_bytes 4 version
  ++ [16 * encode_cid_length (len destination_cid)
      + encode_cid_length (len source_cid)]
  ++ destination_cid ++ source_cid
  ++ (if Z.land first_byte PACKET_TYPE_MASK =? PACKET_TYPE_INITIAL
      then uint_var_bytes (len token) ++ token else [])
  ++ [0; 0] ++ [0; 0].

(** The bytes of a version negotiation packet. *)
Definition version_negotiation_bytes (first_byte : Z)
           (destination_cid source_cid : list Z) (versions : list Z)
  : list Z :=
  [first_byte] ++ be_bytes 4 0
  ++ [16 * encode_cid_length (len destination_cid)
      + encode_cid_length (len source_cid)]
  ++ destination_cid ++ source_cid
  ++ flat_map (be_bytes 4) versions.

(** *** Cursor movement *)

(** [buf'] is [buf] with the cursor moved forward, within the data. *)
Definition advanced (buf buf' : Buffer) : Prop :=
  _data buf' = _data buf
  /\ (_pos buf <= _pos buf' <= length (_data buf))%nat.

(** *** Transport parameters on the wire *)

(** The value bytes of one parameter. *)
Definition param_value_bytes (type : param_type) (param_value : pyval)
  : list Z :=
  match type, param_value with
  | int_, PyInt n => uint_var_bytes n
  | bytes_, PyBytes b => b
  | _, _ => []
  end.

(** The TLV entries of the parameters of [table], numbered from [param_id]:
    for each parameter that is set, its ID, the length of its value and its
    value. *)
Fixpoint entries_bytes (param_id : Z) (table : list (param_name * param_type))
         (params : QuicTransportParameters) : list Z :=
  match table with
  | [] => []
  | (name, type) :: table' =>
      (if is_present (getattr params name) then
         be_bytes 2 param_id
         ++ be_bytes 2 (len (param_value_bytes type (getattr params name)))
         ++ param_value_bytes type (getattr params name)
       else [])
      ++ entries_bytes (param_id + 1) table' params
  end.

(** The extension: the entries behind their total length. *)
Definition transport_parameters_bytes (params : QuicTransportParameters)
  : list Z :=
  be_bytes 2 (len (entries_bytes 0 PARAMS params))
  ++ entries_bytes 0 PARAMS params.

(** A value that an attribute of the given type carries over the wire: an
    integer parameter is unset or an integer a variable-length integer
    holds, a bytes parameter is unset or a byte string whose length fits two
    bytes, a boolean parameter is a boolean. *)
Definition value_of_type (type : param_type) (v : pyval) : Prop :=
  match type with
  | int_ => v = PyNone \/ exists n, v = PyInt n /\ 0 <= n <= 2 ^ 62 - 1
  | bytes_ => v = PyNone \/ exists b, v = PyBytes b /\ len b < 2 ^ 16
  | bool_ => exists b, v = PyBool b
  end.

(** A record that the extension can carry: the three version fields, which
    are not written, are at their defaults, and every parameter has a value
    of its type. *)
Definition params_wf (params : QuicTransportParameters) : Prop :=
  initial_version params = PyNone
  /\ negotiated_version params = PyNone
  /\ supported_versions params = []
  /\ Forall (fun entry : param_name * param_type =>
               value_of_type (snd entry) (getattr params (fst entry)))
            PARAMS.

(** The attributes of [table] that are set in [src], copied into [acc]. *)
Fixpoint copy_present (table : list (param_name * param_type))
         (src acc : QuicTransportParameters) : QuicTransportParameters :=
  match table with
  | [] => acc
  | (name, _) :: table' =>
      copy_present table' src
        (if is_present (getattr src name)
         then setattr acc name (getattr src name) else acc)
  end.

(** *** Writers on a buffer that is too small *)

(** [m] raises [BufferWriteError] whenever the buffer has no room for the
    bytes [bs]. *)
Definition overflows (m : M unit) (bs : list Z) : Prop :=
  forall buf, (_pos buf <= length (_data buf))%nat ->
    (length (_data buf) < _pos buf + length bs)%nat ->
    m buf = Raise BufferWriteError.

(* ================================================================= *)
(** * Properties *)

(** ** RangeSet *)

Lemma chain_from_weaken lo lo' rs :
  lo' <= lo -> chain_from lo rs -> chain_from lo' rs.
Proof.
  destruct rs as [|r rs]; simpl; [tauto|]. intros Hle (H1 & H2 & H3).
  repeat split; try assumption; lia.
Qed.

Lemma chain_from_chain lo rs : chain_from lo rs -> chain rs.
Proof. destruct rs; simpl; tauto. Qed.

Lemma chain_chain_from rs :
  chain rs -> forall x, exists lo, lo < x /\ chain_from lo rs.
Proof.
  destruct rs as [|r rs]; simpl; intros H x.
  - exists (x - 1). split; [lia|exact I].
  - exists (Z.min x (range_start r) - 1). repeat split; try tauto; lia.
Qed.

Lemma chain_from_Forall lo rs :
  chain_from lo rs -> Forall (fun r => lo < range_start r /\ range_ok r) rs.
Proof.
  revert lo. induction rs as [|r rs IH]; simpl; intros lo H; constructor.
  - tauto.
  - destruct H as (H1 & H2 & H3). apply IH in H3.
    eapply Forall_impl; [|exact H3]. unfold range_ok in *.
    intros a Ha. cbv beta in Ha. split; [lia|tauto].
Qed.

(** Two ranges of a chain, in order, are separated by a gap. *)
Lemma chain_from_nth lo rs i j r s :
  chain_from lo rs -> (i < j)%nat ->
  nth_error rs i = Some r -> nth_error rs j = Some s ->
  range_stop r < range_start s.
Proof.
  revert lo i j. induction rs as [|a rs IH]; intros lo i j Hc Hij Hi Hj.
  - destruct i; discriminate.
  - destruct Hc as (H1 & H2 & H3). destruct j as [|j]; [lia|].
    destruct i as [|i]; simpl in Hi, Hj.
    + injection Hi as <-. apply chain_from_Forall in H3.
      rewrite Forall_forall in H3. apply nth_error_In in Hj.
      apply H3 in Hj. tauto.
    + apply (IH (range_stop a) i j); [assumption|lia|assumption|assumption].
Qed.

Lemma chain_RangeSet_inv rs : chain rs -> RangeSet_inv rs.
Proof.
  intros Hc. destruct (chain_chain_from rs Hc 0) as (lo & _ & Hf).
  pose proof (chain_from_Forall _ _ Hf) as Hall.
  assert (Hok : forall r, In r rs -> range_ok r).
  { intros r Hr. rewrite Forall_forall in Hall. apply Hall in Hr. tauto. }
  repeat split.
  - apply Forall_forall. exact Hok.
  - intros i j r s Hij Hi Hj.
    pose proof (chain_from_nth _ _ _ _ _ _ Hf Hij Hi Hj).
    pose proof (Hok r (nth_error_In _ _ Hi)). unfold range_ok in *. lia.
  - intros i j r s Hij Hi Hj. left.
    pose proof (chain_from_nth _ _ _ _ _ _ Hf Hij Hi Hj). lia.
  - intros i r s Hi Hj.
    assert (Hij : (i < S i)%nat) by lia.
    pose proof (chain_from_nth _ _ _ _ _ _ Hf Hij Hi Hj). lia.
Qed.

Lemma RangeSet_inv_tail r rs : RangeSet_inv (r :: rs) -> RangeSet_inv rs.
Proof.
  intros (Hok & Hs & Hd & Hn). repeat split.
  - inversion Hok; assumption.
  - intros i j a b Hij Hi Hj. apply (Hs (S i) (S j) a b); simpl; auto. lia.
  - intros i j a b Hij Hi Hj. apply (Hd (S i) (S j) a b); simpl; auto. lia.
  - intros i a b Hi Hj. apply (Hn (S i) a b); simpl; auto.
Qed.

Lemma RangeSet_inv_chain rs : RangeSet_inv rs -> chain rs.
Proof.
  induction rs as [|r rs IH]; intros Hinv; [exact I|].
  pose proof (IH (RangeSet_inv_tail _ _ Hinv)) as Hc.
  destruct Hinv as (Hok & Hs & Hd & Hn).
  inversion Hok as [|? ? Hr Hrs]; subst. simpl. split; [assumption|].
  destruct rs as [|s rs]; [exact I|].
  destruct Hc as (Hsok & Hc). simpl. repeat split; try assumption.
  assert (H01 : (0 < 1)%nat) by lia.
  pose proof (Hs 0%nat 1%nat r s H01 eq_refl eq_refl) as Hsort.
  pose proof (Hd 0%nat 1%nat r s H01 eq_refl eq_refl) as Hdis.
  pose proof (Hn 0%nat r s eq_refl eq_refl) as Hadj.
  unfold range_ok in *. lia.
Qed.

Lemma absorb_chain next : forall lo stop,
  chain_from lo next ->
  stop <= fst (RangeSet.absorb stop next)
  /\ chain_from (fst (RangeSet.absorb stop next))
                (snd (RangeSet.absorb stop next)).
Proof.
  induction next as [|r next IH]; intros lo stop Hc; simpl.
  - split; [lia|exact I].
  - destruct Hc as (H1 & H2 & H3).
    destruct (range_start r <=? stop) eqn:E.
    + destruct (IH (range_stop r) (Z.max (range_stop r) stop) H3) as (Ha & Hb).
      split; [lia|exact Hb].
    + simpl. apply Z.leb_gt in E. repeat split; try assumption; lia.
Qed.

Lemma add_scan_chain_from rs : forall lo start stop,
  chain_from lo rs -> lo < start -> start < stop ->
  chain_from lo (RangeSet.add_scan rs start stop).
Proof.
  induction rs as [|r rs IH]; intros lo start stop Hc Hlo Hlt; simpl.
  - unfold range_ok; simpl. tauto.
  - destruct Hc as (H1 & H2 & H3).
    destruct (stop <? range_start r) eqn:E1.
    + apply Z.ltb_lt in E1. simpl. unfold range_ok at 1. simpl. tauto.
    + destruct (start >? range_stop r) eqn:E2.
      * simpl. repeat split; try assumption. apply IH; try assumption. lia.
      * pose proof (absorb_chain rs (range_stop r)
                      (Z.max stop (range_stop r)) H3) as (Ha & Hb).
        destruct (RangeSet.absorb (Z.max stop (range_stop r)) rs)
          as [stop' rest]. simpl in *. unfold range_ok in *. simpl.
        repeat split; try assumption; lia.
Qed.

Lemma add_scan_chain rs start stop :
  chain rs -> start < stop -> chain (RangeSet.add_scan rs start stop).
Proof.
  intros Hc Hlt. destruct (chain_chain_from rs Hc start) as (lo & Hlo & Hf).
  eapply chain_from_chain. apply add_scan_chain_from; eassumption.
Qed.

Lemma covers_refl r : covers r r.
Proof. unfold covers; lia. Qed.

Lemma absorb_covers next : forall lo stop r,
  chain_from lo next -> In r next ->
  In r (snd (RangeSet.absorb stop next))
  \/ range_stop r <= fst (RangeSet.absorb stop next).
Proof.
  induction next as [|a next IH]; intros lo stop r Hc Hin; [destruct Hin|].
  destruct Hc as (H1 & H2 & H3). simpl.
  destruct (range_start a <=? stop) eqn:E.
  - destruct Hin as [<-|Hin].
    + right.
      pose proof (absorb_chain next (range_stop a)
                    (Z.max (range_stop a) stop) H3) as (Ha & _). lia.
    + eapply IH; eassumption.
  - left. exact Hin.
Qed.

(** Every range that was in the set is covered by a range of the result. *)
Lemma add_scan_covers_old rs : forall lo start stop r,
  chain_from lo rs -> In r rs ->
  exists m, In m (RangeSet.add_scan rs start stop) /\ covers m r.
Proof.
  induction rs as [|a rs IH]; intros lo start stop r Hc Hin; [destruct Hin|].
  destruct Hc as (H1 & H2 & H3). simpl.
  destruct (stop <? range_start a) eqn:E1.
  - exists r. split; [right; exact Hin|apply covers_refl].
  - destruct (start >? range_stop a) eqn:E2.
    + destruct Hin as [<-|Hin].
      * exists a. split; [left; reflexivity|apply covers_refl].
      * destruct (IH (range_stop a) start stop r H3 Hin) as (m & Hm & Hcov).
        exists m. split; [right; exact Hm|exact Hcov].
    + pose proof (absorb_chain rs (range_stop a)
                    (Z.max stop (range_stop a)) H3) as (Ha & _).
      pose proof (fun r Hr => absorb_covers rs (range_stop a)
                    (Z.max stop (range_stop a)) r H3 Hr) as Hb.
      destruct (RangeSet.absorb (Z.max stop (range_stop a)) rs)
        as [stop' rest]. simpl in *.
      destruct Hin as [<-|Hin].
      * eexists. split; [left; reflexivity|]. unfold covers; simpl. lia.
      * destruct (Hb r Hin) as [Hr|Hr].
        -- exists r. split; [right; exact Hr|apply covers_refl].
        -- eexists. split; [left; reflexivity|]. unfold covers; simpl.
           apply chain_from_Forall in H3. rewrite Forall_forall in H3.
           apply H3 in Hin. unfold range_ok in *. lia.
Qed.

(** The added range is covered by a range of the result. *)
Lemma add_scan_covers_new rs : forall lo start stop,
  chain_from lo rs ->
  exists m, In m (RangeSet.add_scan rs start stop)
            /\ covers m (Range start stop).
Proof.
  induction rs as [|a rs IH]; intros lo start stop Hc; simpl.
  - eexists. split; [left; reflexivity|apply covers_refl].
  - destruct Hc as (H1 & H2 & H3).
    destruct (stop <? range_start a) eqn:E1.
    + eexists. split; [left; reflexivity|apply covers_refl].
    + destruct (start >? range_stop a) eqn:E2.
      * destruct (IH (range_stop a) start stop H3) as (m & Hm & Hcov).
        exists m. split; [right; exact Hm|exact Hcov].
      * pose proof (absorb_chain rs (range_stop a)
                      (Z.max stop (range_stop a)) H3) as (Ha & _).
        destruct (RangeSet.absorb (Z.max stop (range_stop a)) rs)
          as [stop' rest]. simpl in *.
        eexists. split; [left; reflexivity|]. unfold covers; simpl. lia.
Qed.

(** In a chain, two ranges that cover touching ranges are the same range. *)
Lemma chain_touching_same rs m1 m2 r1 r2 :
  chain rs -> In m1 rs -> In m2 rs ->
  covers m1 r1 -> covers m2 r2 ->
  range_start r1 <= range_stop r2 -> range_start r2 <= range_stop r1 ->
  m1 = m2.
Proof.
  intros Hc Hm1 Hm2 (Ha1 & Hb1) (Ha2 & Hb2) Ht1 Ht2.
  destruct (chain_chain_from rs Hc 0) as (lo & _ & Hf).
  apply In_nth_error in Hm1, Hm2.
  destruct Hm1 as (i & Hi). destruct Hm2 as (j & Hj).
  destruct (Nat.lt_trichotomy i j) as [Hlt|[Heq|Hgt]].
  - pose proof (chain_from_nth _ _ _ _ _ _ Hf Hlt Hi Hj). lia.
  - subst j. congruence.
  - pose proof (chain_from_nth _ _ _ _ _ _ Hf Hgt Hj Hi). lia.
Qed.

(** Claim C2.  Starting from a [RangeSet] whose ranges are sorted ascending,
    pairwise disjoint and non-adjacent, a call [add(start, stop)] with
    [stop > start] returns normally, the ranges are again sorted ascending,
    pairwise disjoint and non-adjacent, and a range of the set that abuts the
    added one (the new stop is its start, or the new start is its stop) ends
    up in one range of the result together with the added range. *)
Theorem RangeSet_add_invariant (rs : RangeSet.t) (start stop : Z) :
  RangeSet_inv rs -> stop > start ->
  exists rs',
    RangeSet.add rs start (Some stop) = Ok rs'
    /\ RangeSet_inv rs'
    /\ forall r, In r rs ->
         stop = range_start r \/ start = range_stop r ->
         exists m, In m rs' /\ covers m r /\ covers m (Range start stop).
Proof.
  intros Hinv Hgt. apply RangeSet_inv_chain in Hinv.
  exists (RangeSet.add_scan rs start stop). split; [|split].
  - unfold RangeSet.add. destruct (stop >? start) eqn:E; [reflexivity|].
    lia.
  - apply chain_RangeSet_inv. apply add_scan_chain; [assumption|lia].
  - intros r Hr Habut.
    destruct (chain_chain_from rs Hinv start) as (lo & Hlo & Hf).
    destruct (add_scan_covers_old rs lo start stop r Hf Hr) as (m1 & Hm1 & Hc1).
    destruct (add_scan_covers_new rs lo start stop Hf) as (m2 & Hm2 & Hc2).
    assert (Hok : range_ok r).
    { apply chain_from_Forall in Hf. rewrite Forall_forall in Hf.
      apply Hf in Hr. tauto. }
    assert (Hc' : chain (RangeSet.add_scan rs start stop))
      by (apply add_scan_chain; [assumption|lia]).
    assert (m1 = m2).
    { unfold range_ok in Hok.
      apply (chain_touching_same _ m1 m2 r (Range start stop)
               Hc' Hm1 Hm2 Hc1 Hc2); simpl; lia. }
    subst m2. exists m1. tauto.
Qed.

Lemma RangeSet_add_invariant_witness :
  exists rs',
    RangeSet.add [Range 0 5; Range 10 15] 5 (Some 10) = Ok rs'
    /\ RangeSet_inv rs'
    /\ forall r, In r [Range 0 5; Range 10 15] ->
         10 = range_start r \/ 5 = range_stop r ->
         exists m, In m rs' /\ covers m r /\ covers m (Range 5 10).
Proof.
  apply (RangeSet_add_invariant [Range 0 5; Range 10 15] 5 10).
  - apply chain_RangeSet_inv. unfold chain, chain_from, range_ok. simpl. lia.
  - lia.
Defined.

(* ================================================================= *)
(** ** Lists and buffers *)

Lemma firstn_prefix (p : nat) (d X : list Z) :
  (p <= length d)%nat -> firstn p (firstn p d ++ X) = firstn p d.
Proof.
  intros H. rewrite firstn_app, firstn_firstn, Nat.min_id.
  rewrite firstn_length_le by assumption. rewrite Nat.sub_diag. simpl.
  apply app_nil_r.
Qed.

Lemma skipn_prefix (p k : nat) (d X : list Z) :
  (p <= length d)%nat -> skipn (p + k) (firstn p d ++ X) = skipn k X.
Proof.
  intros H. rewrite skipn_app. rewrite firstn_length_le by assumption.
  rewrite skipn_all2 by (rewrite firstn_length_le by assumption; lia).
  simpl. f_equal. lia.
Qed.

Lemma firstn_prefix_plus (p k : nat) (d X : list Z) :
  (p <= length d)%nat ->
  firstn (p + k) (firstn p d ++ X) = firstn p d ++ firstn k X.
Proof.
  intros H. rewrite firstn_app. rewrite firstn_length_le by assumption.
  rewrite firstn_all2 by (rewrite firstn_length_le by assumption; lia).
  f_equal. f_equal. lia.
Qed.

Lemma write_at_length (pos : nat) (bs d : list Z) :
  (pos + length bs <= length d)%nat -> length (write_at pos bs d) = length d.
Proof.
  intros H. unfold write_at. rewrite !length_app, length_skipn.
  rewrite firstn_length_le by lia. lia.
Qed.

Lemma write_at_nil (pos : nat) (d : list Z) : write_at pos [] d = d.
Proof.
  unfold write_at. simpl. rewrite Nat.add_0_r. apply firstn_skipn.
Qed.


Lemma firstn_exact (a X : list Z) : firstn (length a) (a ++ X) = a.
Proof. induction a as [|x a IH]; simpl; [destruct X|rewrite IH]; reflexivity. Qed.

Lemma skipn_plus (a X : list Z) (k : nat) :
  skipn (length a + k) (a ++ X) = skipn k X.
Proof. induction a as [|x a IH]; simpl; auto. Qed.

Lemma skipn_exact (a X : list Z) : skipn (length a) (a ++ X) = X.
Proof.
  rewrite <- (Nat.add_0_r (length a)). rewrite skipn_plus. reflexivity.
Qed.

Lemma write_at_app (pos : nat) (a b d : list Z) :
  (pos + length a + length b <= length d)%nat ->
  write_at (pos + length a) b (write_at pos a d) = write_at pos (a ++ b) d.
Proof.
  intros H. unfold write_at.
  rewrite firstn_prefix_plus by lia. rewrite firstn_exact.
  rewrite <- Nat.add_assoc. rewrite skipn_prefix by lia.
  rewrite skipn_plus, skipn_skipn, length_app.
  replace (length b + (pos + length a))%nat
    with (pos + (length a + length b))%nat by lia.
  rewrite <- !app_assoc. reflexivity.
Qed.

(** Overwriting the middle part of what was just written. *)
Lemma write_at_patch (pos : nat) (a b b' c d : list Z) :
  length b' = length b ->
  (pos + length (a ++ b ++ c) <= length d)%nat ->
  write_at (pos + length a) b' (write_at pos (a ++ b ++ c) d)
  = write_at pos (a ++ b' ++ c) d.
Proof.
  intros Hb H. rewrite !length_app in H. unfold write_at.
  rewrite <- !app_assoc.
  rewrite firstn_prefix_plus by lia. rewrite firstn_exact.
  rewrite <- Nat.add_assoc. rewrite skipn_prefix by lia.
  rewrite skipn_plus, Hb, skipn_exact.
  rewrite !length_app, Hb. rewrite <- !app_assoc. reflexivity.
Qed.

Lemma skipn_write_at (pos : nat) (bs d : list Z) :
  (pos <= length d)%nat ->
  skipn pos (write_at pos bs d) = bs ++ skipn (pos + length bs) d.
Proof.
  intros H. unfold write_at.
  replace pos with (pos + 0)%nat at 1 by lia.
  rewrite skipn_prefix by assumption. reflexivity.
Qed.

Lemma firstn_write_at (pos : nat) (bs d : list Z) :
  (pos <= length d)%nat ->
  firstn (pos + length bs) (write_at pos bs d) = firstn pos d ++ bs.
Proof.
  intros H. unfold write_at. rewrite firstn_prefix_plus by assumption.
  rewrite firstn_app, firstn_all, Nat.sub_diag. simpl.
  rewrite app_nil_r. reflexivity.
Qed.

Lemma nth_error_skipn_hd (p : nat) (d : list Z) x r :
  skipn p d = x :: r -> nth_error d p = Some x.
Proof.
  revert d. induction p as [|p IH]; intros d H.
  - simpl in H. subst d. reflexivity.
  - destruct d as [|y d]; [discriminate|]. simpl in *. auto.
Qed.

Lemma skipn_room (p : nat) (d bs rest : list Z) :
  (p <= length d)%nat -> skipn p d = bs ++ rest ->
  (p + length bs + length rest = length d)%nat.
Proof.
  intros Hp H. apply (f_equal (@length Z)) in H.
  rewrite length_skipn, length_app in H. lia.
Qed.

Lemma skipn_more (p : nat) (d bs rest : list Z) :
  skipn p d = bs ++ rest -> skipn (p + length bs) d = rest.
Proof.
  intros H. rewrite Nat.add_comm, <- skipn_skipn, H.
  rewrite skipn_app, skipn_all, Nat.sub_diag. reflexivity.
Qed.

(* ================================================================= *)
(** ** Writers and readers compose *)

Lemma writes_ret : writes (ret tt) [].
Proof.
  intros [d p] _. unfold ret. simpl. rewrite write_at_nil, Nat.add_0_r.
  reflexivity.
Qed.

Lemma writes_bind (m1 m2 : M unit) (bs1 bs2 : list Z) :
  writes m1 bs1 -> writes m2 bs2 -> writes (m1 ;;; m2) (bs1 ++ bs2).
Proof.
  intros H1 H2 [d p] Hroom. simpl in Hroom. rewrite length_app in Hroom.
  unfold bind. rewrite H1 by (simpl; lia).
  rewrite H2 by (simpl; rewrite write_at_length by lia; lia).
  simpl. rewrite write_at_app by lia. rewrite length_app, Nat.add_assoc.
  reflexivity.
Qed.

Lemma writes_push_bytes (v : list Z) : writes (push_bytes v) v.
Proof.
  intros [d p] Hroom. simpl in Hroom. unfold push_bytes, tell, capacity. simpl.
  destruct (Z.of_nat p + Z.of_nat (length v) >? Z.of_nat (length d)) eqn:E;
    [lia|reflexivity].
Qed.

Lemma le_bytes_length (n : nat) : forall v, length (le_bytes n v) = n.
Proof. induction n as [|n IH]; intros v; simpl; [|rewrite IH]; reflexivity. Qed.

Lemma be_bytes_length (n : nat) (v : Z) : length (be_bytes n v) = n.
Proof. unfold be_bytes. rewrite length_rev. apply le_bytes_length. Qed.

Lemma writes_push_uint (n : nat) (v : Z) :
  0 <= v < 256 ^ Z.of_nat n -> writes (push_uint n v) (be_bytes n v).
Proof.
  intros Hv [d p] Hroom. simpl in Hroom. rewrite be_bytes_length in *.
  unfold push_uint, tell, capacity. simpl.
  destruct (v <? 0) eqn:E1; [lia|].
  destruct (256 ^ Z.of_nat n <=? v) eqn:E2; [lia|]. simpl.
  destruct (Z.of_nat p + Z.of_nat n >? Z.of_nat (length d)) eqn:E3;
    [lia|reflexivity].
Qed.

Lemma reads_ret {A} (a : A) : reads (ret a) [] a.
Proof.
  intros [d p] rest _ _. unfold ret. simpl. rewrite Nat.add_0_r. reflexivity.
Qed.

Lemma reads_bind {A B} (m : M A) (k : A -> M B) bs1 bs2 a b :
  reads m bs1 a -> reads (k a) bs2 b -> reads (x <- m ;; k x) (bs1 ++ bs2) b.
Proof.
  intros H1 H2 [d p] rest Hp Hskip. simpl in *.
  rewrite <- app_assoc in Hskip.
  pose proof (skipn_room _ _ _ _ Hp Hskip) as Hroom.
  rewrite length_app in Hroom.
  unfold bind. rewrite (H1 _ (bs2 ++ rest)) by assumption. simpl.
  rewrite (H2 _ rest); simpl; try lia.
  - rewrite length_app, Nat.add_assoc. reflexivity.
  - apply skipn_more. assumption.
Qed.

Lemma reads_lift {A} (a : A) : reads (lift (Ok a)) [] a.
Proof.
  intros [d p] rest _ _. unfold lift. simpl. rewrite Nat.add_0_r.
  reflexivity.
Qed.

Lemma reads_pull_bytes (bs : list Z) : reads (pull_bytes (len bs)) bs bs.
Proof.
  intros [d p] rest Hp Hskip. simpl in *.
  pose proof (skipn_room _ _ _ _ Hp Hskip) as Hroom.
  unfold pull_bytes, tell, capacity, len. simpl.
  destruct (Z.of_nat p + Z.of_nat (length bs) >? Z.of_nat (length d)) eqn:E;
    [lia|].
  rewrite Nat2Z.id, Hskip, firstn_exact. reflexivity.
Qed.

Lemma reads_pull_uint (n : nat) (bs : list Z) :
  length bs = n -> reads (pull_uint n) bs (be_value bs).
Proof.
  intros Hn [d p] rest Hp Hskip. simpl in *.
  pose proof (skipn_room _ _ _ _ Hp Hskip) as Hroom.
  unfold pull_uint, tell, capacity. simpl.
  destruct (Z.of_nat p + Z.of_nat n >? Z.of_nat (length d)) eqn:E; [lia|].
  rewrite Hskip, <- Hn, firstn_exact. reflexivity.
Qed.

(** What a fresh buffer holds after a writer ran. *)
Lemma writes_fresh (m : M unit) (bs : list Z) (cap : nat) :
  writes m bs -> (length bs <= cap)%nat ->
  exists buf, m (Buffer_capacity cap) = Ok (tt, buf) /\ data buf = bs.
Proof.
  intros Hw Hcap. eexists. split.
  - apply Hw. simpl. rewrite repeat_length. lia.
  - unfold data. simpl.
    rewrite (firstn_write_at 0 bs) by lia. reflexivity.
Qed.

(** Reading a buffer that holds exactly the bytes. *)
Lemma reads_data {A} (m : M A) (bs : list Z) (a : A) :
  reads m bs a ->
  m (Buffer_data bs) = Ok (a, mkBuffer bs (length bs)).
Proof.
  intros Hr. rewrite (Hr (Buffer_data bs) []); simpl.
  - reflexivity.
  - lia.
  - rewrite app_nil_r. reflexivity.
Qed.

(* ================================================================= *)
(** ** Fixed-width integers *)

Lemma be_value_snoc (a : list Z) (x : Z) :
  be_value (a ++ [x]) = be_value a * 256 + x.
Proof. unfold be_value. rewrite fold_left_app. reflexivity. Qed.

Lemma be_value_be_bytes (n : nat) : forall v,
  0 <= v < 256 ^ Z.of_nat n -> be_value (be_bytes n v) = v.
Proof.
  induction n as [|n IH]; intros v Hv.
  - simpl in Hv. unfold be_bytes, be_value. simpl. lia.
  - rewrite Nat2Z.inj_succ, Z.pow_succ_r in Hv by lia.
    unfold be_bytes. simpl. rewrite be_value_snoc.
    fold (be_bytes n (v / 256)). rewrite IH.
    + pose proof (Z.div_mod v 256). lia.
    + split; [apply Z.div_pos; lia|apply Z.div_lt_upper_bound; lia].
Qed.

(** ORing a class selector into a byte below 64 adds it. *)
Lemma lor_selector (x c : Z) :
  0 <= x < 64 -> 0 <= c -> Z.lor x (c * 64) = x + c * 64.
Proof.
  intros Hx Hc.
  assert (Hland : Z.land x (c * 64) = 0).
  { apply Z.bits_inj'. intros n Hn. rewrite Z.land_spec, Z.bits_0.
    destruct (Z.lt_ge_cases n 6) as [Hlt|Hge].
    - change 64 with (2 ^ 6). rewrite Z.mul_pow2_bits_low by lia.
      apply andb_false_r.
    - rewrite (Z.bits_above_log2 x n); [reflexivity|lia|].
      destruct (Z.eq_dec x 0) as [->|Hne]; [simpl; lia|].
      apply Z.log2_lt_pow2; [lia|].
      apply Z.lt_le_trans with (2 ^ 6); [simpl; lia|].
      apply Z.pow_le_mono_r; lia. }
  rewrite <- Z.lxor_lor by assumption.
  symmetry. apply Z.add_nocarry_lxor. assumption.
Qed.

Lemma write_at_head (p : nat) (x y : Z) (r d : list Z) :
  (p + S (length r) <= length d)%nat ->
  write_at p [y] (write_at p (x :: r) d) = write_at p (y :: r) d.
Proof.
  intros H.
  pose proof (write_at_patch p [] [x] [y] r d eq_refl) as Hp.
  simpl in Hp. rewrite Nat.add_0_r in Hp. apply Hp. assumption.
Qed.

(* ================================================================= *)
(** ** Variable-length integers *)

(** The body of [push_uint_var] once the format is chosen. *)
Lemma writes_push_selected (w : nat) (i v x : Z) (r : list Z) :
  0 <= v < 256 ^ Z.of_nat w ->
  be_bytes w v = x :: r ->
  writes (start <- get_pos ;;
          push_uint w v ;;;
          x <- data_get start ;;
          data_set start (Z.lor x (i * 64)))
         (Z.lor x (i * 64) :: r).
Proof.
  intros Hv Hbe [d p] Hroom. simpl in Hroom.
  pose proof (be_bytes_length w v) as Hlen. rewrite Hbe in Hlen.
  simpl in Hlen.
  unfold bind at 1. unfold get_pos at 1. simpl.
  unfold bind at 1.
  rewrite (writes_push_uint w v Hv) by (simpl; rewrite Hbe; simpl; lia).
  simpl. rewrite Hbe.
  unfold bind, data_get. simpl.
  rewrite (nth_error_skipn_hd p _ x (r ++ skipn (p + S (length r)) d))
    by (rewrite skipn_write_at by lia; reflexivity).
  unfold data_set. simpl.
  rewrite write_at_length by (simpl; lia).
  destruct (p <? length d)%nat eqn:E; [|apply Nat.ltb_ge in E; lia].
  rewrite write_at_head by lia. rewrite Hlen. reflexivity.
Qed.

(** [pull_uint_var] once the first byte selects a format. *)
Lemma reads_pull_selected (w : nat) (x : Z) (r : list Z) pull push mask :
  nth_error UINT_VAR_FORMATS (Z.to_nat (x / 64)) = Some (pull, push, mask) ->
  pull = pull_uint w -> S (length r) = w ->
  reads pull_uint_var (x :: r) (Z.land (be_value (x :: r)) mask).
Proof.
  intros Hfmt -> Hw [d p] rest Hp Hskip.
  unfold pull_uint_var. unfold bind at 1.
  unfold reraise, bind, get_pos, data_get. simpl in *.
  rewrite (nth_error_skipn_hd p d x (r ++ rest)) by assumption.
  unfold ret at 1. rewrite Hfmt.
  rewrite (reads_pull_uint w (x :: r) Hw _ rest) by assumption.
  reflexivity.
Qed.

Lemma uint_var_class_cases (v : Z) :
  0 <= v <= 2 ^ 62 - 1 ->
  (v <= 0x3F /\ uint_var_class v = 0%nat)
  \/ (0x3F < v <= 0x3FFF /\ uint_var_class v = 1%nat)
  \/ (0x3FFF < v <= 0x3FFFFFFF /\ uint_var_class v = 2%nat)
  \/ (0x3FFFFFFF < v /\ uint_var_class v = 3%nat).
Proof.
  intros Hv. unfold uint_var_class.
  destruct (v <=? 0x3F) eqn:E1; [left; lia|].
  destruct (v <=? 0x3FFF) eqn:E2; [right; left; lia|].
  destruct (v <=? 0x3FFFFFFF) eqn:E3; [right; right; left; lia|].
  right; right; right; lia.
Qed.

Lemma uint_var_bytes_length (v : Z) :
  length (uint_var_bytes v) = uint_var_width v.
Proof.
  unfold uint_var_bytes.
  pose proof (be_bytes_length (uint_var_width v) v) as H.
  destruct (be_bytes (uint_var_width v) v) as [|x r] eqn:E.
  - unfold uint_var_width in *. simpl in H.
    pose proof (Nat.pow_nonzero 2 (uint_var_class v)). lia.
  - simpl in *. assumption.
Qed.

Lemma writes_push_uint_var (v : Z) :
  0 <= v <= 2 ^ 62 - 1 -> writes (push_uint_var v) (uint_var_bytes v).
Proof.
  intros Hv. unfold push_uint_var, uint_var_bytes, uint_var_width.
  destruct (uint_var_class_cases v Hv)
    as [(H & ->)|[(H & ->)|[(H & ->)|(H & ->)]]];
    cbn [push_uint_var_from UINT_VAR_FORMATS Nat.pow Nat.mul Nat.add].
  - destruct (v <=? 63) eqn:E1; [|lia].
    apply (writes_push_selected 1 0 v); [simpl; lia|reflexivity].
  - destruct (v <=? 63) eqn:E1; [lia|].
    destruct (v <=? 16383) eqn:E2; [|lia].
    apply (writes_push_selected 2 (0 + 1) v); [simpl; lia|reflexivity].
  - destruct (v <=? 63) eqn:E1; [lia|].
    destruct (v <=? 16383) eqn:E2; [lia|].
    destruct (v <=? 1073741823) eqn:E3; [|lia].
    apply (writes_push_selected 4 (0 + 1 + 1) v); [simpl; lia|reflexivity].
  - destruct (v <=? 63) eqn:E1; [lia|].
    destruct (v <=? 16383) eqn:E2; [lia|].
    destruct (v <=? 1073741823) eqn:E3; [lia|].
    destruct (v <=? 4611686018427387903) eqn:E4; [|lia].
    apply (writes_push_selected 8 (0 + 1 + 1 + 1) v);
      [simpl; lia|reflexivity].
Qed.

Ltac bytes_arith := Z.div_mod_to_equations; lia.

Lemma reads_value {A} (m : M A) (bs : list Z) (a a' : A) :
  reads m bs a -> a = a' -> reads m bs a'.
Proof. intros H <-. exact H. Qed.

Lemma reads_pull_uint_var (v : Z) :
  0 <= v <= 2 ^ 62 - 1 -> reads pull_uint_var (uint_var_bytes v) v.
Proof.
  intros Hv. unfold uint_var_bytes, uint_var_width.
  destruct (uint_var_class_cases v Hv)
    as [(H & ->)|[(H & ->)|[(H & ->)|(H & ->)]]];
    cbn [be_bytes le_bytes rev app Nat.pow Nat.mul Nat.add Z.of_nat
         Pos.of_succ_nat Pos.succ];
    rewrite lor_selector by bytes_arith.
  - eapply reads_value.
    + eapply (reads_pull_selected 1); [|reflexivity|reflexivity].
      replace ((v mod 256 + 0 * 64) / 64) with 0 by bytes_arith.
      reflexivity.
    + change 0x3F with (Z.ones 6). rewrite Z.land_ones by lia.
      unfold be_value. cbn [fold_left]. change (2 ^ 6) with 64.
      bytes_arith.
  - eapply reads_value.
    + eapply (reads_pull_selected 2); [|reflexivity|reflexivity].
      replace ((v / 256 mod 256 + 1 * 64) / 64) with 1 by bytes_arith.
      reflexivity.
    + change 0x3FFF with (Z.ones 14). rewrite Z.land_ones by lia.
      unfold be_value. cbn [fold_left]. change (2 ^ 14) with 16384.
      bytes_arith.
  - eapply reads_value.
    + eapply (reads_pull_selected 4); [|reflexivity|reflexivity].
      replace ((v / 256 / 256 / 256 mod 256 + 2 * 64) / 64) with 2
        by bytes_arith.
      reflexivity.
    + change 0x3FFFFFFF with (Z.ones 30). rewrite Z.land_ones by lia.
      unfold be_value. cbn [fold_left].
      change (2 ^ 30) with 1073741824.
      bytes_arith.
  - eapply reads_value.
    + eapply (reads_pull_selected 8); [|reflexivity|reflexivity].
      replace ((v / 256 / 256 / 256 / 256 / 256 / 256 / 256 mod 256 + 3 * 64)
               / 64) with 3 by bytes_arith.
      reflexivity.
    + change 0x3FFFFFFFFFFFFFFF with (Z.ones 62).
      rewrite Z.land_ones by lia.
      unfold be_value. cbn [fold_left].
      change (2 ^ 62) with 4611686018427387904.
      bytes_arith.
Qed.

(** The top two bits of the first byte are the class. *)
Lemma uint_var_bytes_head (v : Z) :
  0 <= v <= 2 ^ 62 - 1 ->
  exists x r, uint_var_bytes v = x :: r
              /\ x / 64 = Z.of_nat (uint_var_class v).
Proof.
  intros Hv. unfold uint_var_bytes, uint_var_width.
  destruct (uint_var_class_cases v Hv)
    as [(H & ->)|[(H & ->)|[(H & ->)|(H & ->)]]];
    cbn [be_bytes le_bytes rev app Nat.pow Nat.mul Nat.add Z.of_nat
         Pos.of_succ_nat Pos.succ];
    rewrite lor_selector by bytes_arith;
    eexists; eexists; (split; [reflexivity|bytes_arith]).
Qed.

(** Claim C3.  For every value [v] with [0 <= v <= 2^62 - 1], pushing [v]
    with [push_uint_var] into a buffer that has room and pulling it back from
    the bytes produced returns [v]; the bytes are the big-endian bytes of the
    smallest length class whose mask covers [v] (1 byte up to 0x3F, 2 up to
    0x3FFF, 4 up to 0x3FFFFFFF, else 8), with the class selector ORed into
    the first byte, whose top two bits are then the class. *)
Theorem uint_var_roundtrip (v : Z) (cap : nat) :
  0 <= v <= 2 ^ 62 - 1 -> (uint_var_width v <= cap)%nat ->
  exists buf buf',
    push_uint_var v (Buffer_capacity cap) = Ok (tt, buf)
    /\ pull_uint_var (Buffer_data (data buf)) = Ok (v, buf')
    /\ len (data buf) = (if v <=? 0x3F then 1
                         else if v <=? 0x3FFF then 2
                         else if v <=? 0x3FFFFFFF then 4
                         else 8)
    /\ data buf = uint_var_bytes v
    /\ exists x r, data buf = x :: r
                   /\ x / 64 = Z.of_nat (uint_var_class v).
Proof.
  intros Hv Hcap.
  destruct (writes_fresh _ _ cap (writes_push_uint_var v Hv))
    as (buf & Hpush & Hdata).
  { rewrite uint_var_bytes_length. assumption. }
  exists buf. eexists. split; [exact Hpush|]. rewrite Hdata.
  split; [apply reads_data, reads_pull_uint_var; assumption|].
  split; [|split; [reflexivity|apply uint_var_bytes_head; assumption]].
  unfold len. rewrite uint_var_bytes_length.
  unfold uint_var_width, uint_var_class.
  destruct (v <=? 0x3F); [reflexivity|].
  destruct (v <=? 0x3FFF); [reflexivity|].
  destruct (v <=? 0x3FFFFFFF); reflexivity.
Qed.

Lemma uint_var_roundtrip_witness :
  exists buf buf',
    push_uint_var 16384 (Buffer_capacity 8) = Ok (tt, buf)
    /\ pull_uint_var (Buffer_data (data buf)) = Ok (16384, buf')
    /\ len (data buf) = 4
    /\ data buf = uint_var_bytes 16384
    /\ exists x r, data buf = x :: r /\ x / 64 = 2.
Proof.
  apply (uint_var_roundtrip 16384 8).
  - lia.
  - vm_compute. lia.
Defined.

(* ================================================================= *)
(** ** ACK frames *)

Lemma writes_lift {A} (a : A) (k : A -> M unit) (bs : list Z) :
  writes (k a) bs -> writes (x <- lift (Ok a) ;; k x) bs.
Proof. intros H buf Hroom. exact (H buf Hroom). Qed.

Lemma writes_bytes (m : M unit) (bs bs' : list Z) :
  writes m bs -> bs = bs' -> writes m bs'.
Proof. intros H <-. exact H. Qed.

Lemma getitem_nth (rs : RangeSet.t) (i : nat) (r : range) :
  nth_error rs i = Some r -> RangeSet.getitem rs (Z.of_nat i) = Ok r.
Proof.
  intros H. unfold RangeSet.getitem.
  assert (E : (Z.of_nat i <? 0) = false) by (apply Z.ltb_ge; lia).
  rewrite E, E, Nat2Z.id, H. reflexivity.
Qed.

Lemma skipn_nth (rs : list range) : forall (i : nat) (r : range),
  nth_error rs i = Some r -> skipn i rs = r :: skipn (S i) rs.
Proof.
  induction rs as [|a rs IH]; intros [|i] r H; try discriminate.
  - injection H as ->. reflexivity.
  - simpl in H. apply IH in H. exact H.
Qed.

Lemma nth_error_pred (rs : list range) (i : nat) (s : range) :
  nth_error rs (S i) = Some s -> exists r, nth_error rs i = Some r.
Proof.
  intros H. destruct (nth_error rs i) as [r|] eqn:E; [eauto|].
  apply nth_error_None in E.
  assert (nth_error rs (S i) <> None) by congruence.
  apply nth_error_Some in H0. lia.
Qed.

(** Adding a range that lies strictly below the whole set puts it first. *)
Lemma add_front (acc : RangeSet.t) (r : range) :
  range_ok r ->
  match acc with [] => True | s :: _ => range_stop r < range_start s end ->
  RangeSet.add acc (range_start r) (Some (range_stop r)) = Ok (r :: acc).
Proof.
  intros Hok Hacc. unfold RangeSet.add, range_ok in *.
  destruct (range_stop r >? range_start r) eqn:E; [|lia].
  destruct r as [a b]. simpl in *.
  destruct acc as [|s acc]; simpl; [reflexivity|].
  destruct (b <? range_start s) eqn:E2; [reflexivity|lia].
Qed.

Section AckFrame.

Variable rs : RangeSet.t.

(** Every range is non-empty and lies in [[0, 2^62]]. *)
Hypothesis H_range : forall i r, nth_error rs i = Some r ->
  0 <= range_start r < range_stop r /\ range_stop r <= 2 ^ 62.

(** Consecutive ranges are separated by a gap. *)
Hypothesis H_gap : forall i r s,
  nth_error rs i = Some r -> nth_error rs (S i) = Some s ->
  range_stop r < range_start s.

Lemma writes_push_ack_ranges : forall (index : nat) (s : range),
  nth_error rs index = Some s ->
  writes (push_ack_ranges index rs (range_start s))
         (ack_ranges_bytes index rs (range_start s)).
Proof.
  induction index as [|i IH]; intros s Hs; simpl.
  - apply writes_ret.
  - destruct (nth_error_pred rs i s Hs) as (r & Hr).
    rewrite (getitem_nth rs i r Hr), Hr.
    pose proof (H_range i r Hr). pose proof (H_range (S i) s Hs).
    pose proof (H_gap i r s Hr Hs).
    apply writes_lift.
    apply writes_bind; [apply writes_push_uint_var; lia|].
    apply writes_bind; [apply writes_push_uint_var; lia|].
    apply IH. exact Hr.
Qed.

Lemma reads_pull_ack_ranges : forall (index : nat) (s : range),
  nth_error rs index = Some s ->
  reads (pull_ack_ranges index (skipn index rs) (range_start s))
        (ack_ranges_bytes index rs (range_start s)) rs.
Proof.
  induction index as [|i IH]; intros s Hs;
    cbn [pull_ack_ranges ack_ranges_bytes].
  - apply reads_ret.
  - destruct (nth_error_pred rs i s Hs) as (r & Hr). rewrite Hr.
    pose proof (H_range i r Hr). pose proof (H_range (S i) s Hs).
    pose proof (H_gap i r s Hr Hs).
    eapply reads_bind; [apply reads_pull_uint_var; lia|].
    eapply reads_bind; [apply reads_pull_uint_var; lia|].
    replace (range_start s - (range_start s - range_stop r - 1 + 2)
             - (range_stop r - range_start r - 1))
      with (range_start r) by lia.
    replace (range_start s - (range_start s - range_stop r - 1 + 2) + 1)
      with (range_stop r) by lia.
    rewrite add_front.
    + apply (reads_bind _ _ [] _ _ _ (reads_lift _)).
      rewrite <- (skipn_nth rs i r Hr). apply IH. exact Hr.
    + unfold range_ok. lia.
    + rewrite (skipn_nth rs (S i) s Hs). lia.
Qed.

End AckFrame.

Lemma RangeSet_inv_gap (rs : RangeSet.t) :
  RangeSet_inv rs ->
  forall i r s, nth_error rs i = Some r -> nth_error rs (S i) = Some s ->
    range_stop r < range_start s.
Proof.
  intros Hinv i r s Hr Hs. apply RangeSet_inv_chain in Hinv.
  destruct (chain_chain_from rs Hinv 0) as (lo & _ & Hf).
  apply (chain_from_nth lo rs i (S i) r s Hf); [lia|assumption|assumption].
Qed.

Lemma RangeSet_inv_range (rs : RangeSet.t) :
  RangeSet_inv rs ->
  Forall (fun r => 0 <= range_start r) rs ->
  Forall (fun r => range_stop r <= 2 ^ 62) rs ->
  forall i r, nth_error rs i = Some r ->
    0 <= range_start r < range_stop r /\ range_stop r <= 2 ^ 62.
Proof.
  intros (Hok & _) Hlo Hhi i r Hr. apply nth_error_In in Hr.
  rewrite Forall_forall in Hok, Hlo, Hhi.
  pose proof (Hok r Hr) as H1. pose proof (Hlo r Hr). pose proof (Hhi r Hr).
  unfold range_ok in H1. lia.
Qed.

(** The [i]-th range of a set of non-negative ranges stops above [2 i]. *)
Lemma range_stop_lower (rs : RangeSet.t) :
  (forall i r, nth_error rs i = Some r ->
     0 <= range_start r < range_stop r /\ range_stop r <= 2 ^ 62) ->
  (forall i r s, nth_error rs i = Some r -> nth_error rs (S i) = Some s ->
     range_stop r < range_start s) ->
  forall i r, nth_error rs i = Some r -> 2 * Z.of_nat i + 1 <= range_stop r.
Proof.
  intros H_range H_gap. induction i as [|i IH]; intros r Hr.
  - pose proof (H_range _ _ Hr). lia.
  - destruct (nth_error_pred rs i r Hr) as (q & Hq).
    pose proof (IH q Hq). pose proof (H_gap i q r Hq Hr).
    pose proof (H_range _ _ Hr). lia.
Qed.

Lemma nth_error_last (rs : RangeSet.t) :
  rs <> [] -> exists r, nth_error rs (length rs - 1) = Some r.
Proof.
  intros Hne. destruct (nth_error rs (length rs - 1)) as [r|] eqn:E;
    [eauto|].
  apply nth_error_None in E. destruct rs; [congruence|simpl in E; lia].
Qed.

Section AckFrameWhole.

Variable rs : RangeSet.t.
Variable delay : Z.

Hypothesis H_nonempty : rs <> [].
Hypothesis H_range : forall i r, nth_error rs i = Some r ->
  0 <= range_start r < range_stop r /\ range_stop r <= 2 ^ 62.
Hypothesis H_gap : forall i r s,
  nth_error rs i = Some r -> nth_error rs (S i) = Some s ->
  range_stop r < range_start s.
Hypothesis H_delay : 0 <= delay <= 2 ^ 62 - 1.

Lemma ack_index : RangeSet.len rs - 1 = Z.of_nat (length rs - 1).
Proof.
  unfold RangeSet.len. destruct rs; [congruence|]. simpl length. lia.
Qed.

Lemma writes_push_ack_frame :
  writes (push_ack_frame rs delay) (ack_frame_bytes rs delay).
Proof.
  unfold push_ack_frame, ack_frame_bytes.
  destruct (nth_error_last rs H_nonempty) as (r & Hr).
  rewrite ack_index, Nat2Z.id, Hr, (getitem_nth rs _ r Hr).
  pose proof (H_range _ _ Hr).
  pose proof (range_stop_lower rs H_range H_gap _ _ Hr).
  apply writes_lift.
  repeat (apply writes_bind; [apply writes_push_uint_var; lia|]).
  apply (writes_push_ack_ranges rs H_range H_gap). exact Hr.
Qed.

Lemma reads_pull_ack_frame :
  reads pull_ack_frame (ack_frame_bytes rs delay) (rs, delay).
Proof.
  unfold pull_ack_frame, ack_frame_bytes.
  destruct (nth_error_last rs H_nonempty) as (r & Hr).
  rewrite ack_index, Hr.
  pose proof (H_range _ _ Hr).
  pose proof (range_stop_lower rs H_range H_gap _ _ Hr).
  repeat (eapply reads_bind; [apply reads_pull_uint_var; lia|]).
  rewrite Nat2Z.id.
  replace (range_stop r - 1 - (range_stop r - 1 - range_start r))
    with (range_start r) by lia.
  replace (range_stop r - 1 + 1) with (range_stop r) by lia.
  rewrite add_front; [|unfold range_ok; lia|exact I].
  apply (reads_bind _ _ [] _ _ _ (reads_lift _)).
  assert (Hskip : skipn (length rs - 1) rs = [r]).
  { rewrite (skipn_nth rs _ r Hr).
    replace (S (length rs - 1)) with (length rs)
      by (destruct rs; [congruence|simpl; lia]).
    rewrite skipn_all. reflexivity. }
  unfold RangeSet.empty. rewrite <- Hskip.
  rewrite <- (app_nil_r (ack_ranges_bytes _ _ _)).
  eapply reads_bind;
    [apply (reads_pull_ack_ranges rs H_range H_gap); exact Hr|].
  apply reads_ret.
Qed.

End AckFrameWhole.

Lemma push_uint_var_too_big (v : Z) (buf : Buffer) :
  2 ^ 62 - 1 < v -> push_uint_var v buf = Raise ValueError.
Proof.
  intros Hv. unfold push_uint_var.
  cbn [push_uint_var_from UINT_VAR_FORMATS].
  destruct (v <=? 63) eqn:E1; [lia|].
  destruct (v <=? 16383) eqn:E2; [lia|].
  destruct (v <=? 1073741823) eqn:E3; [lia|].
  destruct (v <=? 4611686018427387903) eqn:E4; [lia|]. reflexivity.
Qed.

(** Claim C1, as amended.  For every non-empty [RangeSet] whose ranges are
    sorted ascending, pairwise disjoint and non-adjacent, with starts at
    least 0 and stops at most [2^62], and for every delay in
    [[0, 2^62 - 1]], [push_ack_frame] into a buffer with room for the frame
    succeeds, and [pull_ack_frame] on the bytes produced returns the same
    [RangeSet] and the same delay. *)
Theorem ack_frame_roundtrip (rangeset : RangeSet.t) (delay : Z) (cap : nat) :
  rangeset <> [] ->
  RangeSet_inv rangeset ->
  Forall (fun r => 0 <= range_start r) rangeset ->
  Forall (fun r => range_stop r <= 2 ^ 62) rangeset ->
  0 <= delay <= 2 ^ 62 - 1 ->
  (length (ack_frame_bytes rangeset delay) <= cap)%nat ->
  exists buf buf',
    push_ack_frame rangeset delay (Buffer_capacity cap) = Ok (tt, buf)
    /\ pull_ack_frame (Buffer_data (data buf)) = Ok ((rangeset, delay), buf').
Proof.
  intros Hne Hinv Hlo Hhi Hdelay Hcap.
  pose proof (RangeSet_inv_range rangeset Hinv Hlo Hhi) as H_range.
  pose proof (RangeSet_inv_gap rangeset Hinv) as H_gap.
  destruct (writes_fresh _ _ cap
              (writes_push_ack_frame rangeset delay Hne H_range H_gap Hdelay)
              Hcap) as (buf & Hpush & Hdata).
  exists buf. eexists. split; [exact Hpush|]. rewrite Hdata.
  apply reads_data.
  apply reads_pull_ack_frame; assumption.
Qed.

Lemma ack_frame_roundtrip_witness :
  exists buf buf',
    push_ack_frame [Range 5 8; Range 10 11; Range 20 25] 42
      (Buffer_capacity 20) = Ok (tt, buf)
    /\ pull_ack_frame (Buffer_data (data buf))
       = Ok (([Range 5 8; Range 10 11; Range 20 25], 42), buf').
Proof.
  apply (ack_frame_roundtrip [Range 5 8; Range 10 11; Range 20 25] 42 20).
  - discriminate.
  - apply chain_RangeSet_inv. unfold chain, chain_from, range_ok. simpl. lia.
  - repeat constructor; simpl; lia.
  - repeat constructor; simpl; lia.
  - lia.
  - vm_compute. lia.
Defined.

(** Claim C1 as stated fails: a delay (or a largest acknowledged packet
    number) above [2^62 - 1] has no variable-length encoding, and
    [push_ack_frame] raises [ValueError] on an invariant-satisfying,
    non-negative [RangeSet], whatever the buffer. *)
Lemma ack_frame_roundtrip_counterexample :
  [Range 0 1] <> []
  /\ RangeSet_inv [Range 0 1]
  /\ Forall (fun r => 0 <= range_start r) [Range 0 1]
  /\ push_ack_frame [Range 0 1] (2 ^ 62) (Buffer_capacity 64)
     = Raise ValueError
  /\ forall buf, ~ exists buf',
       push_ack_frame [Range 0 1] (2 ^ 62) buf = Ok (tt, buf').
Proof.
  split; [discriminate|]. split.
  { apply chain_RangeSet_inv. unfold chain, chain_from, range_ok. simpl. lia. }
  split; [repeat constructor; simpl; lia|]. split; [reflexivity|].
  intros buf (buf' & H).
  change (push_ack_frame [Range 0 1] (2 ^ 62) buf)
    with ((push_uint_var 0 ;;;
           push_uint_var (2 ^ 62) ;;;
           push_uint_var 0 ;;;
           push_uint_var 0 ;;;
           ret tt) buf) in H.
  unfold bind at 1 in H.
  destruct (push_uint_var 0 buf) as [[[] b1]|e]; [|discriminate].
  unfold bind at 1 in H.
  rewrite push_uint_var_too_big in H by lia. discriminate.
Qed.

(* ================================================================= *)
(** ** Packet headers *)

(** Reading a buffer that starts with the bytes. *)
Lemma reads_data_prefix {A} (m : M A) (bs rest : list Z) (a : A) :
  reads m bs a ->
  m (Buffer_data (bs ++ rest)) = Ok (a, mkBuffer (bs ++ rest) (length bs)).
Proof.
  intros Hr. rewrite (Hr (Buffer_data (bs ++ rest)) rest); simpl.
  - reflexivity.
  - lia.
  - reflexivity.
Qed.

Section InitialHeader.

Variable h : QuicHeader.
Variable v : Z.

Hypothesis H_type : packet_type h = Some PACKET_TYPE_INITIAL.
Hypothesis H_version : version h = Some v.
Hypothesis H_v : 0 < v < 2 ^ 32.
Hypothesis H_dcid : length (destination_cid h) = 8%nat.
Hypothesis H_scid : source_cid h = [].
Hypothesis H_token : length (token h) = 4%nat.

Lemma writes_push_initial_header :
  writes (push_quic_header h)
         (initial_header_bytes v (destination_cid h) (token h)).
Proof.
  unfold push_quic_header, initial_header_bytes.
  rewrite H_type, H_version, H_scid. unfold len.
  rewrite H_dcid, H_token.
  apply writes_bind; [apply (writes_push_uint 1 0xC0); simpl; lia|].
  apply writes_bind; [apply (writes_push_uint 4 v); simpl; lia|].
  apply writes_bind; [apply (writes_push_uint 1 0x50); simpl; lia|].
  apply writes_bind; [apply writes_push_bytes|].
  apply (writes_bind _ _ []
           ((uint_var_bytes 4 ++ token h) ++ [0; 0] ++ [0; 0]));
    [apply writes_push_bytes|].
  change (Z.land PACKET_TYPE_INITIAL PACKET_TYPE_MASK =? PACKET_TYPE_INITIAL)
    with true. cbv iota.
  apply writes_bind.
  - apply writes_bind; [apply writes_push_uint_var; lia|].
    apply writes_push_bytes.
  - apply writes_bind; apply (writes_push_uint 2 0); simpl; lia.
Qed.

Lemma reads_pull_initial_header (host_cid_length : option Z) :
  reads (pull_quic_header host_cid_length)
        ([0xC0] ++ be_bytes 4 v ++ [0x50] ++ destination_cid h
         ++ [] ++ uint_var_bytes 4 ++ token h ++ uint_var_bytes 0 ++ [])
        (mkQuicHeader (Some v) (Some PACKET_TYPE_INITIAL)
           (destination_cid h) [] [] (token h) 0).
Proof.
  unfold pull_quic_header.
  eapply reads_bind; [apply (reads_pull_uint 1 [0xC0]); reflexivity|].
  change (is_long_header (be_value [0xC0])) with true. cbv iota.
  eapply reads_bind;
    [apply (reads_pull_uint 4); apply be_bytes_length|].
  rewrite be_value_be_bytes by (simpl; lia).
  eapply reads_bind; [apply (reads_pull_uint 1 [0x50]); reflexivity|].
  change (decode_cid_length (be_value [0x50] / 16)) with 8.
  change (decode_cid_length (be_value [0x50] mod 16)) with 0.
  replace 8 with (len (destination_cid h)) by (unfold len; lia).
  eapply reads_bind; [apply reads_pull_bytes|].
  eapply reads_bind; [apply (reads_pull_bytes [])|].
  unfold NEGOTIATION. destruct (v =? 0) eqn:E; [lia|].
  change (truthy (Z.land (be_value [0xC0]) PACKET_FIXED_BIT)) with true.
  cbv iota. unfold negb.
  change (Z.land (be_value [0xC0]) PACKET_TYPE_MASK =? PACKET_TYPE_INITIAL)
    with true. cbv iota.
  eapply reads_bind; [apply reads_pull_uint_var; lia|].
  replace 4 with (len (token h)) at 1 by (unfold len; lia).
  eapply reads_bind; [apply reads_pull_bytes|].
  eapply reads_bind; [apply reads_pull_uint_var; lia|].
  change (Z.land (be_value [0xC0]) PACKET_TYPE_MASK)
    with PACKET_TYPE_INITIAL.
  apply reads_ret.
Qed.

End InitialHeader.

(** Claim C4, as amended.  For every [QuicHeader] [h] of a long-header
    Initial packet whose packet type is exactly [PACKET_TYPE_INITIAL] (0xC0,
    no bit of the low nibble set), whose version is a non-zero 32-bit number
    and whose original destination CID is empty, with an 8-byte destination
    CID, a 0-byte source CID and a 4-byte token, [push_quic_header] into a
    buffer with room for the 23 bytes succeeds, and [pull_quic_header] on
    the bytes produced returns [h] in every field except [rest_length],
    which is read from the zero placeholders and is 0. *)
Theorem quic_header_roundtrip (h : QuicHeader) (v : Z) (cap : nat)
        (host_cid_length : option Z) :
  packet_type h = Some PACKET_TYPE_INITIAL ->
  version h = Some v -> 0 < v < 2 ^ 32 ->
  length (destination_cid h) = 8%nat ->
  source_cid h = [] ->
  length (token h) = 4%nat ->
  original_destination_cid h = [] ->
  (23 <= cap)%nat ->
  exists buf buf',
    push_quic_header h (Buffer_capacity cap) = Ok (tt, buf)
    /\ pull_quic_header host_cid_length (Buffer_data (data buf))
       = Ok (mkQuicHeader (version h) (packet_type h) (destination_cid h)
               (source_cid h) (original_destination_cid h) (token h) 0,
             buf').
Proof.
  intros H_type H_version H_v H_dcid H_scid H_token H_odcid Hcap.
  destruct (writes_fresh _ _ cap
              (writes_push_initial_header h v H_type H_version H_v H_dcid
                 H_scid H_token)) as (buf & Hpush & Hdata).
  { unfold initial_header_bytes.
    rewrite !length_app, be_bytes_length, uint_var_bytes_length, H_dcid,
      H_token. simpl. lia. }
  exists buf. eexists. split; [exact Hpush|]. rewrite Hdata.
  rewrite H_type, H_version, H_scid, H_odcid.
  replace (initial_header_bytes v (destination_cid h) (token h))
    with (([0xC0] ++ be_bytes 4 v ++ [0x50] ++ destination_cid h
           ++ [] ++ uint_var_bytes 4 ++ token h ++ uint_var_bytes 0 ++ [])
          ++ [0; 0; 0]).
  - apply reads_data_prefix.
    apply (reads_pull_initial_header h v); assumption.
  - unfold initial_header_bytes. rewrite <- !app_assoc. reflexivity.
Qed.

Lemma quic_header_roundtrip_witness :
  exists buf buf',
    push_quic_header
      (mkQuicHeader (Some 0xFF000011) (Some PACKET_TYPE_INITIAL)
         [1; 2; 3; 4; 5; 6; 7; 8] [] [] [9; 10; 11; 12] 1200)
      (Buffer_capacity 32) = Ok (tt, buf)
    /\ pull_quic_header None (Buffer_data (data buf))
       = Ok (mkQuicHeader (Some 0xFF000011) (Some PACKET_TYPE_INITIAL)
               [1; 2; 3; 4; 5; 6; 7; 8] [] [] [9; 10; 11; 12] 0,
             buf').
Proof.
  apply (quic_header_roundtrip
           (mkQuicHeader (Some 0xFF000011) (Some PACKET_TYPE_INITIAL)
              [1; 2; 3; 4; 5; 6; 7; 8] [] [] [9; 10; 11; 12] 1200)
           0xFF000011 32 None);
    try reflexivity; simpl; lia.
Defined.

(** Claim C4 as stated fails for headers of Initial packets that the code
    accepts.  With the packet type 0xC1, which [push_quic_header] treats as
    Initial (it masks the type before comparing), the parsed packet type is
    0xC0; an original destination CID is not written and comes back empty;
    and with version 0 the bytes parse as a version negotiation packet, with
    no packet type, no token and the token bytes counted in
    [rest_length]. *)
Lemma quic_header_roundtrip_counterexample :
  (exists buf buf',
     push_quic_header
       (mkQuicHeader (Some 0xFF000011) (Some 0xC1)
          [1; 2; 3; 4; 5; 6; 7; 8] [] [] [9; 10; 11; 12] 0)
       (Buffer_capacity 23) = Ok (tt, buf)
     /\ pull_quic_header None (Buffer_data (data buf))
        = Ok (mkQuicHeader (Some 0xFF000011) (Some 0xC0)
                [1; 2; 3; 4; 5; 6; 7; 8] [] [] [9; 10; 11; 12] 0, buf'))
  /\ (exists buf buf',
        push_quic_header
          (mkQuicHeader (Some 0xFF000011) (Some PACKET_TYPE_INITIAL)
             [1; 2; 3; 4; 5; 6; 7; 8] [] [7; 7; 7; 7] [9; 10; 11; 12] 0)
          (Buffer_capacity 23) = Ok (tt, buf)
        /\ pull_quic_header None (Buffer_data (data buf))
           = Ok (mkQuicHeader (Some 0xFF000011) (Some PACKET_TYPE_INITIAL)
                   [1; 2; 3; 4; 5; 6; 7; 8] [] [] [9; 10; 11; 12] 0, buf'))
  /\ (exists buf buf',
        push_quic_header
          (mkQuicHeader (Some 0) (Some PACKET_TYPE_INITIAL)
             [1; 2; 3; 4; 5; 6; 7; 8] [] [] [9; 10; 11; 12] 0)
          (Buffer_capacity 23) = Ok (tt, buf)
        /\ pull_quic_header None (Buffer_data (data buf))
           = Ok (mkQuicHeader (Some 0) None
                   [1; 2; 3; 4; 5; 6; 7; 8] [] [] [] 9, buf')).
Proof.
  split; [|split].
  - exists (mkBuffer [0xC1; 0xFF; 0; 0; 0x11; 0x50; 1; 2; 3; 4; 5; 6; 7; 8;
                      4; 9; 10; 11; 12; 0; 0; 0; 0] 23).
    eexists. split; [reflexivity|vm_compute; reflexivity].
  - exists (mkBuffer [0xC0; 0xFF; 0; 0; 0x11; 0x50; 1; 2; 3; 4; 5; 6; 7; 8;
                      4; 9; 10; 11; 12; 0; 0; 0; 0] 23).
    eexists. split; [reflexivity|vm_compute; reflexivity].
  - exists (mkBuffer [0xC0; 0; 0; 0; 0; 0x50; 1; 2; 3; 4; 5; 6; 7; 8;
                      4; 9; 10; 11; 12; 0; 0; 0; 0] 23).
    eexists. split; [reflexivity|vm_compute; reflexivity].
Qed.

(** Claim C7, as amended.  Once the first byte is read:
    - a short-header packet whose fixed bit 0x40 is unset makes
      [pull_quic_header] raise [ValueError] (before the destination CID is
      read);
    - a long-header packet whose version, CID-length byte and two CIDs can
      be read and whose version is non-zero raises [ValueError] when the
      fixed bit is unset;
    - a long-header packet with version 0 (version negotiation) is exempt
      from the check: it parses, whatever the fixed bit, with [packet_type]
      absent and the rest of the buffer as [rest_length]. *)
Theorem pull_quic_header_fixed_bit (host_cid_length : option Z)
        (buf buf1 : Buffer) (first_byte : Z) :
  pull_uint8 buf = Ok (first_byte, buf1) ->
  (is_long_header first_byte = false ->
   Z.land first_byte PACKET_FIXED_BIT = 0 ->
   pull_quic_header host_cid_length buf = Raise ValueError)
  /\ (is_long_header first_byte = true ->
      forall version cid_lengths dcid scid buf2 buf3 buf4 buf5,
        pull_uint32 buf1 = Ok (version, buf2) ->
        pull_uint8 buf2 = Ok (cid_lengths, buf3) ->
        pull_bytes (decode_cid_length (cid_lengths / 16)) buf3
        = Ok (dcid, buf4) ->
        pull_bytes (decode_cid_length (cid_lengths mod 16)) buf4
        = Ok (scid, buf5) ->
        (version <> 0 ->
         Z.land first_byte PACKET_FIXED_BIT = 0 ->
         pull_quic_header host_cid_length buf = Raise ValueError)
        /\ (version = 0 ->
            pull_quic_header host_cid_length buf
            = Ok (mkQuicHeader (Some 0) None dcid scid [] []
                    (capacity buf5 - tell buf5), buf5))).
Proof.
  intros H1. split.
  - intros Hshort Hbit. unfold pull_quic_header. unfold bind at 1.
    rewrite H1, Hshort, Hbit. reflexivity.
  - intros Hlong version cid_lengths dcid scid buf2 buf3 buf4 buf5
           H2 H3 H4 H5.
    assert (Hpre : forall k : Z -> Z -> list Z -> list Z -> M QuicHeader,
      (version <- pull_uint32 ;;
       cid_lengths <- pull_uint8 ;;
       destination_cid <- pull_bytes (decode_cid_length (cid_lengths / 16)) ;;
       source_cid <- pull_bytes (decode_cid_length (cid_lengths mod 16)) ;;
       k version cid_lengths destination_cid source_cid) buf1
      = k version cid_lengths dcid scid buf5).
    { intros k. unfold bind. rewrite H2, H3, H4, H5. reflexivity. }
    split.
    + intros Hv Hbit. unfold pull_quic_header. unfold bind at 1.
      rewrite H1, Hlong.
      rewrite (Hpre (fun version cid_lengths destination_cid source_cid => _)).
      unfold NEGOTIATION. destruct (version =? 0) eqn:E; [lia|].
      rewrite Hbit. reflexivity.
    + intros ->. unfold pull_quic_header. unfold bind at 1.
      rewrite H1, Hlong.
      rewrite (Hpre (fun version cid_lengths destination_cid source_cid => _)).
      reflexivity.
Qed.

Lemma pull_quic_header_fixed_bit_witness :
  pull_quic_header (Some 8) (Buffer_data [0x00; 1; 2; 3; 4; 5; 6; 7; 8])
  = Raise ValueError
  /\ pull_quic_header None (Buffer_data [0x80; 0; 0; 0; 1; 0; 0; 0])
     = Raise ValueError
  /\ pull_quic_header None
       (Buffer_data [0x80; 0; 0; 0; 0; 0; 0xFF; 0; 0; 0x11])
     = Ok (mkQuicHeader (Some 0) None [] [] [] [] 4,
           mkBuffer [0x80; 0; 0; 0; 0; 0; 0xFF; 0; 0; 0x11] 6).
Proof.
  split; [|split].
  - apply (proj1 (pull_quic_header_fixed_bit (Some 8)
                    (Buffer_data [0x00; 1; 2; 3; 4; 5; 6; 7; 8])
                    (mkBuffer [0x00; 1; 2; 3; 4; 5; 6; 7; 8] 1) 0x00
                    eq_refl)); reflexivity.
  - refine (proj1 (proj2 (pull_quic_header_fixed_bit None
                    (Buffer_data [0x80; 0; 0; 0; 1; 0; 0; 0])
                    (mkBuffer [0x80; 0; 0; 0; 1; 0; 0; 0] 1) 0x80 eq_refl)
                    eq_refl 1 0 [] []
                    (mkBuffer [0x80; 0; 0; 0; 1; 0; 0; 0] 5)
                    (mkBuffer [0x80; 0; 0; 0; 1; 0; 0; 0] 6)
                    (mkBuffer [0x80; 0; 0; 0; 1; 0; 0; 0] 6)
                    (mkBuffer [0x80; 0; 0; 0; 1; 0; 0; 0] 6)
                    eq_refl eq_refl eq_refl eq_refl) _ eq_refl).
    lia.
  - exact (proj2 (proj2 (pull_quic_header_fixed_bit None
                    (Buffer_data [0x80; 0; 0; 0; 0; 0; 0xFF; 0; 0; 0x11])
                    (mkBuffer [0x80; 0; 0; 0; 0; 0; 0xFF; 0; 0; 0x11] 1)
                    0x80 eq_refl)
                    eq_refl 0 0 [] []
                    (mkBuffer [0x80; 0; 0; 0; 0; 0; 0xFF; 0; 0; 0x11] 5)
                    (mkBuffer [0x80; 0; 0; 0; 0; 0; 0xFF; 0; 0; 0x11] 6)
                    (mkBuffer [0x80; 0; 0; 0; 0; 0; 0xFF; 0; 0; 0x11] 6)
                    (mkBuffer [0x80; 0; 0; 0; 0; 0; 0xFF; 0; 0; 0x11] 6)
                    eq_refl eq_refl eq_refl eq_refl) eq_refl).
Defined.

(** Claim C7 as stated fails on the error raised: [pull_quic_header] raises
    [ValueError] for an unset fixed bit, and no [ProtocolViolation]; and a
    long-header packet with a non-zero version that is cut short before its
    CIDs raises [BufferReadError] before the fixed bit is looked at. *)
Lemma pull_quic_header_fixed_bit_counterexample :
  is_long_header 0x00 = false
  /\ Z.land 0x00 PACKET_FIXED_BIT = 0
  /\ pull_quic_header (Some 8) (Buffer_data [0x00; 1; 2; 3; 4; 5; 6; 7; 8])
     = Raise ValueError
  /\ pull_quic_header (Some 8) (Buffer_data [0x00; 1; 2; 3; 4; 5; 6; 7; 8])
     <> Raise ProtocolViolation
  /\ pull_quic_header None (Buffer_data [0x80; 0; 0; 0; 1])
     = Raise BufferReadError.
Proof.
  split; [reflexivity|]. split; [reflexivity|]. split; [reflexivity|].
  split; [discriminate|reflexivity].
Qed.

(* ================================================================= *)
(** ** NEW_CONNECTION_ID frames *)

(** Claim C6, as amended.  [push_new_connection_id_frame] with a
    [stateless_reset_token] whose length is not 16 raises [AssertionError],
    whatever the buffer; with a 16-byte token, a sequence number in
    [[0, 2^62 - 1]] and a connection ID of at most 255 bytes it writes, into
    a buffer with room, the sequence number as a variable-length integer, the
    1-byte connection ID length, the connection ID and the 16 token bytes. *)
Theorem push_new_connection_id_frame_token (sequence_number : Z)
        (connection_id stateless_reset_token : list Z) :
  (len stateless_reset_token <> 16 ->
   forall buf,
     push_new_connection_id_frame sequence_number connection_id
       stateless_reset_token buf = Raise AssertionError)
  /\ (len stateless_reset_token = 16 ->
      0 <= sequence_number <= 2 ^ 62 - 1 ->
      len connection_id <= 255 ->
      writes (push_new_connection_id_frame sequence_number connection_id
                stateless_reset_token)
             (uint_var_bytes sequence_number ++ [len connection_id]
              ++ connection_id ++ stateless_reset_token)).
Proof.
  split.
  - intros Hlen buf. unfold push_new_connection_id_frame, bind, assert.
    destruct (len stateless_reset_token =? 16) eqn:E; [lia|reflexivity].
  - intros Hlen Hseq Hcid. unfold push_new_connection_id_frame.
    rewrite Hlen. change (assert (16 =? 16)) with (ret tt).
    apply (writes_bind _ _ []); [apply writes_ret|].
    apply writes_bind; [apply writes_push_uint_var; assumption|].
    apply writes_bind.
    + eapply writes_bytes.
      * apply (writes_push_uint 1 (len connection_id)).
        unfold len in *. simpl. lia.
      * unfold be_bytes. simpl. rewrite Z.mod_small; [reflexivity|].
        unfold len in *. lia.
    + apply writes_bind; apply writes_push_bytes.
Qed.

Lemma push_new_connection_id_frame_token_witness :
  push_new_connection_id_frame 1 [1; 2; 3; 4] [0; 1; 2]
    (Buffer_capacity 64) = Raise AssertionError
  /\ push_new_connection_id_frame 1 [1; 2; 3; 4]
       [0; 1; 2; 3; 4; 5; 6; 7; 8; 9; 10; 11; 12; 13; 14; 15]
       (Buffer_capacity 22)
     = Ok (tt, mkBuffer [1; 4; 1; 2; 3; 4;
                         0; 1; 2; 3; 4; 5; 6; 7; 8; 9; 10; 11; 12; 13; 14; 15]
                        22).
Proof.
  split.
  - apply (proj1 (push_new_connection_id_frame_token 1 [1; 2; 3; 4]
                    [0; 1; 2])).
    vm_compute. discriminate.
  - apply (proj2 (push_new_connection_id_frame_token 1 [1; 2; 3; 4]
                    [0; 1; 2; 3; 4; 5; 6; 7; 8; 9; 10; 11; 12; 13; 14; 15])
             eq_refl).
    + lia.
    + vm_compute. discriminate.
    + vm_compute. lia.
Defined.

(** Claim C6 as stated fails on the error raised: the length check is an
    [assert], which raises [AssertionError], and no [FrameEncodingError]. *)
Lemma push_new_connection_id_frame_token_counterexample :
  len [0; 1; 2] <> 16
  /\ push_new_connection_id_frame 1 [1; 2; 3; 4] [0; 1; 2]
       (Buffer_capacity 64) = Raise AssertionError
  /\ push_new_connection_id_frame 1 [1; 2; 3; 4] [0; 1; 2]
       (Buffer_capacity 64) <> Raise FrameEncodingError.
Proof.
  split; [vm_compute; discriminate|]. split; [reflexivity|discriminate].
Qed.

(* ================================================================= *)
(** ** CRYPTO frames *)

(** ORing the tag 0x4000 into a length below [2^14] adds it. *)
Lemma lor_length_tag (x : Z) : 0 <= x < 2 ^ 14 -> Z.lor x 0x4000 = x + 0x4000.
Proof.
  intros Hx.
  assert (Hland : Z.land x 0x4000 = 0).
  { apply Z.bits_inj'. intros n Hn. rewrite Z.land_spec, Z.bits_0.
    destruct (Z.lt_ge_cases n 14) as [Hlt|Hge].
    - change 0x4000 with (1 * 2 ^ 14). rewrite Z.mul_pow2_bits_low by lia.
      apply andb_false_r.
    - rewrite (Z.bits_above_log2 x n); [reflexivity|lia|].
      destruct (Z.eq_dec x 0) as [->|Hne]; [simpl; lia|].
      apply Z.log2_lt_pow2; [lia|].
      apply Z.lt_le_trans with (2 ^ 14); [lia|].
      apply Z.pow_le_mono_r; lia. }
  rewrite <- Z.lxor_lor by assumption.
  symmetry. apply Z.add_nocarry_lxor. assumption.
Qed.

(** A two-byte variable-length integer, minimal or not, reads back. *)
Lemma reads_pull_uint_var_2 (n : Z) :
  0 <= n <= 0x3FFF -> reads pull_uint_var (be_bytes 2 (n + 0x4000)) n.
Proof.
  intros Hn.
  cbn [be_bytes le_bytes rev app].
  eapply reads_value.
  - eapply (reads_pull_selected 2); [|reflexivity|reflexivity].
    replace (((n + 16384) / 256) mod 256 / 64) with 1 by bytes_arith.
    reflexivity.
  - change 0x3FFF with (Z.ones 14). rewrite Z.land_ones by lia.
    unfold be_value. cbn [fold_left]. change (2 ^ 14) with 16384.
    bytes_arith.
Qed.

(** What [push_crypto_frame] leaves in the buffer when the body pushes
    [payload]: the offset, the backpatched length field, the payload. *)
Lemma writes_push_crypto_frame (offset : Z) (payload : list Z) :
  0 <= offset <= 2 ^ 62 - 1 ->
  0 <= Z.lor (len payload) 0x4000 < 2 ^ 16 ->
  writes (push_crypto_frame offset (push_bytes payload))
         (uint_var_bytes offset
          ++ be_bytes 2 (Z.lor (len payload) 0x4000) ++ payload).
Proof.
  intros Hoff Hlen [d p] Hroom. cbn [_pos _data] in Hroom.
  rewrite !length_app, be_bytes_length in Hroom.
  set (uv := uint_var_bytes offset) in *.
  unfold push_crypto_frame.
  unfold bind at 1.
  rewrite (writes_push_uint_var offset Hoff) by (simpl; fold uv; lia).
  fold uv. unfold bind at 1. unfold push_uint16.
  rewrite (writes_push_uint 2 0) by
    (simpl; rewrite ?write_at_length by lia; lia).
  cbn [_pos _data]. rewrite write_at_app by (simpl; lia).
  unfold bind at 1. unfold get_tell at 1. unfold tell. cbn [_pos _data].
  unfold bind at 1.
  rewrite (writes_push_bytes payload)
    by (simpl; rewrite write_at_length by (rewrite length_app; simpl; lia);
        lia).
  cbn [_pos _data].
  rewrite <- (Nat.add_assoc p), <- length_app.
  rewrite write_at_app by (rewrite length_app; simpl; lia).
  unfold bind at 1. unfold get_tell at 1. unfold tell. cbn [_pos _data].
  assert (Hlen3 : length ((uv ++ be_bytes 2 0) ++ payload)
                  = (length uv + 2 + length payload)%nat)
    by (rewrite !length_app, be_bytes_length; reflexivity).
  assert (Hcap : length (write_at p ((uv ++ be_bytes 2 0) ++ payload) d)
                 = length d)
    by (apply write_at_length; lia).
  unfold bind at 1. unfold seek at 1. unfold capacity. cbn [_pos _data].
  rewrite Hcap, length_app, be_bytes_length.
  assert (E1 : (0 <=? Z.of_nat (p + (length uv + 2)) - 2)
               && (Z.of_nat (p + (length uv + 2)) - 2 <=? Z.of_nat (length d))
               = true)
    by (apply andb_true_iff; split; apply Z.leb_le; lia).
  rewrite E1.
  replace (Z.to_nat (Z.of_nat (p + (length uv + 2)) - 2))
    with (p + length uv)%nat by lia.
  replace (Z.of_nat (p + (length uv + 2) + length payload)
           - Z.of_nat (p + (length uv + 2))) with (len payload)
    by (unfold len; lia).
  unfold bind at 1.
  rewrite (writes_push_uint 2 _ Hlen) by (simpl; lia).
  cbn [_pos _data].
  rewrite <- app_assoc.
  rewrite write_at_patch;
    [|rewrite !be_bytes_length; reflexivity
     |rewrite !length_app, be_bytes_length; lia].
  unfold seek, capacity. cbn [_pos _data].
  rewrite write_at_length
    by (rewrite !length_app, be_bytes_length; lia).
  assert (E2 : (0 <=? Z.of_nat (p + (length uv + 2) + length payload))
               && (Z.of_nat (p + (length uv + 2) + length payload)
                   <=? Z.of_nat (length d)) = true)
    by (apply andb_true_iff; split; apply Z.leb_le; lia).
  rewrite E2.
  rewrite Nat2Z.id. rewrite !length_app, be_bytes_length.
  replace (p + (length uv + 2) + length payload)%nat
    with (p + (length uv + (2 + length payload)))%nat by lia.
  reflexivity.
Qed.

(** Claim C10, as amended.  For every offset in [[0, 2^62 - 1]] and every
    payload, in a buffer with room for the frame:
    - if the payload has at most 0x3FFF bytes, [push_crypto_frame] (whose
      body pushes the payload, and which backpatches the reserved 2-byte
      length field with [bytes_written | 0x4000]) succeeds and
      [pull_crypto_frame] on the bytes produced recovers the offset and the
      payload;
    - the bound is needed: with a payload of 0x4000 bytes the backpatched
      field reads back as length 0 and the payload is not recovered. *)
Theorem crypto_frame_roundtrip (offset : Z) (payload : list Z) (cap : nat) :
  0 <= offset <= 2 ^ 62 - 1 ->
  (length (uint_var_bytes offset) + 2 + length payload <= cap)%nat ->
  (len payload <= 0x3FFF ->
   exists buf buf',
     push_crypto_frame offset (push_bytes payload) (Buffer_capacity cap)
     = Ok (tt, buf)
     /\ pull_crypto_frame (Buffer_data (data buf))
        = Ok (mkQuicStreamFrame payload false offset, buf'))
  /\ (len payload = 0x4000 ->
      exists buf buf',
        push_crypto_frame offset (push_bytes payload) (Buffer_capacity cap)
        = Ok (tt, buf)
        /\ pull_crypto_frame (Buffer_data (data buf))
           = Ok (mkQuicStreamFrame [] false offset, buf')).
Proof.
  intros Hoff Hcap. split; intros Hlen.
  - assert (Hlor : Z.lor (len payload) 0x4000 = len payload + 0x4000)
      by (apply lor_length_tag; unfold len in *; lia).
    destruct (writes_fresh _ _ cap
                (writes_push_crypto_frame offset payload Hoff
                   ltac:(rewrite Hlor; unfold len in *; lia)))
      as (buf & Hpush & Hdata).
    { rewrite !length_app, be_bytes_length. lia. }
    exists buf. eexists. split; [exact Hpush|]. rewrite Hdata, Hlor.
    apply reads_data. unfold pull_crypto_frame.
    eapply reads_bind; [apply reads_pull_uint_var; assumption|].
    eapply reads_bind;
      [apply reads_pull_uint_var_2; unfold len in *; lia|].
    rewrite <- (app_nil_r payload) at 2.
    eapply reads_bind; [apply reads_pull_bytes|]. apply reads_ret.
  - destruct (writes_fresh _ _ cap
                (writes_push_crypto_frame offset payload Hoff
                   ltac:(rewrite Hlen; simpl; lia)))
      as (buf & Hpush & Hdata).
    { rewrite !length_app, be_bytes_length. lia. }
    exists buf. eexists. split; [exact Hpush|]. rewrite Hdata, Hlen.
    change (Z.lor 0x4000 0x4000) with (0 + 0x4000).
    replace (uint_var_bytes offset ++ be_bytes 2 (0 + 0x4000) ++ payload)
      with ((uint_var_bytes offset ++ be_bytes 2 (0 + 0x4000) ++ [] ++ [])
            ++ payload)
      by (rewrite <- !app_assoc; reflexivity).
    apply reads_data_prefix. unfold pull_crypto_frame.
    eapply reads_bind; [apply reads_pull_uint_var; assumption|].
    eapply reads_bind; [apply reads_pull_uint_var_2; lia|].
    eapply reads_bind; [apply (reads_pull_bytes [])|]. apply reads_ret.
Qed.

Lemma crypto_frame_roundtrip_witness :
  (exists buf buf',
     push_crypto_frame 5 (push_bytes [1; 2; 3]) (Buffer_capacity 10)
     = Ok (tt, buf)
     /\ pull_crypto_frame (Buffer_data (data buf))
        = Ok (mkQuicStreamFrame [1; 2; 3] false 5, buf'))
  /\ (exists buf buf',
        push_crypto_frame 5 (push_bytes (repeat 7 (Z.to_nat 0x4000)))
          (Buffer_capacity (Z.to_nat 0x4003))
        = Ok (tt, buf)
        /\ pull_crypto_frame (Buffer_data (data buf))
           = Ok (mkQuicStreamFrame [] false 5, buf')).
Proof.
  split.
  - apply (proj1 (crypto_frame_roundtrip 5 [1; 2; 3] 10
                    ltac:(lia) ltac:(vm_compute; lia))).
    vm_compute. discriminate.
  - apply (proj2 (crypto_frame_roundtrip 5 (repeat 7 (Z.to_nat 0x4000))
                    (Z.to_nat 0x4003)
                    ltac:(lia) ltac:(vm_compute; lia))).
    vm_compute. reflexivity.
Defined.

(** Claim C10 as stated fails for offsets above [2^62 - 1]: they have no
    variable-length encoding and [push_crypto_frame] raises [ValueError],
    whatever the buffer. *)
Lemma crypto_frame_roundtrip_counterexample :
  len [1; 2; 3] <= 0x3FFF
  /\ push_crypto_frame (2 ^ 62) (push_bytes [1; 2; 3]) (Buffer_capacity 64)
     = Raise ValueError
  /\ forall buf, push_crypto_frame (2 ^ 62) (push_bytes [1; 2; 3]) buf
                 = Raise ValueError.
Proof.
  split; [vm_compute; discriminate|]. split; [reflexivity|].
  intros buf. unfold push_crypto_frame. unfold bind at 1.
  rewrite push_uint_var_too_big by lia. reflexivity.
Qed.

(* ================================================================= *)
(** ** Connection close frames *)

(** The decoder raises nothing but [UnicodeDecodeError]. *)
Lemma bytes_decode_utf8_raises : forall (n : nat) (bs : list Z) (e : exn),
  (length bs <= n)%nat ->
  bytes_decode_utf8 bs = Raise e -> e = UnicodeDecodeError.
Proof.
  induction n as [|n IH]; intros bs e Hn H.
  - destruct bs; [discriminate|simpl in Hn; lia].
  - destruct bs as [|b0 r0]; [discriminate|].
    simpl in Hn. cbn [bytes_decode_utf8] in H.
    repeat match type of H with
           | context [if ?c then _ else _] => destruct c
           | context [match ?l with [] => _ | _ :: _ => _ end] =>
               destruct l; simpl in Hn
           end;
      try (injection H as <-; reflexivity);
      match type of H with
      | cons_char _ (bytes_decode_utf8 ?r) = _ =>
          destruct (bytes_decode_utf8 r) eqn:E; [discriminate|];
          simpl in H; injection H as <-;
          apply (IH r); [lia|exact E]
      end.
Qed.

Lemma decode_reason_phrase_total (reason_bytes : list Z) :
  decode_reason_phrase reason_bytes
  = Ok match bytes_decode_utf8 reason_bytes with
       | Ok s => s
       | Raise _ => []
       end.
Proof.
  unfold decode_reason_phrase.
  destruct (bytes_decode_utf8 reason_bytes) as [s|e] eqn:E; [reflexivity|].
  rewrite (bytes_decode_utf8_raises _ _ _ (Nat.le_refl _) E). reflexivity.
Qed.

(** Claim C9.  Whatever bytes a close frame carries as its reason phrase,
    once the frame's fields and the reason bytes are read,
    [pull_transport_close_frame] and [pull_application_close_frame] return
    normally: with the decoded string when the bytes are valid UTF-8, and
    with the empty string when decoding them raises. *)
Theorem close_frame_reason_lenient (reason_bytes : list Z) :
  (forall buf error_code frame_type reason_length b1 b2 b3 b4,
     pull_uint16 buf = Ok (error_code, b1) ->
     pull_uint_var b1 = Ok (frame_type, b2) ->
     pull_uint_var b2 = Ok (reason_length, b3) ->
     pull_bytes reason_length b3 = Ok (reason_bytes, b4) ->
     exists reason_phrase,
       pull_transport_close_frame buf
       = Ok ((error_code, frame_type, reason_phrase), b4)
       /\ (forall s, bytes_decode_utf8 reason_bytes = Ok s ->
                     reason_phrase = s)
       /\ (forall e, bytes_decode_utf8 reason_bytes = Raise e ->
                     reason_phrase = []))
  /\ (forall buf error_code reason_length b1 b2 b3,
        pull_uint16 buf = Ok (error_code, b1) ->
        pull_uint_var b1 = Ok (reason_length, b2) ->
        pull_bytes reason_length b2 = Ok (reason_bytes, b3) ->
        exists reason_phrase,
          pull_application_close_frame buf
          = Ok ((error_code, reason_phrase), b3)
          /\ (forall s, bytes_decode_utf8 reason_bytes = Ok s ->
                        reason_phrase = s)
          /\ (forall e, bytes_decode_utf8 reason_bytes = Raise e ->
                        reason_phrase = [])).
Proof.
  split.
  - intros buf error_code frame_type reason_length b1 b2 b3 b4 H1 H2 H3 H4.
    eexists. split; [|split].
    + unfold pull_transport_close_frame, bind, lift.
      rewrite H1, H2, H3, H4, decode_reason_phrase_total. reflexivity.
    + intros s Hs. rewrite Hs. reflexivity.
    + intros e He. rewrite He. reflexivity.
  - intros buf error_code reason_length b1 b2 b3 H1 H2 H3.
    eexists. split; [|split].
    + unfold pull_application_close_frame, bind, lift.
      rewrite H1, H2, H3, decode_reason_phrase_total. reflexivity.
    + intros s Hs. rewrite Hs. reflexivity.
    + intros e He. rewrite He. reflexivity.
Qed.

Lemma close_frame_reason_lenient_witness :
  (exists reason_phrase,
     pull_transport_close_frame (Buffer_data [0; 10; 6; 2; 0xFF; 0xFE])
     = Ok ((10, 6, reason_phrase), mkBuffer [0; 10; 6; 2; 0xFF; 0xFE] 6)
     /\ (forall s, bytes_decode_utf8 [0xFF; 0xFE] = Ok s -> reason_phrase = s)
     /\ (forall e, bytes_decode_utf8 [0xFF; 0xFE] = Raise e ->
                   reason_phrase = []))
  /\ (exists reason_phrase,
        pull_application_close_frame (Buffer_data [0; 0; 2; 0xC3; 0xA9])
        = Ok ((0, reason_phrase), mkBuffer [0; 0; 2; 0xC3; 0xA9] 5)
        /\ (forall s, bytes_decode_utf8 [0xC3; 0xA9] = Ok s ->
                      reason_phrase = s)
        /\ (forall e, bytes_decode_utf8 [0xC3; 0xA9] = Raise e ->
                      reason_phrase = [])).
Proof.
  split.
  - exact (proj1 (close_frame_reason_lenient [0xFF; 0xFE])
             (Buffer_data [0; 10; 6; 2; 0xFF; 0xFE]) 10 6 2
             (mkBuffer [0; 10; 6; 2; 0xFF; 0xFE] 2)
             (mkBuffer [0; 10; 6; 2; 0xFF; 0xFE] 3)
             (mkBuffer [0; 10; 6; 2; 0xFF; 0xFE] 4)
             (mkBuffer [0; 10; 6; 2; 0xFF; 0xFE] 6)
             eq_refl eq_refl eq_refl eq_refl).
  - exact (proj2 (close_frame_reason_lenient [0xC3; 0xA9])
             (Buffer_data [0; 0; 2; 0xC3; 0xA9]) 0 2
             (mkBuffer [0; 0; 2; 0xC3; 0xA9] 2)
             (mkBuffer [0; 0; 2; 0xC3; 0xA9] 3)
             (mkBuffer [0; 0; 2; 0xC3; 0xA9] 5)
             eq_refl eq_refl eq_refl).
Defined.

(* ================================================================= *)
(** ** Transport parameters *)

(** Readers leave the bytes alone and never move the cursor back. *)
Lemma pull_uint_inv (n : nat) (buf buf' : Buffer) (v : Z) :
  pull_uint n buf = Ok (v, buf') ->
  _data buf' = _data buf /\ _pos buf' = (_pos buf + n)%nat
  /\ (_pos buf + n <= length (_data buf))%nat.
Proof.
  unfold pull_uint, tell, capacity.
  destruct (Z.of_nat (_pos buf) + Z.of_nat n >? Z.of_nat (length (_data buf)))
    eqn:E; [discriminate|].
  intros H. injection H as _ <-. simpl. repeat split. lia.
Qed.

Lemma pull_bytes_inv (length_ : Z) (buf buf' : Buffer) (v : list Z) :
  pull_bytes length_ buf = Ok (v, buf') ->
  _data buf' = _data buf /\ (_pos buf <= _pos buf')%nat
  /\ (0 <= length_ -> tell buf' = tell buf + length_).
Proof.
  unfold pull_bytes, tell, capacity.
  destruct (Z.of_nat (_pos buf) + length_ >? Z.of_nat (length (_data buf)))
    eqn:E; [discriminate|].
  intros H. injection H as _ <-. simpl. repeat split; lia.
Qed.

Lemma pull_uint_var_inv (buf buf' : Buffer) (v : Z) :
  pull_uint_var buf = Ok (v, buf') ->
  _data buf' = _data buf /\ (_pos buf <= _pos buf')%nat.
Proof.
  unfold pull_uint_var, bind, reraise, get_pos, data_get, ret.
  destruct (nth_error (_data buf) (_pos buf)) as [x|]; [|discriminate].
  destruct (nth_error UINT_VAR_FORMATS (Z.to_nat (x / 64)))
    as [[[pull push] mask]|] eqn:E; [|discriminate].
  assert (Hpull : exists n, pull = pull_uint n).
  { destruct (Z.to_nat (x / 64)) as [|[|[|[|k]]]]; simpl in E;
      try (injection E as <- _ _; eexists; reflexivity).
    destruct k; discriminate. }
  destruct Hpull as (n & ->).
  destruct (pull_uint n buf) as [[w b]|e] eqn:E2; [|discriminate].
  intros H. injection H as _ <-.
  apply pull_uint_inv in E2. destruct E2 as (Hd & Hp & _).
  split; [assumption|lia].
Qed.

Lemma pull_param_inv params param_id param_len buf params' buf' :
  pull_param params param_id param_len buf = Ok (params', buf') ->
  _data buf' = _data buf /\ (_pos buf <= _pos buf')%nat.
Proof.
  unfold pull_param.
  destruct (param_id <? len PARAMS).
  - destruct (nth_error PARAMS (Z.to_nat param_id)) as [[name [| |]]|];
      unfold bind, ret; try discriminate.
    + destruct (pull_uint_var buf) as [[v b]|e] eqn:E; [|discriminate].
      intros H. injection H as _ <-. apply (pull_uint_var_inv _ _ _ E).
    + destruct (pull_bytes param_len buf) as [[v b]|e] eqn:E; [|discriminate].
      intros H. injection H as _ <-.
      apply pull_bytes_inv in E. tauto.
    + intros H. injection H as _ <-. split; [reflexivity|lia].
  - unfold bind, ret.
    destruct (pull_bytes param_len buf) as [[v b]|e] eqn:E; [|discriminate].
    intros H. injection H as _ <-. apply pull_bytes_inv in E. tauto.
Qed.

(** One iteration of the loop, when the entry ends where it says. *)
Lemma pull_params_loop_next fuel end_ params buf param_id param_len
      buf1 buf2 params1 buf3 :
  tell buf < end_ ->
  pull_uint16 buf = Ok (param_id, buf1) ->
  pull_uint16 buf1 = Ok (param_len, buf2) ->
  pull_param params param_id param_len buf2 = Ok (params1, buf3) ->
  tell buf3 = tell buf2 + param_len ->
  pull_params_loop (S fuel) end_ params buf
  = pull_params_loop fuel end_ params1 buf3.
Proof.
  intros Hlt H1 H2 H3 H4. cbn [pull_params_loop].
  unfold bind at 1. unfold get_tell at 1.
  destruct (tell buf <? end_) eqn:E; [|lia].
  unfold bind at 1. rewrite H1. unfold bind at 1. rewrite H2.
  unfold bind at 1. unfold get_tell at 1.
  unfold bind at 1. rewrite H3.
  unfold bind at 1. unfold get_tell at 1.
  unfold bind at 1. unfold assert.
  destruct (tell buf3 =? tell buf2 + param_len) eqn:E2; [|lia].
  reflexivity.
Qed.

(** One iteration of the loop, when the entry ends elsewhere. *)
Lemma pull_params_loop_mismatch fuel end_ params buf param_id param_len
      buf1 buf2 params1 buf3 :
  tell buf < end_ ->
  pull_uint16 buf = Ok (param_id, buf1) ->
  pull_uint16 buf1 = Ok (param_len, buf2) ->
  pull_param params param_id param_len buf2 = Ok (params1, buf3) ->
  tell buf3 <> tell buf2 + param_len ->
  pull_params_loop (S fuel) end_ params buf = Raise AssertionError.
Proof.
  intros Hlt H1 H2 H3 H4. cbn [pull_params_loop].
  unfold bind at 1. unfold get_tell at 1.
  destruct (tell buf <? end_) eqn:E; [|lia].
  unfold bind at 1. rewrite H1. unfold bind at 1. rewrite H2.
  unfold bind at 1. unfold get_tell at 1.
  unfold bind at 1. rewrite H3.
  unfold bind at 1. unfold get_tell at 1.
  unfold bind at 1. unfold assert.
  destruct (tell buf3 =? tell buf2 + param_len) eqn:E2; [lia|].
  reflexivity.
Qed.

(** Running the loop over entries that are done, with fuel to spare. *)
Lemma entries_done_run end_ params buf params' buf' :
  entries_done end_ params buf params' buf' ->
  forall fuel, (length (_data buf) - _pos buf < fuel)%nat ->
  exists fuel',
    pull_params_loop fuel end_ params buf
    = pull_params_loop fuel' end_ params' buf'
    /\ (length (_data buf') - _pos buf' < fuel')%nat
    /\ _data buf' = _data buf.
Proof.
  induction 1 as [params buf
                 |params buf param_id param_len buf1 buf2 params1 buf3
                    params' buf' Hlt H1 H2 H3 H4 Hrest IH];
    intros fuel Hfuel.
  - exists fuel. repeat split; assumption.
  - destruct fuel as [|fuel]; [lia|].
    rewrite (pull_params_loop_next fuel end_ params buf param_id param_len
               buf1 buf2 params1 buf3) by assumption.
    apply pull_uint_inv in H1. destruct H1 as (Hd1 & Hp1 & Hr1).
    apply pull_uint_inv in H2. destruct H2 as (Hd2 & Hp2 & Hr2).
    apply pull_param_inv in H3. destruct H3 as (Hd3 & Hp3).
    destruct (IH fuel) as (fuel' & Hrun & Hfuel' & Hd').
    { rewrite Hd3, Hd2, Hd1. rewrite Hd1 in Hr2. lia. }
    exists fuel'. split; [exact Hrun|]. split; [exact Hfuel'|].
    rewrite Hd', Hd3, Hd2, Hd1. reflexivity.
Qed.

(** Claim C5, as amended.  In [pull_quic_transport_parameters], whenever,
    after any number of entries that ended where they said, a TLV entry is
    processed and leaves the cursor elsewhere than at
    [param_start + param_len], the parse fails with [AssertionError]. *)
Theorem pull_quic_transport_parameters_length_check
        (buf buf0 b b1 b2 b3 : Buffer) (length_ param_id param_len : Z)
        (params params1 : QuicTransportParameters) :
  pull_uint 2 buf = Ok (length_, buf0) ->
  entries_done (tell buf0 + length_) QuicTransportParameters_default buf0
               params b ->
  tell b < tell buf0 + length_ ->
  pull_uint16 b = Ok (param_id, b1) ->
  pull_uint16 b1 = Ok (param_len, b2) ->
  pull_param params param_id param_len b2 = Ok (params1, b3) ->
  tell b3 <> tell b2 + param_len ->
  pull_quic_transport_parameters buf = Raise AssertionError.
Proof.
  intros H0 Hdone Hlt H1 H2 H3 H4.
  unfold pull_quic_transport_parameters, pull_block.
  unfold bind at 1. rewrite H0.
  unfold bind at 1. unfold get_tell at 1.
  unfold bind at 1. unfold bind at 1. unfold get_tell at 1.
  unfold bind at 1. unfold get_capacity at 1.
  destruct (entries_done_run _ _ _ _ _ Hdone (S (Z.to_nat (capacity buf0))))
    as (fuel' & Hrun & Hfuel' & _).
  { unfold capacity. lia. }
  rewrite Hrun. destruct fuel' as [|fuel']; [lia|].
  rewrite (pull_params_loop_mismatch fuel' _ params b param_id param_len
             b1 b2 params1 b3) by assumption.
  reflexivity.
Qed.

(** An integer parameter whose varint is shorter than the declared length,
    after a well-formed entry; and a boolean parameter with a declared
    length of 1. *)
Lemma pull_quic_transport_parameters_length_check_witness :
  pull_quic_transport_parameters
    (Buffer_data [0; 11; 0; 1; 0; 1; 5; 0; 4; 0; 2; 1; 100])
  = Raise AssertionError
  /\ pull_quic_transport_parameters (Buffer_data [0; 5; 0; 12; 0; 1; 100])
     = Raise AssertionError.
Proof.
  split.
  - set (d := [0; 11; 0; 1; 0; 1; 5; 0; 4; 0; 2; 1; 100]).
    apply (pull_quic_transport_parameters_length_check
             (Buffer_data d) (mkBuffer d 2) (mkBuffer d 7) (mkBuffer d 9)
             (mkBuffer d 11) (mkBuffer d 12) 11 4 2
             (setattr QuicTransportParameters_default idle_timeout_ (PyInt 5))
             (setattr (setattr QuicTransportParameters_default idle_timeout_
                         (PyInt 5)) initial_max_data_ (PyInt 1)));
      try reflexivity.
    + eapply entries_next;
        [reflexivity|reflexivity|reflexivity|reflexivity|reflexivity|].
      apply entries_none.
    + vm_compute. discriminate.
  - set (d := [0; 5; 0; 12; 0; 1; 100]).
    apply (pull_quic_transport_parameters_length_check
             (Buffer_data d) (mkBuffer d 2) (mkBuffer d 2) (mkBuffer d 4)
             (mkBuffer d 6) (mkBuffer d 6) 5 12 1
             QuicTransportParameters_default
             (setattr QuicTransportParameters_default disable_migration_
                (PyBool true)));
      try reflexivity.
    + apply entries_none.
    + vm_compute. discriminate.
Defined.

(** Claim C5 as stated fails on the error raised: the check on the cursor is
    an [assert], which raises [AssertionError], and no
    [FrameEncodingError].  Here the entry declares 2 bytes for
    [initial_max_data] and its varint takes 1. *)
Lemma pull_quic_transport_parameters_length_check_counterexample :
  pull_param QuicTransportParameters_default 4 2
    (mkBuffer [0; 6; 0; 4; 0; 2; 1; 100] 6)
  = Ok (setattr QuicTransportParameters_default initial_max_data_ (PyInt 1),
        mkBuffer [0; 6; 0; 4; 0; 2; 1; 100] 7)
  /\ 7 <> 6 + 2
  /\ pull_quic_transport_parameters (Buffer_data [0; 6; 0; 4; 0; 2; 1; 100])
     = Raise AssertionError
  /\ pull_quic_transport_parameters (Buffer_data [0; 6; 0; 4; 0; 2; 1; 100])
     <> Raise FrameEncodingError.
Proof.
  split; [reflexivity|]. split; [lia|]. split; [reflexivity|discriminate].
Qed.

(** [push_block] writes the body's bytes behind their length. *)
Lemma writes_push_block (cap : nat) (body : M unit) (bs : list Z) :
  writes body bs -> len bs < 256 ^ Z.of_nat cap ->
  writes (push_block cap body) (be_bytes cap (len bs) ++ bs).
Proof.
  intros Hbody Hlen [d p] Hroom. cbn [_pos _data] in Hroom.
  rewrite length_app, be_bytes_length in Hroom.
  unfold push_block.
  unfold bind at 1.
  rewrite (writes_push_bytes (repeat 0 cap))
    by (cbn [_pos _data]; rewrite repeat_length; lia).
  cbn [_pos _data]. rewrite repeat_length.
  unfold bind at 1. unfold get_tell at 1. unfold tell. cbn [_pos _data].
  unfold bind at 1.
  rewrite Hbody
    by (cbn [_pos _data];
        rewrite write_at_length by (rewrite repeat_length; lia); lia).
  cbn [_pos _data].
  pose proof (write_at_app p (repeat 0 cap) bs d) as Happ.
  rewrite repeat_length in Happ. rewrite Happ by lia. clear Happ.
  unfold bind at 1. unfold get_tell at 1. unfold tell. cbn [_pos _data].
  assert (Hcap : length (write_at p (repeat 0 cap ++ bs) d) = length d)
    by (apply write_at_length; rewrite length_app, repeat_length; lia).
  unfold bind at 1. unfold seek at 1. unfold capacity. cbn [_pos _data].
  rewrite Hcap.
  assert (E1 : (0 <=? Z.of_nat (p + cap) - Z.of_nat cap)
               && (Z.of_nat (p + cap) - Z.of_nat cap <=? Z.of_nat (length d))
               = true)
    by (apply andb_true_iff; split; apply Z.leb_le; lia).
  rewrite E1.
  replace (Z.to_nat (Z.of_nat (p + cap) - Z.of_nat cap)) with p by lia.
  replace (Z.of_nat (p + cap + length bs) - Z.of_nat (p + cap))
    with (len bs) by (unfold len; lia).
  unfold bind at 1.
  rewrite (writes_push_uint cap (len bs) ltac:(unfold len in *; lia))
    by (cbn [_pos _data]; rewrite be_bytes_length, Hcap; lia).
  cbn [_pos _data].
  pose proof (write_at_patch p [] (repeat 0 cap) (be_bytes cap (len bs)) bs d)
    as Hpatch.
  cbn [app length] in Hpatch. rewrite Nat.add_0_r in Hpatch.
  rewrite Hpatch;
    [|rewrite be_bytes_length, repeat_length; reflexivity
     |rewrite length_app, repeat_length; lia].
  unfold seek, capacity. cbn [_pos _data].
  rewrite write_at_length by (rewrite length_app, be_bytes_length; lia).
  assert (E2 : (0 <=? Z.of_nat (p + cap + length bs))
               && (Z.of_nat (p + cap + length bs) <=? Z.of_nat (length d))
               = true)
    by (apply andb_true_iff; split; apply Z.leb_le; lia).
  rewrite E2, Nat2Z.id, length_app, be_bytes_length, Nat.add_assoc.
  reflexivity.
Qed.

Lemma writes_skip (m : M unit) (bs : list Z) :
  writes m bs -> writes (ret tt ;;; m) bs.
Proof. intros H. apply (writes_bind _ _ [] bs writes_ret H). Qed.

(** The bytes of a record in which only [initial_max_data] is set, to 100. *)
Lemma writes_push_initial_max_data :
  writes (push_quic_transport_parameters
            (setattr QuicTransportParameters_default initial_max_data_
               (PyInt 100)))
         [0; 6; 0; 4; 0; 2; 0x40; 0x64].
Proof.
  unfold push_quic_transport_parameters.
  apply (writes_push_block 2 _ [0; 4; 0; 2; 0x40; 0x64]); [|reflexivity].
  cbn [push_params_from PARAMS]. simpl.
  do 4 apply writes_skip.
  apply (writes_bind _ _ [0; 4; 0; 2; 0x40; 0x64] []).
  - apply (writes_bind _ _ [0; 4] [0; 2; 0x40; 0x64]).
    + apply (writes_push_uint 2 4). simpl. lia.
    + apply (writes_push_block 2 _ [0x40; 0x64]); [|reflexivity].
      apply (writes_push_uint_var 100). lia.
  - repeat apply writes_skip. apply writes_ret.
Qed.

(** An entry with an unknown parameter ID is stepped over. *)
Lemma pull_param_unknown params param_id param_len buf :
  len PARAMS <= param_id -> 0 <= param_len ->
  tell buf + param_len <= capacity buf ->
  pull_param params param_id param_len buf
  = Ok (params, mkBuffer (_data buf) (_pos buf + Z.to_nat param_len)).
Proof.
  intros Hid Hlen Hroom. unfold pull_param.
  destruct (param_id <? len PARAMS) eqn:E; [lia|].
  unfold bind, pull_bytes.
  destruct (tell buf + param_len >? capacity buf) eqn:E2; [lia|].
  reflexivity.
Qed.

(** Claim C8.  Encoding the record in which only [initial_max_data] is set,
    to 100, with [push_quic_transport_parameters] (into a buffer with room
    for the 8 bytes) and decoding the bytes with
    [pull_quic_transport_parameters] yields the record with
    [initial_max_data = 100] and every other field at its default.  And a
    TLV entry whose parameter ID is outside the known table (14 or more) is
    stepped over: the loop goes on after exactly the declared length of
    bytes with the record unchanged, so that the entries after it are parsed
    as they would be without it. *)
Theorem transport_parameters_roundtrip_and_skip (cap : nat) :
  (8 <= cap)%nat ->
  (exists buf buf',
     push_quic_transport_parameters params_initial_max_data_100
       (Buffer_capacity cap) = Ok (tt, buf)
     /\ pull_quic_transport_parameters (Buffer_data (data buf))
        = Ok (params_initial_max_data_100, buf'))
  /\ (forall fuel end_ params buf param_id param_len buf1 buf2,
        tell buf < end_ ->
        pull_uint16 buf = Ok (param_id, buf1) ->
        pull_uint16 buf1 = Ok (param_len, buf2) ->
        14 <= param_id -> 0 <= param_len ->
        tell buf2 + param_len <= capacity buf2 ->
        pull_params_loop (S fuel) end_ params buf
        = pull_params_loop fuel end_ params
            (mkBuffer (_data buf2) (_pos buf2 + Z.to_nat param_len)))
  /\ pull_quic_transport_parameters
       (Buffer_data [0; 13; 0xFF; 0xFF; 0; 3; 1; 2; 3; 0; 4; 0; 2; 0x40; 0x64])
     = Ok (params_initial_max_data_100,
           mkBuffer [0; 13; 0xFF; 0xFF; 0; 3; 1; 2; 3; 0; 4; 0; 2; 0x40; 0x64]
                    15).
Proof.
  intros Hcap. split; [|split].
  - destruct (writes_fresh _ _ cap writes_push_initial_max_data)
      as (buf & Hpush & Hdata); [simpl; lia|].
    exists buf. eexists. split; [exact Hpush|]. rewrite Hdata. reflexivity.
  - intros fuel end_ params buf param_id param_len buf1 buf2
           Hlt H1 H2 Hid Hlen Hroom.
    apply (pull_params_loop_next fuel end_ params buf param_id param_len
             buf1 buf2); try assumption.
    + apply pull_param_unknown; assumption.
    + unfold tell. simpl. lia.
  - reflexivity.
Qed.

Lemma transport_parameters_roundtrip_and_skip_witness :
  (exists buf buf',
     push_quic_transport_parameters params_initial_max_data_100
       (Buffer_capacity 512) = Ok (tt, buf)
     /\ pull_quic_transport_parameters (Buffer_data (data buf))
        = Ok (params_initial_max_data_100, buf'))
  /\ pull_params_loop 16 15 QuicTransportParameters_default
       (mkBuffer [0; 13; 0xFF; 0xFF; 0; 3; 1; 2; 3; 0; 4; 0; 2; 0x40; 0x64] 2)
     = pull_params_loop 15 15 QuicTransportParameters_default
         (mkBuffer [0; 13; 0xFF; 0xFF; 0; 3; 1; 2; 3; 0; 4; 0; 2; 0x40; 0x64]
                   9).
Proof.
  split.
  - apply (proj1 (transport_parameters_roundtrip_and_skip 512 ltac:(lia))).
  - set (d := [0; 13; 0xFF; 0xFF; 0; 3; 1; 2; 3; 0; 4; 0; 2; 0x40; 0x64]).
    apply (proj1 (proj2 (transport_parameters_roundtrip_and_skip 8
                           ltac:(lia)))
             15%nat 15 QuicTransportParameters_default (mkBuffer d 2)
             0xFFFF 3 (mkBuffer d 4) (mkBuffer d 6));
      try reflexivity; vm_compute; discriminate.
Defined.

(** *** The bounded loop never runs out of fuel *)

Lemma pull_uint_raises (n : nat) (buf : Buffer) (e : exn) :
  pull_uint n buf = Raise e -> e = BufferReadError.
Proof.
  unfold pull_uint. destruct (tell buf + Z.of_nat n >? capacity buf);
    [|discriminate].
  intros H. injection H as <-. reflexivity.
Qed.

Lemma pull_bytes_raises (length_ : Z) (buf : Buffer) (e : exn) :
  pull_bytes length_ buf = Raise e -> e = BufferReadError.
Proof.
  unfold pull_bytes. destruct (tell buf + length_ >? capacity buf);
    [|discriminate].
  intros H. injection H as <-. reflexivity.
Qed.

Lemma pull_uint_var_raises (buf : Buffer) (e : exn) :
  pull_uint_var buf = Raise e -> e = BufferReadError \/ e = IndexError.
Proof.
  unfold pull_uint_var, bind, reraise, get_pos, data_get, ret.
  destruct (nth_error (_data buf) (_pos buf)) as [x|].
  - destruct (nth_error UINT_VAR_FORMATS (Z.to_nat (x / 64)))
      as [[[pull push] mask]|] eqn:E.
    + assert (Hpull : exists n, pull = pull_uint n).
      { destruct (Z.to_nat (x / 64)) as [|[|[|[|k]]]]; simpl in E;
          try (injection E as <- _ _; eexists; reflexivity).
        destruct k; discriminate. }
      destruct Hpull as (n & ->).
      destruct (pull_uint n buf) as [[w b]|e'] eqn:E2; [discriminate|].
      intros H. injection H as <-. left.
      apply (pull_uint_raises _ _ _ E2).
    + intros H. injection H as <-. right. reflexivity.
  - simpl. intros H. injection H as <-. left. reflexivity.
Qed.

Lemma pull_param_raises params param_id param_len buf e :
  pull_param params param_id param_len buf = Raise e ->
  e = BufferReadError \/ e = IndexError.
Proof.
  unfold pull_param.
  destruct (param_id <? len PARAMS).
  - destruct (nth_error PARAMS (Z.to_nat param_id)) as [[name [| |]]|];
      unfold bind, ret, raise.
    + destruct (pull_uint_var buf) as [[v b]|e'] eqn:E; [discriminate|].
      intros H. injection H as <-. apply (pull_uint_var_raises _ _ E).
    + destruct (pull_bytes param_len buf) as [[v b]|e'] eqn:E;
        [discriminate|].
      intros H. injection H as <-. left. apply (pull_bytes_raises _ _ _ E).
    + discriminate.
    + intros H. injection H as <-. right. reflexivity.
  - unfold bind, ret.
    destruct (pull_bytes param_len buf) as [[v b]|e'] eqn:E; [discriminate|].
    intros H. injection H as <-. left. apply (pull_bytes_raises _ _ _ E).
Qed.

Lemma pull_params_loop_fuel : forall fuel end_ params buf,
  (length (_data buf) - _pos buf < fuel)%nat ->
  pull_params_loop fuel end_ params buf <> Raise FuelExhausted.
Proof.
  induction fuel as [|fuel IH]; intros end_ params buf Hfuel; [lia|].
  cbn [pull_params_loop]. unfold bind at 1. unfold get_tell at 1.
  destruct (tell buf <? end_); [|discriminate].
  unfold bind at 1.
  destruct (pull_uint16 buf) as [[param_id buf1]|e] eqn:E1.
  2:{ apply pull_uint_raises in E1. subst e. discriminate. }
  unfold bind at 1.
  destruct (pull_uint16 buf1) as [[param_len buf2]|e] eqn:E2.
  2:{ apply pull_uint_raises in E2. subst e. discriminate. }
  unfold bind at 1. unfold get_tell at 1. unfold bind at 1.
  destruct (pull_param params param_id param_len buf2)
    as [[params1 buf3]|e] eqn:E3.
  2:{ apply pull_param_raises in E3. destruct E3; subst e; discriminate. }
  unfold bind at 1. unfold get_tell at 1. unfold bind at 1. unfold assert.
  destruct (tell buf3 =? tell buf2 + param_len); [|discriminate].
  unfold ret. apply IH.
  apply pull_uint_inv in E1. destruct E1 as (Hd1 & Hp1 & Hr1).
  apply pull_uint_inv in E2. destruct E2 as (Hd2 & Hp2 & Hr2).
  apply pull_param_inv in E3. destruct E3 as (Hd3 & Hp3).
  rewrite Hd3, Hd2, Hd1. rewrite Hd1 in Hr2. lia.
Qed.

(** [pull_quic_transport_parameters] returns or raises a Python exception on
    every buffer: the fuel of its loop is never used up. *)
Lemma pull_quic_transport_parameters_total (buf : Buffer) :
  pull_quic_transport_parameters buf <> Raise FuelExhausted.
Proof.
  unfold pull_quic_transport_parameters, pull_block.
  unfold bind at 1.
  destruct (pull_uint 2 buf) as [[length_ buf0]|e] eqn:E0.
  2:{ apply pull_uint_raises in E0. subst e. discriminate. }
  unfold bind at 1. unfold get_tell at 1.
  unfold bind at 1. unfold bind at 1. unfold get_tell at 1.
  unfold bind at 1. unfold get_capacity at 1.
  pose proof (pull_params_loop_fuel (S (Z.to_nat (capacity buf0)))
                (tell buf0 + length_) QuicTransportParameters_default buf0)
    as Hloop.
  destruct (pull_params_loop (S (Z.to_nat (capacity buf0)))
              (tell buf0 + length_) QuicTransportParameters_default buf0)
    as [[params b]|e].
  - unfold bind, get_tell, assert, ret, raise.
    destruct (tell b =? tell buf0 + length_); discriminate.
  - intros H. injection H as ->. apply Hloop; [|reflexivity].
    unfold capacity. lia.
Qed.

(* ================================================================= *)
(** ** The specification's test cases, evaluated *)

(** Inserting [[0,5)], [[10,15)], then [[5,10)] yields the single range
    [[0,15)]. *)
Example RangeSet_add_merges_all :
  RangeSet.init [Range 0 5; Range 10 15; Range 5 10] = Ok [Range 0 15].
Proof. reflexivity. Qed.

(** Adding a range that is already contained changes nothing. *)
Example RangeSet_add_contained :
  RangeSet.add [Range 0 15; Range 20 25] 3 (Some 7)
  = Ok [Range 0 15; Range 20 25].
Proof. reflexivity. Qed.

Example RangeSet_shift_lowest :
  RangeSet.shift [Range 2 4; Range 10 12] = Ok (Range 2 4, [Range 10 12]).
Proof. reflexivity. Qed.

Example RangeSet_shift_empty : RangeSet.shift [] = Raise IndexError.
Proof. reflexivity. Qed.

(** A single byte 0xC0 announces eight bytes. *)
Example pull_uint_var_truncated :
  pull_uint_var (Buffer_data [0xC0]) = Raise BufferReadError.
Proof. reflexivity. Qed.

Example push_uint_var_boundaries :
  map (fun v => match push_uint_var v (Buffer_capacity 8) with
                | Ok (_, buf) => data buf
                | Raise _ => []
                end)
      [0; 63; 64; 16383; 16384; 1073741823; 1073741824]
  = [[0]; [63]; [0x40; 0x40]; [0x7F; 0xFF]; [0x80; 0; 0x40; 0];
     [0xBF; 0xFF; 0xFF; 0xFF]; [0xC0; 0; 0; 0; 0x40; 0; 0; 0]].
Proof. reflexivity. Qed.

(** A Retry packet: the token is what is left of the datagram. *)
Example pull_quic_header_retry :
  pull_quic_header None
    (Buffer_data ([0xF5; 0xFF; 0; 0; 0x11; 0x50]
                  ++ [1; 2; 3; 4; 5; 6; 7; 8]
                  ++ [11; 12; 13; 14; 15; 16; 17; 18]
                  ++ [21; 22; 23]))
  = Ok (mkQuicHeader (Some 0xFF000011) (Some PACKET_TYPE_RETRY)
          [1; 2; 3; 4; 5; 6; 7; 8] [] [11; 12; 13; 14; 15; 16; 17; 18]
          [21; 22; 23] 0,
        mkBuffer ([0xF5; 0xFF; 0; 0; 0x11; 0x50]
                  ++ [1; 2; 3; 4; 5; 6; 7; 8]
                  ++ [11; 12; 13; 14; 15; 16; 17; 18]
                  ++ [21; 22; 23]) 25).
Proof. reflexivity. Qed.

(** A version negotiation packet listing two versions. *)
Example pull_quic_header_negotiation :
  pull_quic_header None
    (Buffer_data [0x8A; 0; 0; 0; 0; 0;
                  0xFF; 0; 0; 0x11; 0xFF; 0; 0; 0x12])
  = Ok (mkQuicHeader (Some 0) None [] [] [] [] 8,
        mkBuffer [0x8A; 0; 0; 0; 0; 0;
                  0xFF; 0; 0; 0x11; 0xFF; 0; 0; 0x12] 6).
Proof. reflexivity. Qed.

Example pull_ack_frame_example :
  pull_ack_frame (Buffer_data [24; 42; 2; 4; 8; 0; 1; 2])
  = Ok (([Range 5 8; Range 10 11; Range 20 25], 42),
        mkBuffer [24; 42; 2; 4; 8; 0; 1; 2] 8).
Proof. reflexivity. Qed.

Example pull_transport_close_frame_invalid_utf8 :
  pull_transport_close_frame (Buffer_data [0; 10; 6; 2; 0xFF; 0xFE])
  = Ok ((10, 6, []), mkBuffer [0; 10; 6; 2; 0xFF; 0xFE] 6).
Proof. reflexivity. Qed.

(* ================================================================= *)
(** ** RangeSet: the integers covered *)

Lemma contains_nil (x : Z) : ~ contains [] x.
Proof. intros (r & [] & _). Qed.

Lemma contains_cons (r : range) (rs : list range) (x : Z) :
  contains (r :: rs) x <-> in_range r x \/ contains rs x.
Proof.
  split.
  - intros (q & [<-|Hq] & Hx); [left; exact Hx|right; exists q; tauto].
  - intros [Hx|(q & Hq & Hx)]; [exists r|exists q]; simpl; tauto.
Qed.

(** In a chain, everything covered lies above the bound. *)
Lemma chain_from_contains_above lo rs x :
  chain_from lo rs -> contains rs x -> lo < x.
Proof.
  intros Hc (r & Hr & Hx). apply chain_from_Forall in Hc.
  rewrite Forall_forall in Hc. apply Hc in Hr. unfold in_range in Hx. lia.
Qed.

Lemma absorb_contains next : forall lo s0 stop x,
  chain_from lo next -> s0 <= lo -> s0 <= stop ->
  (s0 <= x < fst (RangeSet.absorb stop next)
   \/ contains (snd (RangeSet.absorb stop next)) x)
  <-> (s0 <= x < stop \/ contains next x).
Proof.
  induction next as [|r next IH]; intros lo s0 stop x Hc Hs0 Hstop; simpl.
  - tauto.
  - destruct Hc as (H1 & H2 & H3). unfold range_ok in H2.
    destruct (range_start r <=? stop) eqn:E.
    + rewrite (IH (range_stop r) s0 (Z.max (range_stop r) stop) x H3)
        by lia.
      rewrite contains_cons. unfold in_range.
      apply Z.leb_le in E. split.
      * intros [H|H]; [|tauto].
        destruct (Z_lt_ge_dec x stop); [left; lia|right; left; lia].
      * intros [H|[H|H]]; [left; lia|left; lia|tauto].
    + simpl. tauto.
Qed.

Lemma add_scan_contains rs : forall lo start stop x,
  chain_from lo rs -> start < stop ->
  (contains (RangeSet.add_scan rs start stop) x
   <-> contains rs x \/ start <= x < stop).
Proof.
  induction rs as [|r rs IH]; intros lo start stop x Hc Hlt; simpl.
  - rewrite contains_cons. unfold in_range. simpl.
    pose proof (contains_nil x). tauto.
  - destruct Hc as (H1 & H2 & H3). unfold range_ok in H2.
    destruct (stop <? range_start r) eqn:E1.
    + rewrite (contains_cons (Range start stop)). unfold in_range at 1.
      simpl. tauto.
    + destruct (start >? range_stop r) eqn:E2.
      * rewrite !contains_cons.
        rewrite (IH (range_stop r) start stop x H3 Hlt). tauto.
      * pose proof (absorb_contains rs (range_stop r)
                      (Z.min start (range_start r))
                      (Z.max stop (range_stop r)) x H3) as Ha.
        destruct (RangeSet.absorb (Z.max stop (range_stop r)) rs)
          as [stop' rest]. simpl in Ha.
        rewrite !contains_cons. unfold in_range. simpl.
        apply Z.ltb_ge in E1.
        assert (E2' : start <= range_stop r) by lia.
        split.
        -- intros H. apply Ha in H; [|lia|lia]. destruct H as [H|H]; [|tauto].
           destruct (Z_lt_ge_dec x (range_start r)); [right; lia|].
           destruct (Z_lt_ge_dec x (range_stop r)); [left; left; lia|].
           right; lia.
        -- intros H. apply Ha; [lia|lia|].
           destruct H as [[H|H]|H]; [left; lia|right; exact H|left; lia].
Qed.

(** Two chains that cover the same integers are the same list. *)
Lemma chain_from_unique rs1 : forall rs2 lo1 lo2,
  chain_from lo1 rs1 -> chain_from lo2 rs2 ->
  (forall x, contains rs1 x <-> contains rs2 x) -> rs1 = rs2.
Proof.
  induction rs1 as [|r1 rs1 IH]; intros rs2 lo1 lo2 Hc1 Hc2 Hsame.
  - destruct rs2 as [|r2 rs2]; [reflexivity|].
    destruct Hc2 as (_ & H2 & _). unfold range_ok in H2.
    exfalso. apply (contains_nil (range_start r2)). apply Hsame.
    apply contains_cons. left. unfold in_range. lia.
  - destruct Hc1 as (_ & Hok1 & Hc1). unfold range_ok in Hok1.
    destruct rs2 as [|r2 rs2].
    + exfalso. apply (contains_nil (range_start r1)). apply Hsame.
      apply contains_cons. left. unfold in_range. lia.
    + destruct Hc2 as (_ & Hok2 & Hc2). unfold range_ok in Hok2.
      assert (Hlow : forall (a b : range) (l m : list range),
                 range_start a < range_stop a ->
                 chain_from (range_stop b) m ->
                 range_start b < range_stop b ->
                 (forall x, contains (a :: l) x -> contains (b :: m) x) ->
                 range_start b <= range_start a).
      { intros a b l m Ha Hm Hb Himp.
        assert (Hin : contains (b :: m) (range_start a)).
        { apply Himp. apply contains_cons. left. unfold in_range. lia. }
        apply contains_cons in Hin. destruct Hin as [Hin|Hin].
        - unfold in_range in Hin. lia.
        - pose proof (chain_from_contains_above _ _ _ Hm Hin). lia. }
      assert (Hstart : range_start r1 = range_start r2).
      { pose proof (Hlow r1 r2 rs1 rs2 Hok1 Hc2 Hok2
                      (fun x => proj1 (Hsame x))).
        pose proof (Hlow r2 r1 rs2 rs1 Hok2 Hc1 Hok1
                      (fun x => proj2 (Hsame x))). lia. }
      assert (Hhigh : forall (a b : range) (l m : list range),
                 range_start a = range_start b ->
                 range_start a < range_stop a ->
                 chain_from (range_stop a) l ->
                 (forall x, contains (b :: m) x -> contains (a :: l) x) ->
                 range_stop b <= range_stop a).
      { intros a b l m Hab Ha Hl Himp.
        destruct (Z_le_gt_dec (range_stop b) (range_stop a)) as [|Hgt];
          [assumption|]. exfalso.
        assert (Hin : contains (a :: l) (range_stop a)).
        { apply Himp. apply contains_cons. left. unfold in_range. lia. }
        apply contains_cons in Hin. destruct Hin as [Hin|Hin].
        - unfold in_range in Hin. lia.
        - pose proof (chain_from_contains_above _ _ _ Hl Hin). lia. }
      assert (Hstop : range_stop r1 = range_stop r2).
      { pose proof (Hhigh r1 r2 rs1 rs2 Hstart Hok1 Hc1
                      (fun x => proj2 (Hsame x))).
        pose proof (Hhigh r2 r1 rs2 rs1 (eq_sym Hstart) Hok2 Hc2
                      (fun x => proj1 (Hsame x))). lia. }
      assert (Hr : r1 = r2).
      { destruct r1, r2. simpl in *. congruence. }
      subst r2. f_equal.
      apply (IH rs2 (range_stop r1) (range_stop r1) Hc1 Hc2).
      intros x. split; intros Hx.
      * pose proof (chain_from_contains_above _ _ _ Hc1 Hx).
        assert (Hin : contains (r1 :: rs2) x)
          by (apply Hsame, contains_cons; right; exact Hx).
        apply contains_cons in Hin. unfold in_range in Hin.
        destruct Hin as [Hin|Hin]; [lia|exact Hin].
      * pose proof (chain_from_contains_above _ _ _ Hc2 Hx).
        assert (Hin : contains (r1 :: rs1) x)
          by (apply Hsame, contains_cons; right; exact Hx).
        apply contains_cons in Hin. unfold in_range in Hin.
        destruct Hin as [Hin|Hin]; [lia|exact Hin].
Qed.

Lemma chain_unique rs1 rs2 :
  chain rs1 -> chain rs2 ->
  (forall x, contains rs1 x <-> contains rs2 x) -> rs1 = rs2.
Proof.
  intros H1 H2 Hsame.
  destruct (chain_chain_from rs1 H1 0) as (lo1 & _ & Hf1).
  destruct (chain_chain_from rs2 H2 0) as (lo2 & _ & Hf2).
  exact (chain_from_unique rs1 rs2 lo1 lo2 Hf1 Hf2 Hsame).
Qed.

Lemma add_scan_contains_chain rs start stop x :
  chain rs -> start < stop ->
  (contains (RangeSet.add_scan rs start stop) x
   <-> contains rs x \/ start <= x < stop).
Proof.
  intros Hc Hlt. destruct (chain_chain_from rs Hc 0) as (lo & _ & Hf).
  exact (add_scan_contains rs lo start stop x Hf Hlt).
Qed.

(** [add] adds exactly the integers of the new range: on a set that
    satisfies the invariant, [add(start, stop)] with [stop > start] covers
    afterwards what was covered before and the integers of
    [[start, stop)], nothing else; and [add(start)] adds the single integer
    [start]. *)
Theorem RangeSet_add_contains (rs : RangeSet.t) (start stop : Z) :
  RangeSet_inv rs -> stop > start ->
  (exists rs', RangeSet.add rs start (Some stop) = Ok rs'
               /\ forall x, contains rs' x
                            <-> contains rs x \/ start <= x < stop)
  /\ (exists rs', RangeSet.add rs start None = Ok rs'
                  /\ forall x, contains rs' x <-> contains rs x \/ x = start).
Proof.
  intros Hinv Hgt. apply RangeSet_inv_chain in Hinv. split.
  - exists (RangeSet.add_scan rs start stop). split.
    + unfold RangeSet.add. destruct (stop >? start) eqn:E; [reflexivity|lia].
    + intros x. apply add_scan_contains_chain; [assumption|lia].
  - exists (RangeSet.add_scan rs start (start + 1)). split.
    + unfold RangeSet.add.
      destruct (start + 1 >? start) eqn:E; [reflexivity|lia].
    + intros x.
      rewrite (add_scan_contains_chain rs start (start + 1) x Hinv)
        by lia.
      split; intros [H|H]; try tauto; right; lia.
Qed.

Lemma RangeSet_add_contains_witness :
  (exists rs', RangeSet.add [Range 0 5; Range 10 15] 3 (Some 12) = Ok rs'
               /\ forall x, contains rs' x
                            <-> contains [Range 0 5; Range 10 15] x
                                \/ 3 <= x < 12)
  /\ (exists rs', RangeSet.add [Range 0 5; Range 10 15] 3 None = Ok rs'
                  /\ forall x, contains rs' x
                               <-> contains [Range 0 5; Range 10 15] x
                                   \/ x = 3).
Proof.
  apply (RangeSet_add_contains [Range 0 5; Range 10 15] 3 12).
  - apply chain_RangeSet_inv. unfold chain, chain_from, range_ok. simpl. lia.
  - lia.
Defined.

(** Adding a range that one range of the set already covers changes
    nothing. *)
Theorem RangeSet_add_within_range (rs : RangeSet.t) (r : range) (start stop : Z) :
  RangeSet_inv rs -> In r rs ->
  range_start r <= start -> start < stop -> stop <= range_stop r ->
  RangeSet.add rs start (Some stop) = Ok rs.
Proof.
  intros Hinv Hr H1 H2 H3. apply RangeSet_inv_chain in Hinv.
  unfold RangeSet.add. destruct (stop >? start) eqn:E; [|lia]. f_equal.
  apply chain_unique; [apply add_scan_chain; assumption|assumption|].
  intros x. rewrite (add_scan_contains_chain rs start stop x Hinv H2).
  split; [|tauto]. intros [H|H]; [exact H|].
  exists r. split; [exact Hr|]. unfold in_range. lia.
Qed.

Lemma RangeSet_add_within_range_witness :
  RangeSet.add [Range 0 15; Range 20 25] 3 (Some 7)
  = Ok [Range 0 15; Range 20 25].
Proof.
  apply (RangeSet_add_within_range [Range 0 15; Range 20 25] (Range 0 15) 3 7).
  - apply chain_RangeSet_inv. unfold chain, chain_from, range_ok. simpl. lia.
  - left. reflexivity.
  - simpl. lia.
  - lia.
  - simpl. lia.
Defined.

(** The order of two [add] calls does not matter. *)
Theorem RangeSet_add_commutes (rs : RangeSet.t) (a b c d : Z) :
  RangeSet_inv rs -> b > a -> d > c ->
  exists rs1 rs2 rs',
    RangeSet.add rs a (Some b) = Ok rs1
    /\ RangeSet.add rs1 c (Some d) = Ok rs'
    /\ RangeSet.add rs c (Some d) = Ok rs2
    /\ RangeSet.add rs2 a (Some b) = Ok rs'.
Proof.
  intros Hinv Hab Hcd. apply RangeSet_inv_chain in Hinv.
  exists (RangeSet.add_scan rs a b), (RangeSet.add_scan rs c d),
    (RangeSet.add_scan (RangeSet.add_scan rs a b) c d).
  unfold RangeSet.add.
  destruct (b >? a) eqn:E1; [|lia]. destruct (d >? c) eqn:E2; [|lia].
  repeat split. f_equal.
  assert (H1 : chain (RangeSet.add_scan rs a b))
    by (apply add_scan_chain; [assumption|lia]).
  assert (H2 : chain (RangeSet.add_scan rs c d))
    by (apply add_scan_chain; [assumption|lia]).
  apply chain_unique; try (apply add_scan_chain; [assumption|lia]).
  intros x.
  rewrite (add_scan_contains_chain _ a b x H2) by lia.
  rewrite (add_scan_contains_chain _ c d x H1) by lia.
  rewrite (add_scan_contains_chain _ a b x Hinv) by lia.
  rewrite (add_scan_contains_chain _ c d x Hinv) by lia.
  tauto.
Qed.

Lemma RangeSet_add_commutes_witness :
  exists rs1 rs2 rs',
    RangeSet.add [Range 0 5] 10 (Some 15) = Ok rs1
    /\ RangeSet.add rs1 5 (Some 10) = Ok rs'
    /\ RangeSet.add [Range 0 5] 5 (Some 10) = Ok rs2
    /\ RangeSet.add rs2 10 (Some 15) = Ok rs'.
Proof.
  apply (RangeSet_add_commutes [Range 0 5] 10 15 5 10).
  - apply chain_RangeSet_inv. unfold chain, chain_from, range_ok. simpl. lia.
  - lia.
  - lia.
Defined.

(** Two sets that satisfy the invariant have the same list of ranges, which
    is what [__eq__] compares, exactly when they cover the same integers. *)
Theorem RangeSet_eq_covers (rs1 rs2 : RangeSet.t) :
  RangeSet_inv rs1 -> RangeSet_inv rs2 ->
  (rs1 = rs2 <-> forall x, contains rs1 x <-> contains rs2 x).
Proof.
  intros H1 H2. split.
  - intros ->. tauto.
  - apply chain_unique; apply RangeSet_inv_chain; assumption.
Qed.

Lemma RangeSet_eq_covers_witness :
  [Range 0 5; Range 7 9] = [Range 0 5; Range 7 9]
  <-> forall x, contains [Range 0 5; Range 7 9] x
                <-> contains [Range 0 5; Range 7 9] x.
Proof.
  apply (RangeSet_eq_covers [Range 0 5; Range 7 9] [Range 0 5; Range 7 9]);
    apply chain_RangeSet_inv; unfold chain, chain_from, range_ok; simpl; lia.
Defined.

Lemma init_from_chain ranges : forall self,
  chain self -> Forall range_ok ranges ->
  exists rs, RangeSet.init_from self ranges = Ok rs
             /\ chain rs
             /\ forall x, contains rs x <-> contains self x \/ contains ranges x.
Proof.
  induction ranges as [|r ranges IH]; intros self Hc Hall; simpl.
  - exists self. repeat split; try tauto.
    intros [H|H]; [exact H|]. destruct (contains_nil x H).
  - inversion Hall as [|? ? Hr Hrest]; subst. unfold range_ok in Hr.
    unfold RangeSet.add.
    destruct (range_stop r >? range_start r) eqn:E; [|lia].
    destruct (IH (RangeSet.add_scan self (range_start r) (range_stop r)))
      as (rs & Hrs & Hchain & Hcov);
      [apply add_scan_chain; assumption|assumption|].
    exists rs. split; [exact Hrs|]. split; [exact Hchain|].
    intros x. rewrite Hcov, contains_cons.
    rewrite (add_scan_contains_chain self _ _ x Hc Hr).
    unfold in_range. tauto.
Qed.

Lemma init_from_empty_range ranges : forall self,
  Exists (fun r => range_stop r <= range_start r) ranges ->
  RangeSet.init_from self ranges = Raise AssertionError.
Proof.
  induction ranges as [|r ranges IH]; intros self Hex; simpl.
  - inversion Hex.
  - unfold RangeSet.add.
    destruct (range_stop r >? range_start r) eqn:E; [|reflexivity].
    apply IH. inversion Hex as [? ? Hbad|? ? Hlater]; subst;
      [lia|assumption].
Qed.

(** [RangeSet(ranges)]: from any list of non-empty ranges, in any order and
    overlapping or not, the constructor builds a set that satisfies the
    invariant and covers exactly the integers of the given ranges; if one of
    the ranges is empty it fails with [AssertionError]. *)
Theorem RangeSet_init_covers (ranges : list range) :
  (Forall range_ok ranges ->
   exists rs, RangeSet.init ranges = Ok rs
              /\ RangeSet_inv rs
              /\ forall x, contains rs x <-> contains ranges x)
  /\ (Exists (fun r => range_stop r <= range_start r) ranges ->
      RangeSet.init ranges = Raise AssertionError).
Proof.
  split.
  - intros Hall.
    destruct (init_from_chain ranges RangeSet.empty I Hall)
      as (rs & Hrs & Hchain & Hcov).
    exists rs. split; [exact Hrs|]. split; [apply chain_RangeSet_inv, Hchain|].
    intros x. rewrite Hcov. split; [|tauto].
    intros [H|H]; [destruct (contains_nil x H)|exact H].
  - apply init_from_empty_range.
Qed.

Lemma RangeSet_init_covers_witness :
  (exists rs, RangeSet.init [Range 10 15; Range 0 5; Range 4 11] = Ok rs
              /\ RangeSet_inv rs
              /\ forall x, contains rs x
                           <-> contains [Range 10 15; Range 0 5; Range 4 11] x)
  /\ RangeSet.init [Range 0 5; Range 7 7] = Raise AssertionError.
Proof.
  split.
  - apply (proj1 (RangeSet_init_covers [Range 10 15; Range 0 5; Range 4 11])).
    repeat constructor; unfold range_ok; simpl; lia.
  - apply (proj2 (RangeSet_init_covers [Range 0 5; Range 7 7])).
    apply Exists_cons_tl, Exists_cons_hd. simpl. lia.
Defined.

(** [shift] fails with [IndexError] on the empty set; otherwise it returns
    the lowest range, and what is left satisfies the invariant and covers
    what was covered outside that range. *)
Theorem RangeSet_shift_lowest_range (rs : RangeSet.t) :
  RangeSet_inv rs ->
  (rs = [] -> RangeSet.shift rs = Raise IndexError)
  /\ (rs <> [] ->
      exists r rest,
        RangeSet.shift rs = Ok (r, rest)
        /\ RangeSet_inv rest
        /\ (forall q, In q rs -> range_start r <= range_start q)
        /\ forall x, contains rest x <-> contains rs x /\ ~ in_range r x).
Proof.
  intros Hinv. split; [intros ->; reflexivity|]. intros Hne.
  destruct rs as [|r rest]; [congruence|].
  exists r, rest. split; [reflexivity|].
  split; [exact (RangeSet_inv_tail _ _ Hinv)|].
  apply RangeSet_inv_chain in Hinv. destruct Hinv as (Hok & Hc).
  unfold range_ok in Hok.
  pose proof (chain_from_Forall _ _ Hc) as Hall.
  rewrite Forall_forall in Hall. split.
  - intros q [<-|Hq]; [lia|]. apply Hall in Hq. lia.
  - intros x. rewrite contains_cons. split.
    + intros Hx. pose proof (chain_from_contains_above _ _ _ Hc Hx).
      split; [tauto|]. unfold in_range. lia.
    + tauto.
Qed.

Lemma RangeSet_shift_lowest_range_witness :
  exists r rest,
    RangeSet.shift [Range 2 4; Range 10 12] = Ok (r, rest)
    /\ RangeSet_inv rest
    /\ (forall q, In q [Range 2 4; Range 10 12] ->
                  range_start r <= range_start q)
    /\ forall x, contains rest x
                 <-> contains [Range 2 4; Range 10 12] x /\ ~ in_range r x.
Proof.
  apply (proj2 (RangeSet_shift_lowest_range [Range 2 4; Range 10 12]
                  ltac:(apply chain_RangeSet_inv;
                        unfold chain, chain_from, range_ok; simpl; lia))).
  discriminate.
Defined.

(* ================================================================= *)
(** ** Variable-length integers: what the decoder accepts and returns *)

Lemma land_ones_bound (a : Z) (k : Z) :
  0 <= k -> 0 <= Z.land a (Z.ones k) <= 2 ^ k - 1.
Proof.
  intros Hk. rewrite Z.land_ones by assumption.
  pose proof (Z.mod_pos_bound a (2 ^ k) ltac:(apply Z.pow_pos_nonneg; lia)).
  lia.
Qed.

(** Whatever the buffer holds, a value that [pull_uint_var] returns lies in
    [[0, 2^62 - 1]], within the mask of the length class that the top two
    bits of the first byte select, and the cursor has advanced by the 1, 2,
    4 or 8 bytes of that class; the bytes are left alone. *)
Theorem pull_uint_var_returns (buf buf' : Buffer) (v : Z) :
  pull_uint_var buf = Ok (v, buf') ->
  exists (x : Z) (class : nat),
    nth_error (_data buf) (_pos buf) = Some x
    /\ class = Z.to_nat (x / 64) /\ (class <= 3)%nat
    /\ 0 <= v <= uint_var_mask class /\ v <= 2 ^ 62 - 1
    /\ _pos buf' = (_pos buf + Nat.pow 2 class)%nat
    /\ (_pos buf' <= length (_data buf))%nat
    /\ _data buf' = _data buf.
Proof.
  unfold pull_uint_var, bind, reraise, get_pos, data_get, ret.
  destruct (nth_error (_data buf) (_pos buf)) as [x|]; [|discriminate].
  intros H. exists x, (Z.to_nat (x / 64)).
  split; [reflexivity|]. split; [reflexivity|].
  destruct (Z.to_nat (x / 64)) as [|[|[|[|k]]]];
    cbn [nth_error UINT_VAR_FORMATS] in H;
    try (destruct k; discriminate);
    unfold pull_uint8, pull_uint16, pull_uint32, pull_uint64 in H;
    match type of H with
    | context [pull_uint ?n buf] =>
        destruct (pull_uint n buf) as [[w b]|e] eqn:E; [|discriminate];
        injection H as <- <-;
        apply pull_uint_inv in E; destruct E as (Hd & Hp & Hr)
    end.
  - pose proof (land_ones_bound w 6 ltac:(lia)) as Hb.
    change (Z.ones 6) with 63 in Hb.
    repeat split; try assumption; try lia;
      try (unfold uint_var_mask; simpl; lia); rewrite Hp; simpl; lia.
  - pose proof (land_ones_bound w 14 ltac:(lia)) as Hb.
    change (Z.ones 14) with 16383 in Hb.
    repeat split; try assumption; try lia;
      try (unfold uint_var_mask; simpl; lia); rewrite Hp; simpl; lia.
  - pose proof (land_ones_bound w 30 ltac:(lia)) as Hb.
    change (Z.ones 30) with 1073741823 in Hb.
    repeat split; try assumption; try lia;
      try (unfold uint_var_mask; simpl; lia); rewrite Hp; simpl; lia.
  - pose proof (land_ones_bound w 62 ltac:(lia)) as Hb.
    change (Z.ones 62) with 4611686018427387903 in Hb.
    repeat split; try assumption; try lia;
      try (unfold uint_var_mask; simpl; lia); rewrite Hp; simpl; lia.
Qed.

Lemma pull_uint_var_returns_witness :
  exists (x : Z) (class : nat),
    nth_error [0x7F; 0xFF; 9] 0 = Some x
    /\ class = Z.to_nat (x / 64) /\ (class <= 3)%nat
    /\ 0 <= 16383 <= uint_var_mask class /\ 16383 <= 2 ^ 62 - 1
    /\ 2%nat = (0 + Nat.pow 2 class)%nat
    /\ (2 <= length [0x7F; 0xFF; 9])%nat
    /\ [0x7F; 0xFF; 9] = [0x7F; 0xFF; 9].
Proof.
  apply (pull_uint_var_returns (Buffer_data [0x7F; 0xFF; 9])
           (mkBuffer [0x7F; 0xFF; 9] 2) 16383).
  reflexivity.
Defined.

(** [pull_uint_var] fails with [BufferReadError] on an exhausted buffer and
    when fewer bytes remain than the first byte announces; otherwise it
    returns and advances by the announced 1, 2, 4 or 8 bytes. *)
Theorem pull_uint_var_truncation (buf : Buffer) :
  (nth_error (_data buf) (_pos buf) = None ->
   pull_uint_var buf = Raise BufferReadError)
  /\ forall x, nth_error (_data buf) (_pos buf) = Some x -> is_byte x ->
       ((_pos buf + Nat.pow 2 (Z.to_nat (x / 64)) <= length (_data buf))%nat ->
        exists v, pull_uint_var buf
                  = Ok (v, mkBuffer (_data buf)
                             (_pos buf + Nat.pow 2 (Z.to_nat (x / 64)))))
       /\ ((length (_data buf) < _pos buf + Nat.pow 2 (Z.to_nat (x / 64)))%nat
           -> pull_uint_var buf = Raise BufferReadError).
Proof.
  split.
  - intros Hnone. unfold pull_uint_var, bind, reraise, get_pos, data_get.
    rewrite Hnone. reflexivity.
  - intros x Hx Hbyte. unfold is_byte in Hbyte.
    assert (Hclass : 0 <= x / 64 <= 3) by bytes_arith.
    unfold pull_uint_var, bind, reraise, get_pos, data_get, ret.
    rewrite Hx.
    destruct (Z.to_nat (x / 64)) as [|[|[|[|k]]]] eqn:Ek; [| | | |lia];
      cbn [nth_error UINT_VAR_FORMATS Nat.pow Nat.mul Nat.add];
      unfold pull_uint8, pull_uint16, pull_uint32, pull_uint64, pull_uint,
        tell, capacity;
      (split; intros Hroom;
       match goal with
       | |- context [if ?a >? ?b then _ else _] =>
           destruct (Z.gtb_spec a b) as [E|E]
       end;
       [lia|eexists; reflexivity|reflexivity|lia]).
Qed.

Lemma pull_uint_var_truncation_witness :
  (exists v, pull_uint_var (Buffer_data [0x40; 0x25])
             = Ok (v, mkBuffer [0x40; 0x25] 2))
  /\ pull_uint_var (Buffer_data [0xC0; 1; 2]) = Raise BufferReadError
  /\ pull_uint_var (Buffer_data []) = Raise BufferReadError.
Proof.
  split; [|split].
  - apply (proj2 (pull_uint_var_truncation (Buffer_data [0x40; 0x25])) 0x40
             eq_refl ltac:(unfold is_byte; lia)).
    simpl. lia.
  - apply (proj2 (pull_uint_var_truncation (Buffer_data [0xC0; 1; 2])) 0xC0
             eq_refl ltac:(unfold is_byte; lia)).
    simpl. lia.
  - apply (proj1 (pull_uint_var_truncation (Buffer_data []))). reflexivity.
Defined.

(** The decoder accepts every length class, minimal for the value or not:
    a value within the mask of a class, written big-endian in the width of
    that class with the class selector in the first byte, reads back. *)
Theorem pull_uint_var_any_class (class : nat) (v : Z) :
  (class <= 3)%nat -> 0 <= v <= uint_var_mask class ->
  reads pull_uint_var (uint_var_bytes_in class v) v.
Proof.
  intros Hclass Hv. unfold uint_var_bytes_in.
  destruct class as [|[|[|[|k]]]]; [| | | |lia];
    unfold uint_var_mask in Hv; simpl in Hv;
    cbn [be_bytes le_bytes rev app Nat.pow Nat.mul Nat.add Z.of_nat
         Pos.of_succ_nat Pos.succ];
    rewrite lor_selector by bytes_arith.
  - eapply reads_value.
    + eapply (reads_pull_selected 1); [|reflexivity|reflexivity].
      replace ((v mod 256 + 0 * 64) / 64) with 0 by bytes_arith.
      reflexivity.
    + change 0x3F with (Z.ones 6). rewrite Z.land_ones by lia.
      unfold be_value. cbn [fold_left]. change (2 ^ 6) with 64.
      bytes_arith.
  - eapply reads_value.
    + eapply (reads_pull_selected 2); [|reflexivity|reflexivity].
      replace ((v / 256 mod 256 + 1 * 64) / 64) with 1 by bytes_arith.
      reflexivity.
    + change 0x3FFF with (Z.ones 14). rewrite Z.land_ones by lia.
      unfold be_value. cbn [fold_left]. change (2 ^ 14) with 16384.
      bytes_arith.
  - eapply reads_value.
    + eapply (reads_pull_selected 4); [|reflexivity|reflexivity].
      replace ((v / 256 / 256 / 256 mod 256 + 2 * 64) / 64) with 2
        by bytes_arith.
      reflexivity.
    + change 0x3FFFFFFF with (Z.ones 30). rewrite Z.land_ones by lia.
      unfold be_value. cbn [fold_left].
      change (2 ^ 30) with 1073741824.
      bytes_arith.
  - eapply reads_value.
    + eapply (reads_pull_selected 8); [|reflexivity|reflexivity].
      replace ((v / 256 / 256 / 256 / 256 / 256 / 256 / 256 mod 256 + 3 * 64)
               / 64) with 3 by bytes_arith.
      reflexivity.
    + change 0x3FFFFFFFFFFFFFFF with (Z.ones 62).
      rewrite Z.land_ones by lia.
      unfold be_value. cbn [fold_left].
      change (2 ^ 62) with 4611686018427387904.
      bytes_arith.
Qed.

(** The value 5 in the eight-byte class. *)
Lemma pull_uint_var_any_class_witness :
  reads pull_uint_var (uint_var_bytes_in 3 5) 5.
Proof.
  apply (pull_uint_var_any_class 3 5).
  - lia.
  - unfold uint_var_mask. simpl. lia.
Defined.

(* ================================================================= *)
(** ** Connection ID lengths *)

(** ORing below a left shift adds. *)
Lemma lor_shiftl_low (a b k : Z) :
  0 <= k -> 0 <= b < 2 ^ k -> Z.lor (Z.shiftl a k) b = a * 2 ^ k + b.
Proof.
  intros Hk Hb. rewrite Z.shiftl_mul_pow2 by lia.
  assert (Hland : Z.land (a * 2 ^ k) b = 0).
  { apply Z.bits_inj'. intros n Hn. rewrite Z.land_spec, Z.bits_0.
    destruct (Z.lt_ge_cases n k) as [Hlt|Hge].
    - rewrite Z.mul_pow2_bits_low by lia. reflexivity.
    - destruct (Z.eq_dec b 0) as [->|Hne];
        [rewrite Z.bits_0; apply andb_false_r|].
      rewrite (Z.bits_above_log2 b n); [apply andb_false_r|apply Hb|].
      apply Z.log2_lt_pow2; [lia|].
      apply Z.lt_le_trans with (2 ^ k); [apply Hb|].
      apply Z.pow_le_mono_r; lia. }
  rewrite <- Z.lxor_lor by assumption.
  symmetry. apply Z.add_nocarry_lxor. assumption.
Qed.

Lemma encode_cid_length_nibble (n : Z) :
  cid_length_ok n ->
  0 <= encode_cid_length n <= 15
  /\ decode_cid_length (encode_cid_length n) = n.
Proof.
  unfold cid_length_ok, encode_cid_length, decode_cid_length, truthy.
  intros Hn.
  destruct (Z.eqb_spec n 0) as [->|Hne]; simpl; [lia|].
  destruct (Z.eqb_spec (n - 3) 0); simpl; lia.
Qed.

(** The CID-length byte of a long header and what it decodes to. *)
Lemma cid_lengths_byte (n m : Z) :
  cid_length_ok n -> cid_length_ok m ->
  Z.lor (Z.shiftl (encode_cid_length n) 4) (encode_cid_length m)
  = 16 * encode_cid_length n + encode_cid_length m
  /\ 0 <= 16 * encode_cid_length n + encode_cid_length m < 256
  /\ decode_cid_length
       ((16 * encode_cid_length n + encode_cid_length m) / 16) = n
  /\ decode_cid_length
       ((16 * encode_cid_length n + encode_cid_length m) mod 16) = m.
Proof.
  intros Hn Hm.
  destruct (encode_cid_length_nibble n Hn) as [Hen Hdn].
  destruct (encode_cid_length_nibble m Hm) as [Hem Hdm].
  split; [|split; [|split]].
  - rewrite lor_shiftl_low by (simpl; lia). change (2 ^ 4) with 16. lia.
  - lia.
  - replace ((16 * encode_cid_length n + encode_cid_length m) / 16)
      with (encode_cid_length n) by bytes_arith.
    exact Hdn.
  - replace ((16 * encode_cid_length n + encode_cid_length m) mod 16)
      with (encode_cid_length m) by bytes_arith.
    exact Hdm.
Qed.

(** [decode_cid_length] undoes [encode_cid_length] on every length but 3,
    which [encode_cid_length] sends to 0 as it does the length 0; and the
    encoded length fits the four bits of a nibble exactly for the lengths 0
    and 3 to 18. *)
Theorem cid_length_codec (n : Z) :
  (decode_cid_length (encode_cid_length n) = n <-> n <> 3)
  /\ (0 <= encode_cid_length n <= 15 <-> n = 0 \/ 3 <= n <= 18).
Proof.
  unfold encode_cid_length, decode_cid_length, truthy.
  destruct (Z.eqb_spec n 0) as [->|Hne]; simpl; [lia|].
  destruct (Z.eqb_spec (n - 3) 0); simpl; lia.
Qed.

(** Every nibble decodes to a length that is 0 or between 4 and 18, and
    encodes back to itself: a parsed long header never carries a CID of 1,
    2, 3 or more than 18 bytes. *)
Theorem cid_length_nibble (x : Z) :
  0 <= x <= 15 ->
  cid_length_ok (decode_cid_length x)
  /\ encode_cid_length (decode_cid_length x) = x.
Proof.
  unfold cid_length_ok, encode_cid_length, decode_cid_length, truthy.
  intros Hx.
  destruct (Z.eqb_spec x 0) as [->|Hne]; simpl; [lia|].
  destruct (Z.eqb_spec (x + 3) 0); simpl; lia.
Qed.

Lemma cid_length_nibble_witness :
  cid_length_ok (decode_cid_length 15)
  /\ encode_cid_length (decode_cid_length 15) = 15.
Proof.
  apply (cid_length_nibble 15). lia.
Defined.

(* ================================================================= *)
(** ** Long headers of every type *)

Lemma be_value_one (x : Z) : be_value [x] = x.
Proof. unfold be_value. simpl. lia. Qed.

Lemma be_bytes_one (x : Z) : 0 <= x < 256 -> be_bytes 1 x = [x].
Proof.
  intros Hx. unfold be_bytes. simpl. f_equal. bytes_arith.
Qed.

Lemma len_nonneg {A} (l : list A) : 0 <= len l.
Proof. unfold len. lia. Qed.

Section LongHeader.

Variable h : QuicHeader.
Variables pt v : Z.

Hypothesis H_type : packet_type h = Some pt.
Hypothesis H_version : version h = Some v.
Hypothesis H_pt : 0 <= pt < 256.
Hypothesis H_v : 0 <= v < 2 ^ 32.
Hypothesis H_dcid : cid_length_ok (len (destination_cid h)).
Hypothesis H_scid : cid_length_ok (len (source_cid h)).
Hypothesis H_token : len (token h) <= 2 ^ 62 - 1.

Lemma writes_push_long_header :
  writes (push_quic_header h)
         (long_header_bytes pt v (destination_cid h) (source_cid h)
            (token h)).
Proof.
  unfold push_quic_header, long_header_bytes.
  rewrite H_type, H_version.
  destruct (cid_lengths_byte _ _ H_dcid H_scid) as (Hlor & Hbyte & _).
  rewrite Hlor.
  apply writes_bind.
  { eapply writes_bytes; [apply (writes_push_uint 1 pt); simpl; lia|].
    apply be_bytes_one; assumption. }
  apply writes_bind; [apply (writes_push_uint 4 v); simpl; lia|].
  apply writes_bind.
  { eapply writes_bytes;
      [apply (writes_push_uint 1); change (256 ^ Z.of_nat 1) with 256;
       exact Hbyte|].
    apply be_bytes_one; assumption. }
  apply writes_bind; [apply writes_push_bytes|].
  apply writes_bind; [apply writes_push_bytes|].
  apply writes_bind.
  - destruct (Z.land pt PACKET_TYPE_MASK =? PACKET_TYPE_INITIAL).
    + apply writes_bind; [|apply writes_push_bytes].
      apply writes_push_uint_var. pose proof (len_nonneg (token h)). lia.
    + apply writes_ret.
  - apply writes_bind; apply (writes_push_uint 2 0); simpl; lia.
Qed.

End LongHeader.




(* ================================================================= *)
(** ** Headers that take in the rest of the buffer *)

Lemma parses_at_bind {A B} (rest : list Z) (m : M A) (k : A -> M B)
      bs1 bs2 a b extra :
  reads m bs1 a -> parses_at rest (k a) bs2 b extra ->
  parses_at rest (x <- m ;; k x) (bs1 ++ bs2) b extra.
Proof.
  intros Hm Hk buf Hp Hskip. unfold bind.
  rewrite <- app_assoc in Hskip.
  rewrite (Hm buf _ Hp Hskip).
  pose proof (skipn_room _ _ _ _ Hp Hskip) as Hroom.
  rewrite (Hk (mkBuffer (_data buf) (_pos buf + length bs1))); simpl.
  - rewrite length_app. do 2 f_equal. f_equal. lia.
  - lia.
  - apply skipn_more. exact Hskip.
Qed.

(** [buf.capacity - buf.tell()] is the number of bytes that follow. *)
Lemma parses_at_rest_length {A} (rest : list Z) (f : Z -> A) :
  parses_at rest
    (capacity <- get_capacity ;; pos <- get_tell ;; ret (f (capacity - pos)))
    [] (f (len rest)) 0.
Proof.
  intros buf Hp Hskip. unfold bind, get_capacity, get_tell, ret.
  simpl in *.
  assert (Hlen : length (skipn (_pos buf) (_data buf)) = length rest)
    by (rewrite Hskip; reflexivity).
  rewrite length_skipn in Hlen.
  replace (capacity buf - tell buf) with (len rest)
    by (unfold capacity, tell, len; lia).
  destruct buf as [d p]. simpl. do 3 f_equal. lia.
Qed.

(** [pull_bytes(buf, buf.capacity - buf.tell())] takes all that follows. *)
Lemma parses_at_rest_bytes {A} (rest : list Z) (f : list Z -> A) :
  parses_at rest
    (capacity <- get_capacity ;; pos <- get_tell ;;
     token <- pull_bytes (capacity - pos) ;; ret (f token))
    [] (f rest) (length rest).
Proof.
  intros buf Hp Hskip. unfold bind, get_capacity, get_tell, ret, pull_bytes.
  simpl in *.
  assert (Hlen : length (skipn (_pos buf) (_data buf)) = length rest)
    by (rewrite Hskip; reflexivity).
  rewrite length_skipn in Hlen.
  unfold capacity, tell in *.
  destruct (Z.gtb_spec
              (Z.of_nat (_pos buf)
               + (Z.of_nat (length (_data buf)) - Z.of_nat (_pos buf)))
              (Z.of_nat (length (_data buf)))) as [E|E]; [lia|].
  replace (Z.to_nat (Z.of_nat (length (_data buf)) - Z.of_nat (_pos buf)))
    with (length rest) by lia.
  rewrite Hskip. simpl. rewrite firstn_all.
  do 2 f_equal. f_equal. lia.
Qed.

Lemma parses_at_data {A} (rest : list Z) (m : M A) bs a extra :
  parses_at rest m bs a extra ->
  m (Buffer_data (bs ++ rest))
  = Ok (a, mkBuffer (bs ++ rest) (length bs + extra)).
Proof.
  intros H. rewrite (H (Buffer_data (bs ++ rest))); simpl.
  - reflexivity.
  - lia.
  - reflexivity.
Qed.

Lemma parses_at_value {A} (rest : list Z) (m : M A) bs bs' a a' extra :
  parses_at rest m bs a extra -> bs = bs' -> a = a' ->
  parses_at rest m bs' a' extra.
Proof. intros H <- <-. exact H. Qed.

(** The type bits of a first byte decide its long-header and fixed bits. *)
Lemma land_mask_bit (x t b : Z) :
  Z.land x PACKET_TYPE_MASK = t -> Z.land PACKET_TYPE_MASK b = b ->
  Z.land x b = Z.land t b.
Proof.
  intros Ht Hb. rewrite <- Ht, <- Z.land_assoc, Hb. reflexivity.
Qed.

Lemma parses_pull_retry_header (host_cid_length : option Z) (x v : Z)
      (dcid scid odcid token : list Z) :
  Z.land x PACKET_TYPE_MASK = PACKET_TYPE_RETRY ->
  0 < v < 2 ^ 32 ->
  cid_length_ok (len dcid) -> cid_length_ok (len scid) ->
  len odcid = decode_cid_length (Z.land x 0xF) ->
  parses_at token (pull_quic_header host_cid_length)
    ([x] ++ be_bytes 4 v
     ++ [16 * encode_cid_length (len dcid) + encode_cid_length (len scid)]
     ++ dcid ++ scid ++ odcid)
    (mkQuicHeader (Some v) (Some PACKET_TYPE_RETRY) dcid scid odcid token 0)
    (length token).
Proof.
  intros Hx Hv Hdcid Hscid Hodcid.
  destruct (cid_lengths_byte _ _ Hdcid Hscid) as (_ & Hbyte & Hd & Hs).
  assert (Hlong : is_long_header x = true).
  { unfold is_long_header.
    rewrite (land_mask_bit x _ PACKET_LONG_HEADER Hx); reflexivity. }
  assert (Hfixed : truthy (Z.land x PACKET_FIXED_BIT) = true).
  { rewrite (land_mask_bit x _ PACKET_FIXED_BIT Hx); reflexivity. }
  unfold pull_quic_header.
  apply parses_at_bind with (a := x).
  { eapply reads_value; [apply (reads_pull_uint 1 [x]); reflexivity|].
    apply be_value_one. }
  rewrite Hlong.
  apply parses_at_bind with (a := v).
  { eapply reads_value; [apply (reads_pull_uint 4); apply be_bytes_length|].
    apply be_value_be_bytes. simpl. lia. }
  eapply parses_at_bind.
  { eapply reads_value; [apply (reads_pull_uint 1 [_]); reflexivity|].
    apply be_value_one. }
  rewrite Hd, Hs.
  eapply parses_at_bind; [apply reads_pull_bytes|].
  eapply parses_at_bind; [apply reads_pull_bytes|].
  unfold NEGOTIATION. destruct (v =? 0) eqn:E; [lia|].
  rewrite Hfixed, Hx. unfold negb.
  change (PACKET_TYPE_RETRY =? PACKET_TYPE_INITIAL) with false.
  change (PACKET_TYPE_RETRY =? PACKET_TYPE_RETRY) with true. cbv iota.
  rewrite <- Hodcid. rewrite <- (app_nil_r odcid) at 2.
  eapply parses_at_bind; [apply reads_pull_bytes|].
  apply (parses_at_rest_bytes token
           (fun token => mkQuicHeader (Some v) (Some PACKET_TYPE_RETRY) dcid
                           scid odcid token 0)).
Qed.

(** A Retry packet is parsed as: first byte, whose low nibble encodes the
    length of the original destination CID; version; the CID-length byte;
    the destination, source and original destination CIDs; and the token,
    which is everything that follows.  The whole buffer is consumed and
    [rest_length] is 0. *)
Theorem pull_quic_header_retry_layout (host_cid_length : option Z) (x v : Z)
        (dcid scid odcid token : list Z) :
  Z.land x PACKET_TYPE_MASK = PACKET_TYPE_RETRY ->
  0 < v < 2 ^ 32 ->
  cid_length_ok (len dcid) -> cid_length_ok (len scid) ->
  len odcid = decode_cid_length (Z.land x 0xF) ->
  let bs := [x] ++ be_bytes 4 v
            ++ [16 * encode_cid_length (len dcid)
                + encode_cid_length (len scid)]
            ++ dcid ++ scid ++ odcid in
  pull_quic_header host_cid_length (Buffer_data (bs ++ token))
  = Ok (mkQuicHeader (Some v) (Some PACKET_TYPE_RETRY) dcid scid odcid token
          0,
        mkBuffer (bs ++ token) (length (bs ++ token))).
Proof.
  intros Hx Hv Hdcid Hscid Hodcid bs.
  rewrite (parses_at_data token _ bs _ (length token)
             (parses_pull_retry_header host_cid_length x v dcid scid odcid
                token Hx Hv Hdcid Hscid Hodcid)).
  rewrite length_app. reflexivity.
Qed.

(** A Retry packet with a 4-byte original destination CID. *)
Lemma pull_quic_header_retry_layout_witness :
  pull_quic_header None
    (Buffer_data
       (([0xF1] ++ be_bytes 4 0xFF000014 ++ [16 * 5 + 0]
         ++ [1; 2; 3; 4; 5; 6; 7; 8] ++ [] ++ [9; 10; 11; 12])
        ++ [13; 14; 15]))
  = Ok (mkQuicHeader (Some 0xFF000014) (Some PACKET_TYPE_RETRY)
          [1; 2; 3; 4; 5; 6; 7; 8] [] [9; 10; 11; 12] [13; 14; 15] 0,
        mkBuffer
          (([0xF1] ++ be_bytes 4 0xFF000014 ++ [16 * 5 + 0]
            ++ [1; 2; 3; 4; 5; 6; 7; 8] ++ [] ++ [9; 10; 11; 12])
           ++ [13; 14; 15]) 21).
Proof.
  apply (pull_quic_header_retry_layout None 0xF1 0xFF000014
           [1; 2; 3; 4; 5; 6; 7; 8] [] [9; 10; 11; 12] [13; 14; 15]).
  - reflexivity.
  - lia.
  - right. vm_compute. split; congruence.
  - left. reflexivity.
  - reflexivity.
Defined.

(** [push_quic_header] has no branch for a Retry packet.  For a header
    whose packet type has the Retry type bits (0xF0, with any low nibble), a
    non-zero 32-bit version and CIDs of 0 or 4 to 18 bytes, it writes, into
    a fresh buffer with room, the first byte, the version, the CID-length
    byte, the two CIDs and the four zero bytes of the length and packet
    number placeholders: neither the original destination CID nor the token
    of the header is written.  When the packet type is exactly
    [PACKET_TYPE_RETRY], parsing those bytes gives an empty original
    destination CID and the four placeholder bytes as the token, whatever the
    header held. *)
Theorem retry_header_not_carried (h : QuicHeader) (pt v : Z) (cap : nat)
        (host_cid_length : option Z) :
  packet_type h = Some pt ->
  0 <= pt < 256 -> Z.land pt PACKET_TYPE_MASK = PACKET_TYPE_RETRY ->
  version h = Some v -> 0 < v < 2 ^ 32 ->
  cid_length_ok (len (destination_cid h)) ->
  cid_length_ok (len (source_cid h)) ->
  (10 + length (destination_cid h) + length (source_cid h) <= cap)%nat ->
  exists buf,
    push_quic_header h (Buffer_capacity cap) = Ok (tt, buf)
    /\ data buf
       = [pt] ++ be_bytes 4 v
         ++ [16 * encode_cid_length (len (destination_cid h))
             + encode_cid_length (len (source_cid h))]
         ++ destination_cid h ++ source_cid h ++ [0; 0; 0; 0]
    /\ (pt = PACKET_TYPE_RETRY ->
        exists buf',
          pull_quic_header host_cid_length (Buffer_data (data buf))
          = Ok (mkQuicHeader (Some v) (Some PACKET_TYPE_RETRY)
                  (destination_cid h) (source_cid h) [] [0; 0; 0; 0] 0,
                buf')).
Proof.
  intros H_type H_pt H_mask H_version H_v H_dcid H_scid Hcap.
  assert (H_token : len (@nil Z) <= 2 ^ 62 - 1) by (vm_compute; congruence).
  pose (h0 := mkQuicHeader (version h) (packet_type h) (destination_cid h)
                (source_cid h) (original_destination_cid h) [] 0).
  assert (Hsame : push_quic_header h = push_quic_header h0).
  { unfold push_quic_header, h0. cbn [packet_type version destination_cid
      source_cid token]. rewrite H_type, H_version.
    rewrite H_mask.
    change (PACKET_TYPE_RETRY =? PACKET_TYPE_INITIAL) with false.
    reflexivity. }
  assert (Hbytes : long_header_bytes pt v (destination_cid h) (source_cid h)
                     []
                   = [pt] ++ be_bytes 4 v
                     ++ [16 * encode_cid_length (len (destination_cid h))
                         + encode_cid_length (len (source_cid h))]
                     ++ destination_cid h ++ source_cid h ++ [0; 0; 0; 0]).
  { unfold long_header_bytes. rewrite H_mask.
    change (PACKET_TYPE_RETRY =? PACKET_TYPE_INITIAL) with false.
    reflexivity. }
  destruct (writes_fresh _ _ cap
              (writes_push_long_header h0 pt v H_type H_version H_pt
                 ltac:(lia) H_dcid H_scid H_token))
    as (buf & Hpush & Hdata).
  { unfold h0. cbn [destination_cid source_cid token]. rewrite Hbytes.
    rewrite !length_app, be_bytes_length. simpl. lia. }
  unfold h0 in Hdata. cbn [destination_cid source_cid token] in Hdata.
  rewrite Hbytes in Hdata.
  exists buf. split; [rewrite Hsame; exact Hpush|]. split; [exact Hdata|].
  intros ->. eexists. rewrite Hdata.
  replace ([PACKET_TYPE_RETRY] ++ be_bytes 4 v
           ++ [16 * encode_cid_length (len (destination_cid h))
               + encode_cid_length (len (source_cid h))]
           ++ destination_cid h ++ source_cid h ++ [0; 0; 0; 0])
    with (([PACKET_TYPE_RETRY] ++ be_bytes 4 v
           ++ [16 * encode_cid_length (len (destination_cid h))
               + encode_cid_length (len (source_cid h))]
           ++ destination_cid h ++ source_cid h ++ []) ++ [0; 0; 0; 0])
    by (rewrite <- !app_assoc; reflexivity).
  apply parses_at_data.
  apply parses_pull_retry_header; try assumption; reflexivity.
Qed.

Lemma retry_header_not_carried_witness :
  exists buf,
    push_quic_header
      (mkQuicHeader (Some 0xFF000014) (Some PACKET_TYPE_RETRY)
         [1; 2; 3; 4; 5; 6; 7; 8] [] [9; 10; 11; 12] [13; 14] 0)
      (Buffer_capacity 32) = Ok (tt, buf)
    /\ data buf
       = [PACKET_TYPE_RETRY] ++ be_bytes 4 0xFF000014
         ++ [16 * encode_cid_length (len [1; 2; 3; 4; 5; 6; 7; 8])
             + encode_cid_length (len (@nil Z))]
         ++ [1; 2; 3; 4; 5; 6; 7; 8] ++ [] ++ [0; 0; 0; 0]
    /\ (PACKET_TYPE_RETRY = PACKET_TYPE_RETRY ->
        exists buf',
          pull_quic_header None (Buffer_data (data buf))
          = Ok (mkQuicHeader (Some 0xFF000014) (Some PACKET_TYPE_RETRY)
                  [1; 2; 3; 4; 5; 6; 7; 8] [] [] [0; 0; 0; 0] 0,
                buf')).
Proof.
  apply (retry_header_not_carried
           (mkQuicHeader (Some 0xFF000014) (Some PACKET_TYPE_RETRY)
              [1; 2; 3; 4; 5; 6; 7; 8] [] [9; 10; 11; 12] [13; 14] 0)
           PACKET_TYPE_RETRY 0xFF000014 32 None); try reflexivity.
  - vm_compute. split; congruence.
  - lia.
  - right. vm_compute. split; congruence.
  - left. reflexivity.
  - simpl. lia.
Defined.

(* ================================================================= *)
(** ** Version negotiation *)

Lemma lor_long_header_byte (r : Z) :
  is_byte r ->
  is_byte (Z.lor r PACKET_LONG_HEADER)
  /\ is_long_header (Z.lor r PACKET_LONG_HEADER) = true.
Proof.
  unfold is_byte. intros Hr.
  assert (Hnn : 0 <= Z.lor r PACKET_LONG_HEADER)
    by (apply Z.lor_nonneg; unfold PACKET_LONG_HEADER; lia).
  assert (Hbit : Z.testbit (Z.lor r PACKET_LONG_HEADER) 7 = true)
    by (rewrite Z.lor_spec; apply orb_true_r).
  split; [split; [exact Hnn|]|].
  - destruct (Z.eq_dec (Z.lor r PACKET_LONG_HEADER) 0) as [E|E]; [lia|].
    change 256 with (2 ^ 8). apply Z.log2_lt_pow2; [lia|].
    rewrite Z.log2_lor by (unfold PACKET_LONG_HEADER; lia).
    apply Z.max_lub_lt; [|reflexivity].
    destruct (Z.eq_dec r 0) as [->|Hne]; [reflexivity|].
    apply Z.log2_lt_pow2; [lia|]. simpl. lia.
  - unfold is_long_header, truthy.
    destruct (Z.eqb_spec (Z.land (Z.lor r PACKET_LONG_HEADER)
                            PACKET_LONG_HEADER) 0) as [E|E]; [|reflexivity].
    assert (Hb : Z.testbit (Z.land (Z.lor r PACKET_LONG_HEADER)
                              PACKET_LONG_HEADER) 7 = true)
      by (rewrite Z.land_spec, Hbit; reflexivity).
    rewrite E, Z.bits_0 in Hb. discriminate.
Qed.

Lemma writes_push_versions (versions : list Z) :
  Forall (fun version => 0 <= version < 2 ^ 32) versions ->
  writes (push_versions versions) (flat_map (be_bytes 4) versions).
Proof.
  induction 1 as [|version versions Hv _ IH]; cbn [push_versions flat_map].
  - apply writes_ret.
  - apply writes_bind; [apply (writes_push_uint 4); simpl; lia|exact IH].
Qed.

Lemma flat_map_be_bytes_length (versions : list Z) :
  length (flat_map (be_bytes 4) versions) = (4 * length versions)%nat.
Proof.
  induction versions as [|v vs IH]; cbn [flat_map]; [reflexivity|].
  rewrite length_app, be_bytes_length, IH. simpl. lia.
Qed.

Lemma parses_pull_negotiation_header (host_cid_length : option Z) (x : Z)
      (dcid scid rest : list Z) :
  is_long_header x = true ->
  cid_length_ok (len dcid) -> cid_length_ok (len scid) ->
  parses_at rest (pull_quic_header host_cid_length)
    ([x] ++ be_bytes 4 0
     ++ [16 * encode_cid_length (len dcid) + encode_cid_length (len scid)]
     ++ dcid ++ scid)
    (mkQuicHeader (Some 0) None dcid scid [] [] (len rest)) 0.
Proof.
  intros Hlong Hdcid Hscid.
  destruct (cid_lengths_byte _ _ Hdcid Hscid) as (_ & Hbyte & Hd & Hs).
  unfold pull_quic_header.
  apply parses_at_bind with (a := x).
  { eapply reads_value; [apply (reads_pull_uint 1 [x]); reflexivity|].
    apply be_value_one. }
  rewrite Hlong.
  apply parses_at_bind with (a := 0).
  { apply (reads_pull_uint 4 (be_bytes 4 0)). reflexivity. }
  eapply parses_at_bind.
  { eapply reads_value; [apply (reads_pull_uint 1 [_]); reflexivity|].
    apply be_value_one. }
  rewrite Hd, Hs.
  eapply parses_at_bind; [apply reads_pull_bytes|].
  rewrite <- (app_nil_r scid) at 2.
  eapply parses_at_bind; [apply reads_pull_bytes|].
  change (0 =? NEGOTIATION) with true. cbv iota.
  apply (parses_at_rest_length rest
           (fun n => mkQuicHeader (Some 0) None dcid scid [] [] n)).
Qed.

(** A version negotiation packet that fits the 100-byte buffer is: the
    random byte with the long-header bit set, the version 0, the CID-length
    byte, the destination CID, the source CID, and four bytes per supported
    version.  [pull_quic_header] parses it, whatever the random byte, as a
    header with version 0, no packet type, the two CIDs, and the bytes of
    the version list as [rest_length]; it stops before the version list. *)
Theorem version_negotiation_roundtrip (random_byte : Z)
        (source_cid destination_cid : list Z) (supported_versions : list Z)
        (host_cid_length : option Z) :
  is_byte random_byte ->
  cid_length_ok (len destination_cid) -> cid_length_ok (len source_cid) ->
  Forall (fun version => 0 <= version < 2 ^ 32) supported_versions ->
  6 + len destination_cid + len source_cid + 4 * len supported_versions
    <= 100 ->
  let bs := version_negotiation_bytes (Z.lor random_byte PACKET_LONG_HEADER)
              destination_cid source_cid supported_versions in
  encode_quic_version_negotiation random_byte source_cid destination_cid
    supported_versions = Ok bs
  /\ pull_quic_header host_cid_length (Buffer_data bs)
     = Ok (mkQuicHeader (Some 0) None destination_cid source_cid [] []
             (4 * len supported_versions),
           mkBuffer bs (6 + length destination_cid + length source_cid)).
Proof.
  intros Hr Hdcid Hscid Hvs Hfit bs.
  destruct (lor_long_header_byte random_byte Hr) as [Hbyte Hlong].
  destruct (cid_lengths_byte _ _ Hdcid Hscid) as (Hlor & Hcid & _).
  split.
  - unfold encode_quic_version_negotiation.
    assert (Hw : writes
                   (push_uint8 (Z.lor random_byte PACKET_LONG_HEADER) ;;;
                    push_uint32 NEGOTIATION ;;;
                    push_uint8
                      (Z.lor (Z.shiftl (encode_cid_length
                                          (len destination_cid)) 4)
                             (encode_cid_length (len source_cid))) ;;;
                    push_bytes destination_cid ;;;
                    push_bytes source_cid ;;;
                    push_versions supported_versions) bs).
    { unfold bs, version_negotiation_bytes. rewrite Hlor.
      apply writes_bind.
      { eapply writes_bytes;
          [apply (writes_push_uint 1); exact Hbyte|].
        apply be_bytes_one. exact Hbyte. }
      apply writes_bind; [apply (writes_push_uint 4 0); simpl; lia|].
      apply writes_bind.
      { eapply writes_bytes;
          [apply (writes_push_uint 1); exact Hcid|].
        apply be_bytes_one. exact Hcid. }
      apply writes_bind; [apply writes_push_bytes|].
      apply writes_bind; [apply writes_push_bytes|].
      apply writes_push_versions. exact Hvs. }
    destruct (writes_fresh _ _ 100 Hw) as (buf & Hpush & Hdata).
    { unfold bs, version_negotiation_bytes.
      rewrite !length_app, be_bytes_length, flat_map_be_bytes_length.
      unfold len in Hfit. simpl. lia. }
    rewrite Hpush, Hdata. reflexivity.
  - unfold bs, version_negotiation_bytes.
    replace ([Z.lor random_byte PACKET_LONG_HEADER] ++ be_bytes 4 0
             ++ [16 * encode_cid_length (len destination_cid)
                 + encode_cid_length (len source_cid)]
             ++ destination_cid ++ source_cid
             ++ flat_map (be_bytes 4) supported_versions)
      with (([Z.lor random_byte PACKET_LONG_HEADER] ++ be_bytes 4 0
             ++ [16 * encode_cid_length (len destination_cid)
                 + encode_cid_length (len source_cid)]
             ++ destination_cid ++ source_cid)
            ++ flat_map (be_bytes 4) supported_versions)
      by (rewrite <- !app_assoc; reflexivity).
    rewrite (parses_at_data _ _ _ _ 0
               (parses_pull_negotiation_header host_cid_length _
                  destination_cid source_cid
                  (flat_map (be_bytes 4) supported_versions)
                  Hlong Hdcid Hscid)).
    f_equal. f_equal.
    + f_equal. unfold len. rewrite flat_map_be_bytes_length. lia.
    + f_equal. rewrite !length_app, be_bytes_length. cbn [length]. lia.
Qed.

(** Two versions, 8-byte CIDs. *)
Lemma version_negotiation_roundtrip_witness :
  let bs := version_negotiation_bytes (Z.lor 0x5A PACKET_LONG_HEADER)
              [1; 2; 3; 4; 5; 6; 7; 8] [9; 10; 11; 12; 13; 14; 15; 16]
              [0xFF000013; 0xFF000014] in
  encode_quic_version_negotiation 0x5A [9; 10; 11; 12; 13; 14; 15; 16]
    [1; 2; 3; 4; 5; 6; 7; 8] [0xFF000013; 0xFF000014] = Ok bs
  /\ pull_quic_header None (Buffer_data bs)
     = Ok (mkQuicHeader (Some 0) None [1; 2; 3; 4; 5; 6; 7; 8]
             [9; 10; 11; 12; 13; 14; 15; 16] [] [] (4 * 2),
           mkBuffer bs 22).
Proof.
  apply (version_negotiation_roundtrip 0x5A [9; 10; 11; 12; 13; 14; 15; 16]
           [1; 2; 3; 4; 5; 6; 7; 8] [0xFF000013; 0xFF000014] None).
  - unfold is_byte. lia.
  - right. vm_compute. split; congruence.
  - right. vm_compute. split; congruence.
  - repeat constructor; lia.
  - vm_compute. congruence.
Defined.

(* ================================================================= *)
(** ** Short headers *)

(** A short-header packet with the fixed bit set is parsed as: first byte,
    then a destination CID of the length the caller gives; the packet type
    is the high nibble of the first byte, [rest_length] counts the bytes
    that follow the CID, and no version, source CID or token is set. *)
Theorem pull_quic_header_short (x : Z) (dcid rest : list Z) :
  is_long_header x = false ->
  Z.land x PACKET_FIXED_BIT <> 0 ->
  pull_quic_header (Some (len dcid)) (Buffer_data ([x] ++ dcid ++ rest))
  = Ok (mkQuicHeader None (Some (Z.land x PACKET_TYPE_MASK)) dcid [] [] []
          (len rest),
        mkBuffer ([x] ++ dcid ++ rest) (1 + length dcid)).
Proof.
  intros Hshort Hfixed.
  assert (Hf : truthy (Z.land x PACKET_FIXED_BIT) = true).
  { unfold truthy. destruct (Z.eqb_spec (Z.land x PACKET_FIXED_BIT) 0);
      [contradiction|reflexivity]. }
  assert (Hp : parses_at rest (pull_quic_header (Some (len dcid)))
                 ([x] ++ dcid)
                 (mkQuicHeader None (Some (Z.land x PACKET_TYPE_MASK))
                    dcid [] [] [] (len rest)) 0).
  { unfold pull_quic_header.
    apply parses_at_bind with (a := x).
    { eapply reads_value; [apply (reads_pull_uint 1 [x]); reflexivity|].
      apply be_value_one. }
    rewrite Hshort, Hf. unfold negb.
    rewrite <- (app_nil_r dcid) at 2.
    eapply parses_at_bind; [apply reads_pull_bytes|].
    apply (parses_at_rest_length rest
             (fun n => mkQuicHeader None (Some (Z.land x PACKET_TYPE_MASK))
                         dcid [] [] [] n)). }
  pose proof (parses_at_data _ _ _ _ _ Hp) as H.
  rewrite <- app_assoc in H. rewrite H.
  do 3 f_equal. rewrite length_app. simpl. lia.
Qed.

Lemma pull_quic_header_short_witness :
  pull_quic_header (Some (len [1; 2; 3; 4; 5; 6; 7; 8]))
    (Buffer_data ([0x43] ++ [1; 2; 3; 4; 5; 6; 7; 8] ++ [9; 10]))
  = Ok (mkQuicHeader None (Some (Z.land 0x43 PACKET_TYPE_MASK))
          [1; 2; 3; 4; 5; 6; 7; 8] [] [] [] (len [9; 10]),
        mkBuffer ([0x43] ++ [1; 2; 3; 4; 5; 6; 7; 8] ++ [9; 10])
          (1 + length [1; 2; 3; 4; 5; 6; 7; 8])).
Proof.
  apply (pull_quic_header_short 0x43 [1; 2; 3; 4; 5; 6; 7; 8] [9; 10]).
  - reflexivity.
  - vm_compute. congruence.
Defined.

(* ================================================================= *)
(** ** What a parsed header always satisfies *)

Lemma advanced_trans (b1 b2 b3 : Buffer) :
  advanced b1 b2 -> advanced b2 b3 -> advanced b1 b3.
Proof.
  unfold advanced. intros (Hd1 & Hp1) (Hd2 & Hp2).
  rewrite Hd1 in *. split; [assumption|lia].
Qed.

Lemma pull_uint_advanced (n : nat) (buf buf' : Buffer) (v : Z) :
  pull_uint n buf = Ok (v, buf') -> advanced buf buf'.
Proof.
  intros H. apply pull_uint_inv in H. destruct H as (Hd & Hp & Hroom).
  split; [assumption|lia].
Qed.

Lemma pull_uint8_head (buf buf' : Buffer) (x : Z) :
  pull_uint8 buf = Ok (x, buf') ->
  nth_error (_data buf) (_pos buf) = Some x
  /\ (_pos buf < _pos buf')%nat.
Proof.
  intros H. pose proof (pull_uint_inv 1 _ _ _ H) as (Hd & Hp & Hroom).
  unfold pull_uint8, pull_uint in H.
  destruct (tell buf + Z.of_nat 1 >? capacity buf); [discriminate|].
  injection H as Hx _.
  destruct (skipn (_pos buf) (_data buf)) as [|y r] eqn:E.
  - apply (f_equal (@length Z)) in E. rewrite length_skipn in E.
    simpl in E. lia.
  - simpl in Hx. rewrite be_value_one in Hx. subst y.
    split; [exact (nth_error_skipn_hd _ _ _ _ E)|lia].
Qed.

Lemma pull_bytes_advanced (n : Z) (buf buf' : Buffer) (v : list Z) :
  (_pos buf <= length (_data buf))%nat ->
  pull_bytes n buf = Ok (v, buf') ->
  advanced buf buf' /\ (0 <= n -> len v = n).
Proof.
  intros Hpos. unfold pull_bytes, tell, capacity.
  destruct (Z.gtb_spec (Z.of_nat (_pos buf) + n)
              (Z.of_nat (length (_data buf)))) as [E|E]; [discriminate|].
  intros H. injection H as <- <-. unfold advanced. simpl.
  split; [split; [reflexivity|lia]|].
  intros Hn. unfold len. rewrite length_firstn, length_skipn. lia.
Qed.

Lemma pull_uint_var_advanced (buf buf' : Buffer) (v : Z) :
  pull_uint_var buf = Ok (v, buf') -> advanced buf buf' /\ 0 <= v.
Proof.
  unfold pull_uint_var, bind, reraise, get_pos, data_get, ret.
  destruct (nth_error (_data buf) (_pos buf)) as [x|]; [|discriminate].
  destruct (nth_error UINT_VAR_FORMATS (Z.to_nat (x / 64)))
    as [[[pull push] mask]|] eqn:E; [|discriminate].
  assert (Hpull : exists n k, pull = pull_uint n /\ mask = Z.ones k
                              /\ 0 <= k).
  { destruct (Z.to_nat (x / 64)) as [|[|[|[|k]]]]; simpl in E.
    - injection E as <- _ <-. exists 1%nat, 6. repeat split. lia.
    - injection E as <- _ <-. exists 2%nat, 14. repeat split. lia.
    - injection E as <- _ <-. exists 4%nat, 30. repeat split. lia.
    - injection E as <- _ <-. exists 8%nat, 62. repeat split. lia.
    - destruct k; discriminate. }
  destruct Hpull as (n & k & -> & -> & Hk).
  destruct (pull_uint n buf) as [[w b]|e] eqn:E2; [|discriminate].
  intros H. injection H as <- <-.
  split; [exact (pull_uint_advanced _ _ _ _ E2)|].
  apply land_ones_bound. exact Hk.
Qed.

Lemma decode_cid_length_ok (x : Z) :
  0 <= x <= 15 -> cid_length_ok (decode_cid_length x).
Proof.
  unfold cid_length_ok, decode_cid_length, truthy. intros Hx.
  destruct (Z.eqb_spec x 0); simpl; lia.
Qed.

Lemma land_type_long_header (x : Z) :
  is_long_header (Z.land x PACKET_TYPE_MASK) = is_long_header x.
Proof.
  unfold is_long_header. rewrite <- Z.land_assoc. reflexivity.
Qed.

(** Whatever bytes the buffer holds, a header that [pull_quic_header]
    returns satisfies: its [is_long_header] property agrees with the
    long-header bit of the first byte read; it has a version exactly when
    that bit is set; the destination, source and original destination CIDs
    of a long header are each 0 or 4 to 18 bytes long; [rest_length] is not
    negative; and the cursor has moved forward, within the unchanged
    data. *)
Theorem pull_quic_header_returns (host_cid_length : option Z)
        (buf buf' : Buffer) (h : QuicHeader) :
  Forall is_byte (_data buf) ->
  pull_quic_header host_cid_length buf = Ok (h, buf') ->
  exists x,
    nth_error (_data buf) (_pos buf) = Some x
    /\ QuicHeader_is_long_header h = is_long_header x
    /\ (version h = None <-> is_long_header x = false)
    /\ (is_long_header x = true ->
        cid_length_ok (len (destination_cid h))
        /\ cid_length_ok (len (source_cid h))
        /\ cid_length_ok (len (original_destination_cid h)))
    /\ 0 <= rest_length h
    /\ _data buf' = _data buf
    /\ (_pos buf < _pos buf' <= length (_data buf))%nat.
Proof.
  intros Hbytes H. unfold pull_quic_header in H. unfold bind at 1 in H.
  destruct (pull_uint8 buf) as [[x b1]|e] eqn:E1; [|discriminate].
  destruct (pull_uint8_head _ _ _ E1) as (Hx & Hlt).
  pose proof (pull_uint_advanced 1 _ _ _ E1) as A1.
  exists x. split; [exact Hx|].
  destruct (is_long_header x) eqn:Hlong.
  - (* long header *)
    unfold bind at 1 in H.
    destruct (pull_uint32 b1) as [[v b2]|e] eqn:E2; [|discriminate].
    pose proof (pull_uint_advanced 4 _ _ _ E2) as A2.
    unfold bind at 1 in H.
    destruct (pull_uint8 b2) as [[c b3]|e] eqn:E3; [|discriminate].
    pose proof (pull_uint_advanced 1 _ _ _ E3) as A3.
    destruct (pull_uint8_head _ _ _ E3) as (Hc & _).
    assert (Hcb : is_byte c).
    { apply nth_error_In in Hc. destruct A1 as (D1 & _), A2 as (D2 & _).
      rewrite D2, D1 in Hc.
      exact (proj1 (Forall_forall _ _) Hbytes c Hc). }
    unfold is_byte in Hcb.
    assert (Hhi : 0 <= c / 16 <= 15) by bytes_arith.
    assert (Hlo : 0 <= c mod 16 <= 15) by bytes_arith.
    pose proof (decode_cid_length_ok _ Hhi) as Hdl.
    pose proof (decode_cid_length_ok _ Hlo) as Hsl.
    unfold bind at 1 in H.
    destruct (pull_bytes (decode_cid_length (c / 16)) b3)
      as [[dcid b4]|e] eqn:E4; [|discriminate].
    pose proof (advanced_trans _ _ _ A2 A3) as A13.
    destruct (pull_bytes_advanced _ _ _ _ ltac:(destruct A13 as (D & P);
                                               rewrite D; lia) E4)
      as (A4 & Hdlen).
    rewrite <- Hdlen in Hdl by (unfold cid_length_ok in Hdl; lia).
    pose proof (advanced_trans _ _ _ A13 A4) as A14.
    unfold bind at 1 in H.
    destruct (pull_bytes (decode_cid_length (c mod 16)) b4)
      as [[scid b5]|e] eqn:E5; [|discriminate].
    destruct (pull_bytes_advanced _ _ _ _ ltac:(destruct A14 as (D & P);
                                               rewrite D; lia) E5)
      as (A5 & Hslen).
    rewrite <- Hslen in Hsl by (unfold cid_length_ok in Hsl; lia).
    pose proof (advanced_trans _ _ _ A14 A5) as A15.
    assert (Hzero : cid_length_ok (len (@nil Z))) by (left; reflexivity).
    destruct (v =? NEGOTIATION).
    + (* version negotiation *)
      unfold bind, get_capacity, get_tell, ret in H.
      injection H as <- <-. cbn [version packet_type destination_cid
        source_cid original_destination_cid rest_length
        QuicHeader_is_long_header].
      destruct (advanced_trans _ _ _ A1 A15) as (D & P).
      destruct A15 as (D' & P'). unfold capacity, tell. rewrite D.
      repeat split; try assumption; try discriminate; try lia.
    + destruct (truthy (Z.land x PACKET_FIXED_BIT)); [|discriminate].
      unfold negb in H.
      destruct (Z.land x PACKET_TYPE_MASK =? PACKET_TYPE_INITIAL).
      * unfold bind at 1 in H.
        destruct (pull_uint_var b5) as [[tl b6]|e] eqn:E6; [|discriminate].
        destruct (pull_uint_var_advanced _ _ _ E6) as (A6 & Htl).
        pose proof (advanced_trans _ _ _ A15 A6) as A16.
        unfold bind at 1 in H.
        destruct (pull_bytes tl b6) as [[tok b7]|e] eqn:E7; [|discriminate].
        destruct (pull_bytes_advanced _ _ _ _ ltac:(destruct A16 as (D & P);
                                                   rewrite D; lia) E7)
          as (A7 & _).
        pose proof (advanced_trans _ _ _ A16 A7) as A17.
        unfold bind at 1 in H.
        destruct (pull_uint_var b7) as [[rl b8]|e] eqn:E8; [|discriminate].
        destruct (pull_uint_var_advanced _ _ _ E8) as (A8 & Hrl).
        pose proof (advanced_trans _ _ _ A17 A8) as A18.
        destruct (advanced_trans _ _ _ A1 A18) as (D & P).
        destruct A18 as (D' & P').
        unfold ret in H. injection H as <- <-.
        cbn [version packet_type destination_cid source_cid
             original_destination_cid rest_length QuicHeader_is_long_header].
        rewrite land_type_long_header.
        repeat split; try assumption; try discriminate; try lia.
      * destruct (Z.land x PACKET_TYPE_MASK =? PACKET_TYPE_RETRY).
        -- unfold bind at 1 in H.
           assert (Hn : 0 <= Z.land x 0xF <= 15)
             by (apply (land_ones_bound x 4); lia).
           pose proof (decode_cid_length_ok _ Hn) as Hol.
           destruct (pull_bytes (decode_cid_length (Z.land x 15)) b5)
             as [[odcid b6]|e] eqn:E6; [|discriminate].
           destruct (pull_bytes_advanced _ _ _ _
                       ltac:(destruct A15 as (D & P); rewrite D; lia) E6)
             as (A6 & Holen).
           rewrite <- Holen in Hol by (unfold cid_length_ok in Hol; lia).
           pose proof (advanced_trans _ _ _ A15 A6) as A16.
           unfold bind at 1 2 in H. unfold get_capacity, get_tell in H.
           unfold bind at 1 in H.
           destruct (pull_bytes (capacity b6 - tell b6) b6)
             as [[tok b7]|e] eqn:E7; [|discriminate].
           destruct (pull_bytes_advanced _ _ _ _
                       ltac:(destruct A16 as (D & P); rewrite D; lia) E7)
             as (A7 & _).
           pose proof (advanced_trans _ _ _ A16 A7) as A17.
           destruct (advanced_trans _ _ _ A1 A17) as (D & P).
           destruct A17 as (D' & P').
           unfold ret in H. injection H as <- <-.
           cbn [version packet_type destination_cid source_cid
                original_destination_cid rest_length
                QuicHeader_is_long_header].
           rewrite land_type_long_header.
           repeat split; try assumption; try discriminate; try lia.
        -- unfold bind at 1 in H.
           destruct (pull_uint_var b5) as [[rl b6]|e] eqn:E6;
             [|discriminate].
           destruct (pull_uint_var_advanced _ _ _ E6) as (A6 & Hrl).
           pose proof (advanced_trans _ _ _ A15 A6) as A16.
           destruct (advanced_trans _ _ _ A1 A16) as (D & P).
           destruct A16 as (D' & P').
           unfold ret in H. injection H as <- <-.
           cbn [version packet_type destination_cid source_cid
                original_destination_cid rest_length
                QuicHeader_is_long_header].
           rewrite land_type_long_header.
           repeat split; try assumption; try discriminate; try lia.
  - (* short header *)
    destruct (truthy (Z.land x PACKET_FIXED_BIT)); [|discriminate].
    unfold negb in H.
    destruct host_cid_length as [n|]; [|discriminate].
    unfold bind at 1 in H.
    destruct (pull_bytes n b1) as [[dcid b2]|e] eqn:E2; [|discriminate].
    destruct (pull_bytes_advanced _ _ _ _
                ltac:(destruct A1 as (D & P); rewrite D; lia) E2)
      as (A2 & _).
    destruct (advanced_trans _ _ _ A1 A2) as (D & P).
    unfold bind, get_capacity, get_tell, ret in H.
    injection H as <- <-.
    cbn [version packet_type destination_cid source_cid
         original_destination_cid rest_length QuicHeader_is_long_header].
    rewrite land_type_long_header. unfold capacity, tell. rewrite D.
    destruct A2 as (D2 & P2).
    repeat split; try assumption; try discriminate; try reflexivity; try lia.
Qed.

Lemma pull_quic_header_returns_witness :
  exists x,
    nth_error [0xE0; 0xFF; 0; 0; 0x14; 0x50; 1; 2; 3; 4; 5; 6; 7; 8; 0x05]
      0 = Some x
    /\ QuicHeader_is_long_header
         (mkQuicHeader (Some 0xFF000014) (Some PACKET_TYPE_HANDSHAKE)
            [1; 2; 3; 4; 5; 6; 7; 8] [] [] [] 5) = is_long_header x
    /\ (Some 0xFF000014 = None <-> is_long_header x = false)
    /\ (is_long_header x = true ->
        cid_length_ok (len [1; 2; 3; 4; 5; 6; 7; 8])
        /\ cid_length_ok (len (@nil Z))
        /\ cid_length_ok (len (@nil Z)))
    /\ 0 <= 5
    /\ [0xE0; 0xFF; 0; 0; 0x14; 0x50; 1; 2; 3; 4; 5; 6; 7; 8; 0x05]
       = [0xE0; 0xFF; 0; 0; 0x14; 0x50; 1; 2; 3; 4; 5; 6; 7; 8; 0x05]
    /\ (0 < 15 <= 15)%nat.
Proof.
  apply (pull_quic_header_returns None
           (Buffer_data
              [0xE0; 0xFF; 0; 0; 0x14; 0x50; 1; 2; 3; 4; 5; 6; 7; 8; 0x05])
           (mkBuffer
              [0xE0; 0xFF; 0; 0; 0x14; 0x50; 1; 2; 3; 4; 5; 6; 7; 8; 0x05]
              15)
           (mkQuicHeader (Some 0xFF000014) (Some PACKET_TYPE_HANDSHAKE)
              [1; 2; 3; 4; 5; 6; 7; 8] [] [] [] 5)).
  - repeat constructor; unfold is_byte; lia.
  - reflexivity.
Defined.

(* ================================================================= *)
(** ** Stream frames *)

(** A writer followed by a two-byte length field that is reserved, then
    backpatched once the payload is written. *)
Lemma writes_length_patched (pre : M unit) (pbs payload : list Z) :
  writes pre pbs ->
  0 <= Z.lor (len payload) 0x4000 < 2 ^ 16 ->
  writes (pre ;;;
          push_uint16 0 ;;;
          start <- get_tell ;;
          push_bytes payload ;;;
          end_ <- get_tell ;;
          seek (start - 2) ;;;
          push_uint16 (Z.lor (end_ - start) 0x4000) ;;;
          seek end_)
         (pbs ++ be_bytes 2 (Z.lor (len payload) 0x4000) ++ payload).
Proof.
  intros Hpre Hlen [d p] Hroom. cbn [_pos _data] in Hroom.
  rewrite !length_app, be_bytes_length in Hroom.
  unfold bind at 1.
  rewrite (Hpre (mkBuffer d p)) by (simpl; lia).
  unfold bind at 1. unfold push_uint16.
  rewrite (writes_push_uint 2 0) by
    (simpl; rewrite ?write_at_length by lia; lia).
  cbn [_pos _data]. rewrite write_at_app by (simpl; lia).
  unfold bind at 1. unfold get_tell at 1. unfold tell. cbn [_pos _data].
  unfold bind at 1.
  rewrite (writes_push_bytes payload)
    by (simpl; rewrite write_at_length by (rewrite length_app; simpl; lia);
        lia).
  cbn [_pos _data].
  rewrite <- (Nat.add_assoc p), <- length_app.
  rewrite write_at_app by (rewrite length_app; simpl; lia).
  unfold bind at 1. unfold get_tell at 1. unfold tell. cbn [_pos _data].
  assert (Hlen3 : length ((pbs ++ be_bytes 2 0) ++ payload)
                  = (length pbs + 2 + length payload)%nat)
    by (rewrite !length_app, be_bytes_length; reflexivity).
  assert (Hcap : length (write_at p ((pbs ++ be_bytes 2 0) ++ payload) d)
                 = length d)
    by (apply write_at_length; lia).
  unfold bind at 1. unfold seek at 1. unfold capacity. cbn [_pos _data].
  rewrite Hcap, length_app, be_bytes_length.
  assert (E1 : (0 <=? Z.of_nat (p + (length pbs + 2)) - 2)
               && (Z.of_nat (p + (length pbs + 2)) - 2
                   <=? Z.of_nat (length d))
               = true)
    by (apply andb_true_iff; split; apply Z.leb_le; lia).
  rewrite E1.
  replace (Z.to_nat (Z.of_nat (p + (length pbs + 2)) - 2))
    with (p + length pbs)%nat by lia.
  replace (Z.of_nat (p + (length pbs + 2) + length payload)
           - Z.of_nat (p + (length pbs + 2))) with (len payload)
    by (unfold len; lia).
  unfold bind at 1.
  rewrite (writes_push_uint 2 _ Hlen) by (simpl; lia).
  cbn [_pos _data].
  rewrite <- app_assoc.
  rewrite write_at_patch;
    [|rewrite !be_bytes_length; reflexivity
     |rewrite !length_app, be_bytes_length; lia].
  unfold seek, capacity. cbn [_pos _data].
  rewrite write_at_length
    by (rewrite !length_app, be_bytes_length; lia).
  assert (E2 : (0 <=? Z.of_nat (p + (length pbs + 2) + length payload))
               && (Z.of_nat (p + (length pbs + 2) + length payload)
                   <=? Z.of_nat (length d)) = true)
    by (apply andb_true_iff; split; apply Z.leb_le; lia).
  rewrite E2.
  rewrite Nat2Z.id. rewrite !length_app, be_bytes_length.
  replace (p + (length pbs + 2) + length payload)%nat
    with (p + (length pbs + (2 + length payload)))%nat by lia.
  reflexivity.
Qed.

Lemma bind_assoc {A B C} (m : M A) (f : A -> M B) (g : B -> M C)
      (buf : Buffer) :
  bind (bind m f) g buf = bind m (fun x => bind (f x) g) buf.
Proof.
  unfold bind. destruct (m buf) as [[a b]|e]; reflexivity.
Qed.

Lemma writes_ext (m m' : M unit) (bs : list Z) :
  (forall buf, m buf = m' buf) -> writes m bs -> writes m' bs.
Proof. intros He H buf Hroom. rewrite <- He. exact (H buf Hroom). Qed.

(** With a body that pushes [payload] of at most 0x3FFF bytes, into a
    fresh buffer with room, [push_stream_frame] leaves: the stream id; the
    offset, unless it is 0, in which case no offset field is written; the
    length of the payload as a two-byte variable-length integer; and the
    payload. *)
Theorem push_stream_frame_layout (stream_id offset : Z) (payload : list Z)
        (cap : nat) :
  0 <= stream_id <= 2 ^ 62 - 1 ->
  0 <= offset <= 2 ^ 62 - 1 ->
  len payload <= 0x3FFF ->
  (length (uint_var_bytes stream_id) + length (uint_var_bytes offset) + 2
   + length payload <= cap)%nat ->
  exists buf,
    push_stream_frame stream_id offset (push_bytes payload)
      (Buffer_capacity cap) = Ok (tt, buf)
    /\ data buf
       = uint_var_bytes stream_id
         ++ (if offset =? 0 then [] else uint_var_bytes offset)
         ++ be_bytes 2 (len payload + 0x4000) ++ payload.
Proof.
  intros Hsid Hoff Hlen Hcap.
  assert (Hlor : Z.lor (len payload) 0x4000 = len payload + 0x4000)
    by (apply lor_length_tag; unfold len in *; lia).
  apply writes_fresh;
    [|rewrite !length_app, be_bytes_length;
      destruct (offset =? 0); simpl; lia].
  assert (Hpre : writes
                   (push_uint_var stream_id ;;;
                    (if truthy offset then push_uint_var offset else ret tt))
                   (uint_var_bytes stream_id
                    ++ (if offset =? 0 then [] else uint_var_bytes offset))).
  { apply writes_bind; [apply writes_push_uint_var; exact Hsid|].
    unfold truthy. destruct (offset =? 0); simpl.
    - apply writes_ret.
    - apply writes_push_uint_var. exact Hoff. }
  pose proof (writes_length_patched _ _ payload Hpre
                ltac:(rewrite Hlor; unfold len in *; lia)) as Hw.
  rewrite Hlor, <- app_assoc in Hw.
  eapply writes_ext; [|exact Hw].
  intros buf. unfold push_stream_frame.
  rewrite bind_assoc. reflexivity.
Qed.

(** Stream 4 at offset 0: no offset field. *)
Lemma push_stream_frame_layout_witness :
  exists buf,
    push_stream_frame 4 0 (push_bytes [7; 8; 9]) (Buffer_capacity 16)
    = Ok (tt, buf)
    /\ data buf
       = uint_var_bytes 4
         ++ (if 0 =? 0 then [] else uint_var_bytes 0)
         ++ be_bytes 2 (len [7; 8; 9] + 0x4000) ++ [7; 8; 9].
Proof.
  apply (push_stream_frame_layout 4 0 [7; 8; 9] 16).
  - lia.
  - lia.
  - vm_compute. congruence.
  - simpl. lia.
Defined.

(* ================================================================= *)
(** ** NEW_TOKEN and NEW_CONNECTION_ID frames *)

(** Every token whose length a variable-length integer can count
    round-trips, the empty token included: [push_new_token_frame] writes the
    length and the token, and [pull_new_token_frame] on those bytes returns
    the token and consumes the whole frame.  If the frame is cut anywhere
    inside the token, [pull_new_token_frame] raises [BufferReadError]. *)
Theorem new_token_frame_roundtrip (token : list Z) (cap : nat) :
  len token <= 2 ^ 62 - 1 ->
  (length (uint_var_bytes (len token)) + length token <= cap)%nat ->
  (exists buf,
     push_new_token_frame token (Buffer_capacity cap) = Ok (tt, buf)
     /\ data buf = uint_var_bytes (len token) ++ token
     /\ pull_new_token_frame (Buffer_data (data buf))
        = Ok (token, mkBuffer (data buf) (length (data buf))))
  /\ forall k : nat, (k < length token)%nat ->
       pull_new_token_frame
         (Buffer_data (uint_var_bytes (len token) ++ firstn k token))
       = Raise BufferReadError.
Proof.
  intros Hlen Hcap. pose proof (len_nonneg token) as H0.
  split.
  - assert (Hw : writes (push_new_token_frame token)
                   (uint_var_bytes (len token) ++ token)).
    { unfold push_new_token_frame.
      apply writes_bind; [apply writes_push_uint_var; lia|].
      apply writes_push_bytes. }
    destruct (writes_fresh _ _ cap Hw) as (buf & Hpush & Hdata).
    { rewrite length_app. lia. }
    exists buf. split; [exact Hpush|]. split; [exact Hdata|].
    rewrite Hdata. apply reads_data. unfold pull_new_token_frame.
    eapply reads_bind; [apply reads_pull_uint_var; lia|].
    apply reads_pull_bytes.
  - intros k Hk. unfold pull_new_token_frame. unfold bind.
    rewrite (reads_data_prefix pull_uint_var _ (firstn k token) _
               (reads_pull_uint_var (len token) ltac:(lia))).
    unfold pull_bytes, tell, capacity. cbn [_pos _data].
    rewrite length_app, length_firstn.
    destruct (Z.gtb_spec
                (Z.of_nat (length (uint_var_bytes (len token))) + len token)
                (Z.of_nat (length (uint_var_bytes (len token))
                           + Nat.min k (length token)))) as [E|E];
      [reflexivity|unfold len in E; lia].
Qed.

Lemma new_token_frame_roundtrip_witness :
  (exists buf,
     push_new_token_frame [1; 2; 3] (Buffer_capacity 8) = Ok (tt, buf)
     /\ data buf = uint_var_bytes (len [1; 2; 3]) ++ [1; 2; 3]
     /\ pull_new_token_frame (Buffer_data (data buf))
        = Ok ([1; 2; 3], mkBuffer (data buf) (length (data buf))))
  /\ forall k : nat, (k < length [1; 2; 3])%nat ->
       pull_new_token_frame
         (Buffer_data (uint_var_bytes (len [1; 2; 3])
                       ++ firstn k [1; 2; 3]))
       = Raise BufferReadError.
Proof.
  apply (new_token_frame_roundtrip [1; 2; 3] 8).
  - vm_compute. congruence.
  - simpl. lia.
Defined.

(** The empty token: the frame is the single length byte 0. *)
Example new_token_frame_empty :
  push_new_token_frame [] (Buffer_capacity 1) = Ok (tt, mkBuffer [0] 1)
  /\ pull_new_token_frame (Buffer_data [0]) = Ok ([], mkBuffer [0] 1).
Proof. split; reflexivity. Qed.

(** A NEW_CONNECTION_ID frame round-trips for every sequence number a
    variable-length integer holds, every connection ID of up to 255 bytes
    (the length field is one byte; nothing restricts it to the 4 to 18
    bytes of a header CID) and every 16-byte stateless reset token. *)
Theorem new_connection_id_frame_roundtrip (sequence_number : Z)
        (connection_id stateless_reset_token : list Z) (cap : nat) :
  0 <= sequence_number <= 2 ^ 62 - 1 ->
  len connection_id <= 255 ->
  len stateless_reset_token = 16 ->
  (length (uint_var_bytes sequence_number) + 1 + length connection_id + 16
   <= cap)%nat ->
  exists buf,
    push_new_connection_id_frame sequence_number connection_id
      stateless_reset_token (Buffer_capacity cap) = Ok (tt, buf)
    /\ data buf = uint_var_bytes sequence_number ++ [len connection_id]
                  ++ connection_id ++ stateless_reset_token
    /\ pull_new_connection_id_frame (Buffer_data (data buf))
       = Ok ((sequence_number, connection_id, stateless_reset_token),
             mkBuffer (data buf) (length (data buf))).
Proof.
  intros Hseq Hcid Htok Hcap. pose proof (len_nonneg connection_id) as H0.
  assert (Hw : writes (push_new_connection_id_frame sequence_number
                         connection_id stateless_reset_token)
                 (uint_var_bytes sequence_number ++ [len connection_id]
                  ++ connection_id ++ stateless_reset_token)).
  { unfold push_new_connection_id_frame. rewrite Htok.
    change (assert (16 =? 16)) with (ret tt). apply writes_skip.
    apply writes_bind; [apply writes_push_uint_var; exact Hseq|].
    apply writes_bind.
    { eapply writes_bytes; [apply (writes_push_uint 1); simpl; lia|].
      apply be_bytes_one. lia. }
    apply writes_bind; apply writes_push_bytes. }
  destruct (writes_fresh _ _ cap Hw) as (buf & Hpush & Hdata).
  { rewrite !length_app. unfold len in Htok. simpl. lia. }
  exists buf. split; [exact Hpush|]. split; [exact Hdata|].
  rewrite Hdata. apply reads_data. unfold pull_new_connection_id_frame.
  eapply reads_bind; [apply reads_pull_uint_var; exact Hseq|].
  eapply reads_bind.
  { eapply reads_value;
      [apply (reads_pull_uint 1 [len connection_id]); reflexivity|].
    apply be_value_one. }
  eapply reads_bind; [apply reads_pull_bytes|].
  rewrite <- (app_nil_r stateless_reset_token) at 1.
  rewrite <- Htok.
  eapply reads_bind; [apply reads_pull_bytes|].
  apply reads_ret.
Qed.

Lemma new_connection_id_frame_roundtrip_witness :
  exists buf,
    push_new_connection_id_frame 7 [1; 2; 3; 4; 5; 6; 7; 8]
      [0; 1; 2; 3; 4; 5; 6; 7; 8; 9; 10; 11; 12; 13; 14; 15]
      (Buffer_capacity 32) = Ok (tt, buf)
    /\ data buf = uint_var_bytes 7 ++ [len [1; 2; 3; 4; 5; 6; 7; 8]]
                  ++ [1; 2; 3; 4; 5; 6; 7; 8]
                  ++ [0; 1; 2; 3; 4; 5; 6; 7; 8; 9; 10; 11; 12; 13; 14; 15]
    /\ pull_new_connection_id_frame (Buffer_data (data buf))
       = Ok ((7, [1; 2; 3; 4; 5; 6; 7; 8],
              [0; 1; 2; 3; 4; 5; 6; 7; 8; 9; 10; 11; 12; 13; 14; 15]),
             mkBuffer (data buf) (length (data buf))).
Proof.
  apply (new_connection_id_frame_roundtrip 7 [1; 2; 3; 4; 5; 6; 7; 8]
           [0; 1; 2; 3; 4; 5; 6; 7; 8; 9; 10; 11; 12; 13; 14; 15] 32).
  - lia.
  - vm_compute. congruence.
  - reflexivity.
  - simpl. lia.
Defined.

(* ================================================================= *)
(** ** Close frames *)

Ltac settle_comparisons :=
  repeat (cbv beta iota delta [andb orb negb];
          match goal with
          | |- context [?a <=? ?b] =>
              destruct (Z.leb_spec a b); try (exfalso; bytes_arith)
          | |- context [?a =? ?b] =>
              destruct (Z.eqb_spec a b); try (exfalso; bytes_arith)
          end);
  cbv beta iota delta [andb orb negb].

Lemma bytes_decode_utf8_cons (b0 : Z) (r0 : list Z) :
  bytes_decode_utf8 (b0 :: r0)
  = if (0 <=? b0) && (b0 <=? 0x7F) then cons_char b0 (bytes_decode_utf8 r0)
    else if (0xC2 <=? b0) && (b0 <=? 0xDF) then
      match r0 with
      | b1 :: r1 =>
          if is_continuation b1
          then cons_char ((b0 - 0xC0) * 64 + (b1 - 0x80))
                 (bytes_decode_utf8 r1)
          else Raise UnicodeDecodeError
      | _ => Raise UnicodeDecodeError
      end
    else if (0xE0 <=? b0) && (b0 <=? 0xEF) then
      match r0 with
      | b1 :: b2 :: r2 =>
          if is_continuation b1 && is_continuation b2
             && ((0xE1 <=? b0) || (0xA0 <=? b1))
             && (negb (b0 =? 0xED) || (b1 <=? 0x9F))
          then cons_char
                 ((b0 - 0xE0) * 4096 + (b1 - 0x80) * 64 + (b2 - 0x80))
                 (bytes_decode_utf8 r2)
          else Raise UnicodeDecodeError
      | _ => Raise UnicodeDecodeError
      end
    else if (0xF0 <=? b0) && (b0 <=? 0xF4) then
      match r0 with
      | b1 :: b2 :: b3 :: r3 =>
          if is_continuation b1 && is_continuation b2 && is_continuation b3
             && ((0xF1 <=? b0) || (0x90 <=? b1))
             && ((b0 <=? 0xF3) || (b1 <=? 0x8F))
          then cons_char
                 ((b0 - 0xF0) * 262144 + (b1 - 0x80) * 4096
                  + (b2 - 0x80) * 64 + (b3 - 0x80))
                 (bytes_decode_utf8 r3)
          else Raise UnicodeDecodeError
      | _ => Raise UnicodeDecodeError
      end
    else Raise UnicodeDecodeError.
Proof. reflexivity. Qed.

Ltac decode_char c IH :=
  match goal with
  | H : Ok ?x = Ok ?bs |- _ =>
      assert (bs = x) by congruence; subst bs; clear H
  end;
  cbv beta iota delta [app]; rewrite bytes_decode_utf8_cons;
  cbv beta iota; unfold is_continuation;
  settle_comparisons; rewrite IH; unfold cons_char;
  first [ reflexivity
        | match goal with
          | |- Ok (?x :: _) = _ =>
              replace x with c by bytes_arith; reflexivity
          end ].

(** Decoding undoes encoding. *)
Lemma bytes_decode_utf8_encode (s : list Z) : forall bs,
  str_encode_utf8 s = Ok bs -> bytes_decode_utf8 bs = Ok s.
Proof.
  induction s as [|c s IH]; intros bs H.
  - injection H as <-. reflexivity.
  - change (str_encode_utf8 (c :: s))
      with (let rest := str_encode_utf8 s in
            let emit (bs : list Z) : result (list Z) :=
              match rest with Ok r => Ok (bs ++ r) | Raise e => Raise e end in
            if (c <? 0) || (0x10FFFF <? c) then Raise ValueError
            else if c <=? 0x7F then emit [c]
            else if c <=? 0x7FF then emit [0xC0 + c / 64; 0x80 + c mod 64]
            else if (0xD800 <=? c) && (c <=? 0xDFFF) then Raise ValueError
            else if c <=? 0xFFFF then
              emit [0xE0 + c / 4096; 0x80 + (c / 64) mod 64;
                    0x80 + c mod 64]
            else
              emit [0xF0 + c / 262144; 0x80 + (c / 4096) mod 64;
                    0x80 + (c / 64) mod 64; 0x80 + c mod 64]) in H.
    cbv beta zeta in H.
    destruct (Z.ltb_spec c 0) as [C0|C0]; [discriminate|].
    destruct (Z.ltb_spec 0x10FFFF c) as [C1|C1]; [discriminate|].
    unfold orb in H.
    destruct (str_encode_utf8 s) as [r|e] eqn:Er.
    2:{ destruct (c <=? 0x7F); [discriminate|].
        destruct (c <=? 0x7FF); [discriminate|].
        destruct ((0xD800 <=? c) && (c <=? 0xDFFF)); [discriminate|].
        destruct (c <=? 0xFFFF); discriminate. }
    specialize (IH r eq_refl).
    destruct (Z.leb_spec c 0x7F) as [C2|C2].
    { decode_char c IH. }
    destruct (Z.leb_spec c 0x7FF) as [C3|C3].
    { decode_char c IH. }
    destruct (Z.leb_spec 0xD800 c) as [C4|C4];
      destruct (Z.leb_spec c 0xDFFF) as [C5|C5];
      unfold andb in H; try discriminate;
      (destruct (Z.leb_spec c 0xFFFF) as [C6|C6];
       decode_char c IH).
Qed.

Lemma reads_bind_last {A B} (m : M A) (k : A -> M B) bs a b :
  reads m bs a -> reads (k a) [] b -> reads (x <- m ;; k x) bs b.
Proof.
  intros Hm Hk. rewrite <- (app_nil_r bs).
  exact (reads_bind _ _ _ _ _ _ Hm Hk).
Qed.

(** A reason phrase that UTF-8 encodes round-trips through
    [push_transport_close_frame] and [pull_transport_close_frame] with the
    error code and the frame type; the length on the wire is that of the
    encoded bytes, not of the phrase. *)
Theorem transport_close_frame_roundtrip (error_code frame_type : Z)
        (reason_phrase reason_bytes : list Z) (cap : nat) :
  0 <= error_code < 2 ^ 16 ->
  0 <= frame_type <= 2 ^ 62 - 1 ->
  str_encode_utf8 reason_phrase = Ok reason_bytes ->
  len reason_bytes <= 2 ^ 62 - 1 ->
  (2 + length (uint_var_bytes frame_type)
   + length (uint_var_bytes (len reason_bytes)) + length reason_bytes
   <= cap)%nat ->
  exists buf,
    push_transport_close_frame error_code frame_type reason_phrase
      (Buffer_capacity cap) = Ok (tt, buf)
    /\ data buf = be_bytes 2 error_code ++ uint_var_bytes frame_type
                  ++ uint_var_bytes (len reason_bytes) ++ reason_bytes
    /\ pull_transport_close_frame (Buffer_data (data buf))
       = Ok ((error_code, frame_type, reason_phrase),
             mkBuffer (data buf) (length (data buf))).
Proof.
  intros Hcode Htype Henc Hlen Hcap.
  pose proof (len_nonneg reason_bytes) as H0.
  assert (Hw : writes (push_transport_close_frame error_code frame_type
                         reason_phrase)
                 (be_bytes 2 error_code ++ uint_var_bytes frame_type
                  ++ uint_var_bytes (len reason_bytes) ++ reason_bytes)).
  { unfold push_transport_close_frame. rewrite Henc. apply writes_lift.
    apply writes_bind; [apply (writes_push_uint 2); simpl; lia|].
    apply writes_bind; [apply writes_push_uint_var; exact Htype|].
    apply writes_bind; [apply writes_push_uint_var; lia|].
    apply writes_push_bytes. }
  destruct (writes_fresh _ _ cap Hw) as (buf & Hpush & Hdata).
  { rewrite !length_app, be_bytes_length. lia. }
  exists buf. split; [exact Hpush|]. split; [exact Hdata|].
  rewrite Hdata. apply reads_data. unfold pull_transport_close_frame.
  eapply reads_bind.
  { eapply reads_value;
      [apply (reads_pull_uint 2); apply be_bytes_length|].
    apply be_value_be_bytes. simpl. lia. }
  eapply reads_bind; [apply reads_pull_uint_var; exact Htype|].
  eapply reads_bind; [apply reads_pull_uint_var; lia|].
  eapply reads_bind_last; [apply reads_pull_bytes|].
  unfold decode_reason_phrase.
  rewrite (bytes_decode_utf8_encode _ _ Henc).
  eapply reads_bind_last; [apply reads_lift|apply reads_ret].
Qed.

(** The phrase "h", e-acute, euro sign: three characters, six bytes. *)
Lemma transport_close_frame_roundtrip_witness :
  exists buf,
    push_transport_close_frame 0xA 0x6 [0x68; 0xE9; 0x20AC]
      (Buffer_capacity 16) = Ok (tt, buf)
    /\ data buf = be_bytes 2 0xA ++ uint_var_bytes 0x6
                  ++ uint_var_bytes (len [0x68; 0xC3; 0xA9; 0xE2; 0x82; 0xAC])
                  ++ [0x68; 0xC3; 0xA9; 0xE2; 0x82; 0xAC]
    /\ pull_transport_close_frame (Buffer_data (data buf))
       = Ok ((0xA, 0x6, [0x68; 0xE9; 0x20AC]),
             mkBuffer (data buf) (length (data buf))).
Proof.
  apply (transport_close_frame_roundtrip 0xA 0x6 [0x68; 0xE9; 0x20AC]
           [0x68; 0xC3; 0xA9; 0xE2; 0x82; 0xAC] 16).
  - lia.
  - lia.
  - reflexivity.
  - vm_compute. congruence.
  - simpl. lia.
Defined.

(** A reason phrase that UTF-8 encodes round-trips through
    [push_application_close_frame] and [pull_application_close_frame] with
    the error code; the frame carries no frame type, and the length on the
    wire is that of the encoded bytes. *)
Theorem application_close_frame_roundtrip (error_code : Z)
        (reason_phrase reason_bytes : list Z) (cap : nat) :
  0 <= error_code < 2 ^ 16 ->
  str_encode_utf8 reason_phrase = Ok reason_bytes ->
  len reason_bytes <= 2 ^ 62 - 1 ->
  (2 + length (uint_var_bytes (len reason_bytes)) + length reason_bytes
   <= cap)%nat ->
  exists buf,
    push_application_close_frame error_code reason_phrase
      (Buffer_capacity cap) = Ok (tt, buf)
    /\ data buf = be_bytes 2 error_code
                  ++ uint_var_bytes (len reason_bytes) ++ reason_bytes
    /\ pull_application_close_frame (Buffer_data (data buf))
       = Ok ((error_code, reason_phrase),
             mkBuffer (data buf) (length (data buf))).
Proof.
  intros Hcode Henc Hlen Hcap.
  pose proof (len_nonneg reason_bytes) as H0.
  assert (Hw : writes (push_application_close_frame error_code
                         reason_phrase)
                 (be_bytes 2 error_code
                  ++ uint_var_bytes (len reason_bytes) ++ reason_bytes)).
  { unfold push_application_close_frame. rewrite Henc. apply writes_lift.
    apply writes_bind; [apply (writes_push_uint 2); simpl; lia|].
    apply writes_bind; [apply writes_push_uint_var; lia|].
    apply writes_push_bytes. }
  destruct (writes_fresh _ _ cap Hw) as (buf & Hpush & Hdata).
  { rewrite !length_app, be_bytes_length. lia. }
  exists buf. split; [exact Hpush|]. split; [exact Hdata|].
  rewrite Hdata. apply reads_data. unfold pull_application_close_frame.
  eapply reads_bind.
  { eapply reads_value;
      [apply (reads_pull_uint 2); apply be_bytes_length|].
    apply be_value_be_bytes. simpl. lia. }
  eapply reads_bind; [apply reads_pull_uint_var; lia|].
  eapply reads_bind_last; [apply reads_pull_bytes|].
  unfold decode_reason_phrase.
  rewrite (bytes_decode_utf8_encode _ _ Henc).
  eapply reads_bind_last; [apply reads_lift|apply reads_ret].
Qed.

Lemma application_close_frame_roundtrip_witness :
  exists buf,
    push_application_close_frame 0x3 [0x6F; 0x6B] (Buffer_capacity 8)
    = Ok (tt, buf)
    /\ data buf = be_bytes 2 0x3 ++ uint_var_bytes (len [0x6F; 0x6B])
                  ++ [0x6F; 0x6B]
    /\ pull_application_close_frame (Buffer_data (data buf))
       = Ok ((0x3, [0x6F; 0x6B]), mkBuffer (data buf) (length (data buf))).
Proof.
  apply (application_close_frame_roundtrip 0x3 [0x6F; 0x6B] [0x6F; 0x6B] 8).
  - lia.
  - reflexivity.
  - vm_compute. congruence.
  - simpl. lia.
Defined.

(* ================================================================= *)
(** ** What a parsed ACK frame always satisfies *)

Lemma advanced_refl (buf : Buffer) :
  (_pos buf <= length (_data buf))%nat -> advanced buf buf.
Proof. intros H. split; [reflexivity|lia]. Qed.

Lemma advanced_bytes (buf buf' : Buffer) :
  advanced buf buf' -> Forall is_byte (_data buf) ->
  Forall is_byte (_data buf').
Proof. intros (Hd & _) H. rewrite Hd. exact H. Qed.

(** On a buffer of bytes a variable-length integer is read, or the buffer
    is too short. *)
Lemma pull_uint_var_bytes (buf : Buffer) :
  Forall is_byte (_data buf) ->
  match pull_uint_var buf with
  | Ok (v, buf') => advanced buf buf' /\ 0 <= v
  | Raise e => e = BufferReadError
  end.
Proof.
  intros Hbytes.
  destruct (pull_uint_var buf) as [[v buf']|e] eqn:E.
  - exact (pull_uint_var_advanced _ _ _ E).
  - destruct (pull_uint_var_raises _ _ E) as [->| ->]; [reflexivity|].
    exfalso. revert E.
    unfold pull_uint_var, bind, reraise, get_pos, data_get, ret.
    destruct (nth_error (_data buf) (_pos buf)) as [x|] eqn:Hx;
      [|discriminate].
    assert (Hb : is_byte x)
      by (exact (proj1 (Forall_forall _ _) Hbytes x (nth_error_In _ _ Hx))).
    unfold is_byte in Hb.
    assert (Hk : 0 <= x / 64 <= 3) by bytes_arith.
    simpl.
    destruct (Z.to_nat (x / 64)) as [|[|[|[|k]]]] eqn:Ek; [| | | |lia];
      cbn [nth_error UINT_VAR_FORMATS];
      unfold pull_uint8, pull_uint16, pull_uint32, pull_uint64, pull_uint;
      match goal with
      | |- context [if ?c then _ else _] => destruct c
      end; discriminate.
Qed.

Lemma add_scan_nonempty (rs : list range) (start stop : Z) :
  RangeSet.add_scan rs start stop <> [].
Proof.
  induction rs as [|r rs IH]; simpl; [discriminate|].
  destruct (stop <? range_start r); [discriminate|].
  destruct (start >? range_stop r); [discriminate|].
  destruct (RangeSet.absorb (Z.max stop (range_stop r)) rs). discriminate.
Qed.

Lemma pull_ack_ranges_bytes (count : nat) :
  forall (rangeset : RangeSet.t) (end_ : Z) (buf : Buffer),
  Forall is_byte (_data buf) ->
  (_pos buf <= length (_data buf))%nat ->
  chain rangeset -> rangeset <> [] ->
  match pull_ack_ranges count rangeset end_ buf with
  | Ok (rangeset', buf') =>
      rangeset' <> [] /\ chain rangeset' /\ advanced buf buf'
  | Raise e => e = BufferReadError
  end.
Proof.
  induction count as [|count IH]; intros rangeset end_ buf Hbytes Hpos Hc Hne;
    cbn [pull_ack_ranges].
  - unfold ret. split; [exact Hne|]. split; [exact Hc|].
    apply advanced_refl. exact Hpos.
  - unfold bind at 1.
    pose proof (pull_uint_var_bytes buf Hbytes) as H1.
    destruct (pull_uint_var buf) as [[gap b1]|e]; [|exact H1].
    destruct H1 as (A1 & Hgap).
    unfold bind at 1.
    pose proof (pull_uint_var_bytes b1 (advanced_bytes _ _ A1 Hbytes)) as H2.
    destruct (pull_uint_var b1) as [[ack_count b2]|e]; [|exact H2].
    destruct H2 as (A2 & Hcount).
    pose proof (advanced_trans _ _ _ A1 A2) as A12.
    unfold bind at 1. unfold lift, RangeSet.add.
    destruct (Z.gtb_spec (end_ - (gap + 2) + 1)
                (end_ - (gap + 2) - ack_count)) as [E|E]; [|lia].
    specialize (IH (RangeSet.add_scan rangeset
                      (end_ - (gap + 2) - ack_count) (end_ - (gap + 2) + 1))
                  (end_ - (gap + 2) - ack_count) b2
                  (advanced_bytes _ _ A12 Hbytes)
                  ltac:(destruct A12 as (D & P); rewrite D; lia)
                  (add_scan_chain rangeset (end_ - (gap + 2) - ack_count)
                     (end_ - (gap + 2) + 1) Hc ltac:(lia))
                  (add_scan_nonempty _ _ _)).
    destruct (pull_ack_ranges count _ _ b2) as [[rs' b3]|e]; [|exact IH].
    destruct IH as (Hne' & Hc' & A3).
    split; [exact Hne'|]. split; [exact Hc'|].
    exact (advanced_trans _ _ _ A12 A3).
Qed.

(** On a buffer of bytes [pull_ack_frame] either returns or raises
    [BufferReadError]: the assertion of [RangeSet.add] never fires, however
    the frame is made up.  What it returns is a non-empty [RangeSet] that
    satisfies the invariant, with a delay that is not negative, and the
    cursor has moved forward within the unchanged data. *)
Theorem pull_ack_frame_returns (buf : Buffer) :
  Forall is_byte (_data buf) ->
  match pull_ack_frame buf with
  | Ok ((rangeset, delay), buf') =>
      rangeset <> [] /\ RangeSet_inv rangeset /\ 0 <= delay
      /\ advanced buf buf'
  | Raise e => e = BufferReadError
  end.
Proof.
  intros Hbytes. unfold pull_ack_frame.
  unfold bind at 1.
  pose proof (pull_uint_var_bytes buf Hbytes) as H1.
  destruct (pull_uint_var buf) as [[end_ b1]|e]; [|exact H1].
  destruct H1 as (A1 & Hend).
  unfold bind at 1.
  pose proof (pull_uint_var_bytes b1 (advanced_bytes _ _ A1 Hbytes)) as H2.
  destruct (pull_uint_var b1) as [[delay b2]|e]; [|exact H2].
  destruct H2 as (A2 & Hdelay).
  pose proof (advanced_trans _ _ _ A1 A2) as A12.
  unfold bind at 1.
  pose proof (pull_uint_var_bytes b2 (advanced_bytes _ _ A12 Hbytes)) as H3.
  destruct (pull_uint_var b2) as [[ack_range_count b3]|e]; [|exact H3].
  destruct H3 as (A3 & _).
  pose proof (advanced_trans _ _ _ A12 A3) as A13.
  unfold bind at 1.
  pose proof (pull_uint_var_bytes b3 (advanced_bytes _ _ A13 Hbytes)) as H4.
  destruct (pull_uint_var b3) as [[ack_count b4]|e]; [|exact H4].
  destruct H4 as (A4 & Hcount).
  pose proof (advanced_trans _ _ _ A13 A4) as A14.
  unfold bind at 1. unfold lift, RangeSet.add.
  destruct (Z.gtb_spec (end_ + 1) (end_ - ack_count)) as [E|E]; [|lia].
  unfold bind at 1.
  pose proof (pull_ack_ranges_bytes (Z.to_nat ack_range_count)
                (RangeSet.add_scan RangeSet.empty (end_ - ack_count)
                   (end_ + 1))
                (end_ - ack_count) b4
                (advanced_bytes _ _ A14 Hbytes)
                ltac:(destruct A14 as (D & P); rewrite D; lia)
                (add_scan_chain [] (end_ - ack_count) (end_ + 1) I
                   ltac:(lia))
                (add_scan_nonempty _ _ _)) as H5.
  destruct (pull_ack_ranges (Z.to_nat ack_range_count) _ _ b4)
    as [[rs b5]|e]; [|exact H5].
  destruct H5 as (Hne & Hc & A5).
  unfold ret.
  split; [exact Hne|]. split; [exact (chain_RangeSet_inv _ Hc)|].
  split; [exact Hdelay|]. exact (advanced_trans _ _ _ A14 A5).
Qed.

(** A frame whose second range lies below zero. *)
Lemma pull_ack_frame_returns_witness :
  match pull_ack_frame (Buffer_data [3; 0; 1; 1; 5; 9]) with
  | Ok ((rangeset, delay), buf') =>
      rangeset <> [] /\ RangeSet_inv rangeset /\ 0 <= delay
      /\ advanced (Buffer_data [3; 0; 1; 1; 5; 9]) buf'
  | Raise e => e = BufferReadError
  end.
Proof.
  apply (pull_ack_frame_returns (Buffer_data [3; 0; 1; 1; 5; 9])).
  repeat constructor; unfold is_byte; lia.
Defined.

(* ================================================================= *)
(** ** Transport parameters: the general round trip *)

Lemma param_value_bytes_length (type : param_type) (v : pyval) :
  value_of_type type v -> len (param_value_bytes type v) < 2 ^ 16.
Proof.
  unfold len. destruct type; simpl.
  - intros [->|(n & -> & Hn)]; simpl; [lia|].
    rewrite uint_var_bytes_length. unfold uint_var_width, uint_var_class.
    destruct (n <=? 63); [simpl; lia|].
    destruct (n <=? 16383); [simpl; lia|].
    destruct (n <=? 1073741823); simpl; lia.
  - intros [->|(b & -> & Hb)]; simpl; [lia|]. exact Hb.
  - intros (b & ->). simpl. lia.
Qed.

Lemma writes_push_params_from (params : QuicTransportParameters) :
  forall (table : list (param_name * param_type)) (param_id : Z),
  0 <= param_id -> param_id + len table <= 2 ^ 16 ->
  Forall (fun entry : param_name * param_type =>
            value_of_type (snd entry) (getattr params (fst entry))) table ->
  writes (push_params_from param_id table params)
         (entries_bytes param_id table params).
Proof.
  induction table as [|[name type] table IH]; intros param_id Hid Hmax Hwf;
    cbn [push_params_from entries_bytes].
  - apply writes_ret.
  - inversion Hwf as [|? ? Hv Hwf']; subst. cbn [fst snd] in Hv.
    unfold len in Hmax. cbn [length] in Hmax.
    apply writes_bind.
    + pose proof (param_value_bytes_length type _ Hv) as Hlen.
      destruct (is_present (getattr params name)) eqn:Hp;
        [|apply writes_ret].
      apply writes_bind; [apply (writes_push_uint 2); simpl; lia|].
      apply writes_push_block; [|exact Hlen].
      destruct type; simpl in Hv.
      * destruct Hv as [Hv|(n & Hv & Hn)]; rewrite Hv in *;
          [discriminate|].
        simpl. apply writes_push_uint_var. exact Hn.
      * destruct Hv as [Hv|(b & Hv & Hb)]; rewrite Hv in *;
          [discriminate|].
        simpl. apply writes_push_bytes.
      * destruct Hv as (b & Hv). rewrite Hv in *. simpl. apply writes_ret.
    + apply IH; [lia|unfold len; lia|exact Hwf'].
Qed.

Lemma reads_pull_param (acc : QuicTransportParameters) (param_id : Z)
      (name : param_name) (type : param_type) (v : pyval) :
  nth_error PARAMS (Z.to_nat param_id) = Some (name, type) ->
  0 <= param_id < len PARAMS ->
  value_of_type type v -> is_present v = true ->
  reads (pull_param acc param_id (len (param_value_bytes type v)))
        (param_value_bytes type v) (setattr acc name v).
Proof.
  intros Hnth Hid Hv Hp. unfold pull_param.
  destruct (Z.ltb_spec param_id (len PARAMS)) as [E|E]; [|lia].
  rewrite Hnth.
  destruct type; simpl in Hv.
  - destruct Hv as [->|(n & -> & Hn)]; [discriminate|]. simpl.
    eapply reads_bind_last; [apply reads_pull_uint_var; exact Hn|].
    apply reads_ret.
  - destruct Hv as [->|(b & -> & Hb)]; [discriminate|]. simpl.
    eapply reads_bind_last; [apply reads_pull_bytes|]. apply reads_ret.
  - destruct Hv as ([|] & ->); [|discriminate]. simpl. apply reads_ret.
Qed.

Lemma pull_params_loop_done (fuel : nat) (end_ : Z)
      (params : QuicTransportParameters) (buf : Buffer) :
  end_ <= tell buf ->
  pull_params_loop fuel end_ params buf = Ok (params, buf).
Proof.
  intros H. destruct fuel; cbn [pull_params_loop];
    unfold bind, get_tell;
    (destruct (Z.ltb_spec (tell buf) end_); [lia|reflexivity]).
Qed.

Lemma skipn_cons_nth {A} (l : list A) : forall (n : nat) (x : A) (t : list A),
  skipn n l = x :: t -> nth_error l n = Some x /\ skipn (S n) l = t.
Proof.
  induction l as [|y l IH]; intros [|n] x t H; simpl in *;
    try discriminate.
  - injection H as -> ->. split; reflexivity.
  - destruct (IH n x t H) as (H1 & H2). split; [exact H1|].
    destruct l; [destruct n; discriminate|exact H2].
Qed.

Lemma pull_params_loop_entries (src : QuicTransportParameters) :
  forall (table : list (param_name * param_type)) (param_id : Z)
         (acc : QuicTransportParameters) (buf : Buffer) (fuel : nat)
         (rest : list Z),
  0 <= param_id ->
  skipn (Z.to_nat param_id) PARAMS = table ->
  Forall (fun entry : param_name * param_type =>
            value_of_type (snd entry) (getattr src (fst entry))) table ->
  (_pos buf <= length (_data buf))%nat ->
  skipn (_pos buf) (_data buf) = entries_bytes param_id table src ++ rest ->
  (length (entries_bytes param_id table src) < fuel)%nat ->
  pull_params_loop fuel
    (tell buf + len (entries_bytes param_id table src)) acc buf
  = Ok (copy_present table src acc,
        mkBuffer (_data buf)
          (_pos buf + length (entries_bytes param_id table src))).
Proof.
  induction table as [|[name type] table IH];
    intros param_id acc buf fuel rest Hid Htable Hwf Hpos Hskip Hfuel;
    cbn [entries_bytes copy_present] in *.
  - rewrite pull_params_loop_done by (unfold len; simpl; lia).
    destruct buf as [d p]. simpl. do 2 f_equal. f_equal. lia.
  - inversion Hwf as [|? ? Hv Hwf']; subst. cbn [fst snd] in Hv.
    destruct (skipn_cons_nth _ _ _ _ Htable) as (Hnth & Htail).
    assert (Hlt : param_id < len PARAMS).
    { pose proof (proj1 (nth_error_Some PARAMS (Z.to_nat param_id))
                    ltac:(rewrite Hnth; discriminate)).
      unfold len. lia. }
    replace (S (Z.to_nat param_id)) with (Z.to_nat (param_id + 1))
      in Htail by lia.
    destruct (is_present (getattr src name)) eqn:Hp.
    + (* an entry is on the wire *)
      set (v := getattr src name) in *.
      set (body := param_value_bytes type v) in *.
      set (more := entries_bytes (param_id + 1) table src) in *.
      rewrite !length_app, !be_bytes_length in Hfuel.
      destruct fuel as [|fuel]; [lia|].
      rewrite <- !app_assoc in Hskip.
      assert (Hlen : len body < 2 ^ 16)
        by exact (param_value_bytes_length type v Hv).
      pose proof (len_nonneg body) as Hlen0.
      assert (H1 : pull_uint16 buf
                   = Ok (param_id, mkBuffer (_data buf) (_pos buf + 2))).
      { unfold pull_uint16.
        rewrite (reads_pull_uint 2 (be_bytes 2 param_id)
                   (be_bytes_length _ _) buf _ Hpos Hskip).
        rewrite be_value_be_bytes by (unfold len in Hlt; simpl in *; lia).
        rewrite be_bytes_length. reflexivity. }
      pose proof (skipn_room _ _ _ _ Hpos Hskip) as Hroom.
      rewrite !length_app, !be_bytes_length in Hroom.
      pose proof (skipn_more _ _ _ _ Hskip) as Hskip2.
      rewrite be_bytes_length in Hskip2.
      assert (H2 : pull_uint16 (mkBuffer (_data buf) (_pos buf + 2))
                   = Ok (len body,
                         mkBuffer (_data buf) (_pos buf + 2 + 2))).
      { unfold pull_uint16.
        rewrite (reads_pull_uint 2 (be_bytes 2 (len body))
                   (be_bytes_length _ _)
                   (mkBuffer (_data buf) (_pos buf + 2)) _
                   ltac:(simpl; lia) Hskip2).
        rewrite be_value_be_bytes
          by (change (256 ^ Z.of_nat 2) with 65536; lia).
        rewrite be_bytes_length. reflexivity. }
      pose proof (skipn_more _ _ _ _ Hskip2) as Hskip3.
      rewrite be_bytes_length in Hskip3. cbn [_pos _data] in Hskip3.
      assert (H3 : pull_param acc param_id (len body)
                     (mkBuffer (_data buf) (_pos buf + 2 + 2))
                   = Ok (setattr acc name v,
                         mkBuffer (_data buf)
                           (_pos buf + 2 + 2 + length body))).
      { apply (reads_pull_param acc param_id name type v Hnth
                 ltac:(lia) Hv Hp
                 (mkBuffer (_data buf) (_pos buf + 2 + 2)) (more ++ rest)
                 ltac:(simpl; lia) Hskip3). }
      assert (Hend : tell buf
                     + len ((be_bytes 2 param_id ++ be_bytes 2 (len body)
                             ++ body) ++ more)
                     = tell buf + 4 + len body + len more)
        by (unfold len; rewrite !length_app, !be_bytes_length; lia).
      rewrite Hend.
      rewrite (pull_params_loop_next fuel
                 (tell buf + 4 + len body + len more) acc buf param_id
                 (len body) _ _ _ _ ltac:(unfold len; lia)
                 H1 H2 H3 ltac:(unfold tell, len; simpl; lia)).
      pose proof (skipn_more _ _ _ _ Hskip3) as Hskip4.
      cbn [_pos _data] in Hskip4.
      pose proof (IH (param_id + 1) (setattr acc name v)
                    (mkBuffer (_data buf) (_pos buf + 2 + 2 + length body))
                    fuel rest ltac:(lia) Htail Hwf'
                    ltac:(simpl; lia) Hskip4 ltac:(fold more; lia)) as Hrec.
      fold more in Hrec. cbn [_pos _data] in Hrec.
      replace (tell buf + 4 + len body + len more)
        with (tell (mkBuffer (_data buf) (_pos buf + 2 + 2 + length body))
              + len more)
        by (unfold tell, len; simpl; lia).
      rewrite Hrec. do 2 f_equal. f_equal.
      rewrite !length_app, !be_bytes_length. lia.
    + (* the parameter is not set: nothing on the wire *)
      cbn [app] in *.
      exact (IH (param_id + 1) acc buf fuel rest ltac:(lia) Htail Hwf'
               Hpos Hskip Hfuel).
Qed.

Lemma getattr_setattr_same (p : QuicTransportParameters) (n : param_name)
      (v : pyval) :
  getattr (setattr p n v) n = v.
Proof. destruct p, n; reflexivity. Qed.

Lemma getattr_setattr_other (p : QuicTransportParameters) (n m : param_name)
      (v : pyval) :
  n <> m -> getattr (setattr p n v) m = getattr p m.
Proof. intros H. destruct p, n, m; try reflexivity; contradiction. Qed.

Lemma setattr_versions (p : QuicTransportParameters) (n : param_name)
      (v : pyval) :
  initial_version (setattr p n v) = initial_version p
  /\ negotiated_version (setattr p n v) = negotiated_version p
  /\ supported_versions (setattr p n v) = supported_versions p.
Proof. destruct p, n; repeat split. Qed.

Lemma copy_present_versions (src : QuicTransportParameters) :
  forall (table : list (param_name * param_type))
         (acc : QuicTransportParameters),
  initial_version (copy_present table src acc) = initial_version acc
  /\ negotiated_version (copy_present table src acc) = negotiated_version acc
  /\ supported_versions (copy_present table src acc) = supported_versions acc.
Proof.
  induction table as [|[name type] table IH]; intros acc;
    cbn [copy_present]; [repeat split|].
  destruct (IH (if is_present (getattr src name)
                then setattr acc name (getattr src name) else acc))
    as (H1 & H2 & H3).
  rewrite H1, H2, H3.
  destruct (is_present (getattr src name)); [|repeat split].
  apply setattr_versions.
Qed.

Lemma copy_present_other (src : QuicTransportParameters) (m : param_name) :
  forall (table : list (param_name * param_type))
         (acc : QuicTransportParameters),
  ~ In m (map fst table) ->
  getattr (copy_present table src acc) m = getattr acc m.
Proof.
  induction table as [|[name type] table IH]; intros acc Hin;
    cbn [copy_present]; [reflexivity|].
  cbn [map fst In] in Hin.
  rewrite IH by tauto.
  destruct (is_present (getattr src name)); [|reflexivity].
  apply getattr_setattr_other. tauto.
Qed.

Lemma copy_present_in (src : QuicTransportParameters) (m : param_name) :
  forall (table : list (param_name * param_type))
         (acc : QuicTransportParameters),
  NoDup (map fst table) -> In m (map fst table) ->
  getattr (copy_present table src acc) m
  = if is_present (getattr src m) then getattr src m else getattr acc m.
Proof.
  induction table as [|[name type] table IH]; intros acc Hnd Hin;
    cbn [copy_present map fst In] in *; [contradiction|].
  inversion Hnd as [|? ? Hnot Hnd']; subst.
  destruct Hin as [->|Hin].
  - rewrite copy_present_other by exact Hnot.
    destruct (is_present (getattr src m)); [|reflexivity].
    apply getattr_setattr_same.
  - rewrite IH by assumption.
    destruct (is_present (getattr src m)); [reflexivity|].
    destruct (is_present (getattr src name)); [|reflexivity].
    apply getattr_setattr_other. intros ->. contradiction.
Qed.

Lemma params_ext (p q : QuicTransportParameters) :
  initial_version p = initial_version q ->
  negotiated_version p = negotiated_version q ->
  supported_versions p = supported_versions q ->
  (forall m, getattr p m = getattr q m) ->
  p = q.
Proof.
  intros H1 H2 H3 H. destruct p, q. simpl in H1, H2, H3. subst.
  pose proof (H original_connection_id_).
  pose proof (H idle_timeout_).
  pose proof (H stateless_reset_token_).
  pose proof (H max_packet_size_).
  pose proof (H initial_max_data_).
  pose proof (H initial_max_stream_data_bidi_local_).
  pose proof (H initial_max_stream_data_bidi_remote_).
  pose proof (H initial_max_stream_data_uni_).
  pose proof (H initial_max_streams_bidi_).
  pose proof (H initial_max_streams_uni_).
  pose proof (H ack_delay_exponent_).
  pose proof (H max_ack_delay_).
  pose proof (H disable_migration_).
  pose proof (H preferred_address_).
  simpl in *. subst. reflexivity.
Qed.

Lemma PARAMS_names : NoDup (map fst PARAMS) /\ forall m, In m (map fst PARAMS).
Proof.
  split.
  - repeat (constructor; [simpl; intuition discriminate|]). constructor.
  - intros m. destruct m; simpl; tauto.
Qed.

(** Reading every entry of a record into the default record gives the
    record back. *)
Lemma copy_present_default (params : QuicTransportParameters) :
  params_wf params ->
  copy_present PARAMS params QuicTransportParameters_default = params.
Proof.
  intros (Hiv & Hnv & Hsv & Hwf).
  destruct (copy_present_versions params PARAMS
              QuicTransportParameters_default) as (H1 & H2 & H3).
  apply params_ext.
  - rewrite H1, Hiv. reflexivity.
  - rewrite H2, Hnv. reflexivity.
  - rewrite H3, Hsv. reflexivity.
  - intros m. destruct PARAMS_names as (Hnd & Hall).
    rewrite copy_present_in by auto.
    destruct (is_present (getattr params m)) eqn:Hp; [reflexivity|].
    unfold PARAMS in Hwf.
    repeat match goal with
           | H : Forall _ (_ :: _) |- _ =>
               apply Forall_cons_iff in H;
               let Hv := fresh "Hv" in destruct H as [Hv H]
           end.
    cbn [fst snd value_of_type] in *.
    destruct m; cbn [getattr QuicTransportParameters_default] in *;
      match goal with
      | Hv : ?x = PyNone \/ _ |- _ = ?x =>
          destruct Hv as [->|(? & Hv & _)];
          [reflexivity|rewrite Hv in Hp; discriminate]
      | Hv : exists b, ?x = PyBool b |- _ = ?x =>
          destruct Hv as ([|] & Hv); rewrite Hv in *;
          [discriminate|reflexivity]
      end.
Qed.

(** Every record the extension can carry round-trips: for a record whose
    version fields are at their defaults, whose integer parameters are unset
    or within [[0, 2^62 - 1]], whose bytes parameters are unset or shorter
    than [2^16] and whose flag is a boolean, [push_quic_transport_parameters]
    writes, behind their total length, one TLV entry per parameter that is
    set (a flag that is [False] is not written), in the order of [PARAMS];
    and [pull_quic_transport_parameters] on those bytes returns the record
    and consumes them all. *)
Theorem transport_parameters_roundtrip (params : QuicTransportParameters)
        (cap : nat) :
  params_wf params ->
  len (entries_bytes 0 PARAMS params) < 2 ^ 16 ->
  (length (transport_parameters_bytes params) <= cap)%nat ->
  exists buf,
    push_quic_transport_parameters params (Buffer_capacity cap)
    = Ok (tt, buf)
    /\ data buf = transport_parameters_bytes params
    /\ pull_quic_transport_parameters (Buffer_data (data buf))
       = Ok (params, mkBuffer (data buf) (length (data buf))).
Proof.
  intros Hwf Hlen Hcap.
  pose proof Hwf as (_ & _ & _ & Htypes).
  set (entries := entries_bytes 0 PARAMS params) in *.
  assert (Hw : writes (push_quic_transport_parameters params)
                 (transport_parameters_bytes params)).
  { unfold push_quic_transport_parameters, transport_parameters_bytes.
    apply writes_push_block; [|exact Hlen].
    apply writes_push_params_from;
      [lia|vm_compute; congruence|exact Htypes]. }
  destruct (writes_fresh _ _ cap Hw Hcap) as (buf & Hpush & Hdata).
  exists buf. split; [exact Hpush|]. split; [exact Hdata|].
  rewrite Hdata. unfold transport_parameters_bytes. fold entries.
  pose proof (len_nonneg entries) as Hlen0.
  unfold pull_quic_transport_parameters, pull_block.
  unfold bind at 1.
  rewrite (reads_data_prefix (pull_uint 2) (be_bytes 2 (len entries))
             entries _ (reads_pull_uint 2 _ (be_bytes_length _ _))).
  rewrite be_value_be_bytes
    by (change (256 ^ Z.of_nat 2) with 65536; lia).
  rewrite be_bytes_length.
  unfold bind at 1. unfold get_tell at 1.
  unfold bind at 1. unfold bind at 1. unfold get_tell at 1.
  unfold bind at 1. unfold get_capacity at 1.
  pose proof (pull_params_loop_entries params PARAMS 0
                QuicTransportParameters_default
                (mkBuffer (be_bytes 2 (len entries) ++ entries) 2)
                (S (Z.to_nat
                      (capacity
                         (mkBuffer (be_bytes 2 (len entries) ++ entries)
                            2))))
                [] ltac:(lia) eq_refl Htypes
                ltac:(cbn [_pos _data];
                      rewrite length_app, be_bytes_length; lia)
                ltac:(cbn [_pos _data];
                      rewrite <- (be_bytes_length 2 (len entries)) at 1;
                      rewrite skipn_exact, app_nil_r; reflexivity)
                ltac:(unfold capacity; cbn [_data];
                      rewrite length_app, be_bytes_length;
                      fold entries; lia)) as Hloop.
  fold entries in Hloop. rewrite Hloop.
  rewrite (copy_present_default params Hwf).
  unfold bind at 1. unfold get_tell at 1.
  unfold bind, assert, ret, tell. cbn [_pos _data].
  destruct (Z.eqb_spec (Z.of_nat (2 + length entries))
              (Z.of_nat 2 + len entries)) as [E|E];
    [|unfold len in E; lia].
  rewrite length_app, be_bytes_length. reflexivity.
Qed.

(** A record with an integer, a byte string and the flag set. *)
Lemma transport_parameters_roundtrip_witness :
  exists buf,
    push_quic_transport_parameters
      (mkQuicTransportParameters PyNone PyNone []
         (PyBytes [1; 2; 3; 4]) (PyInt 30) PyNone PyNone (PyInt 1048576)
         PyNone PyNone PyNone PyNone PyNone PyNone PyNone (PyBool true)
         PyNone)
      (Buffer_capacity 64) = Ok (tt, buf)
    /\ data buf
       = transport_parameters_bytes
           (mkQuicTransportParameters PyNone PyNone []
              (PyBytes [1; 2; 3; 4]) (PyInt 30) PyNone PyNone
              (PyInt 1048576) PyNone PyNone PyNone PyNone PyNone PyNone
              PyNone (PyBool true) PyNone)
    /\ pull_quic_transport_parameters (Buffer_data (data buf))
       = Ok (mkQuicTransportParameters PyNone PyNone []
               (PyBytes [1; 2; 3; 4]) (PyInt 30) PyNone PyNone
               (PyInt 1048576) PyNone PyNone PyNone PyNone PyNone PyNone
               PyNone (PyBool true) PyNone,
             mkBuffer (data buf) (length (data buf))).
Proof.
  apply (transport_parameters_roundtrip
           (mkQuicTransportParameters PyNone PyNone []
              (PyBytes [1; 2; 3; 4]) (PyInt 30) PyNone PyNone
              (PyInt 1048576) PyNone PyNone PyNone PyNone PyNone PyNone
              PyNone (PyBool true) PyNone) 64).
  - repeat split.
    unfold PARAMS.
    repeat (constructor;
            [cbn [fst snd getattr value_of_type];
             first [ left; reflexivity
                   | right; eexists; split; [reflexivity|];
                     first [lia | vm_compute; congruence]
                   | eexists; reflexivity ]|]).
    constructor.
  - vm_compute. congruence.
  - vm_compute. lia.
Defined.

(* ================================================================= *)
(** ** Variable-length integers: what the encoder chooses *)

Lemma uint_var_mask_values :
  uint_var_mask 0 = 0x3F /\ uint_var_mask 1 = 0x3FFF
  /\ uint_var_mask 2 = 0x3FFFFFFF /\ uint_var_mask 3 = 0x3FFFFFFFFFFFFFFF.
Proof. repeat split. Qed.

(** [push_uint_var] uses the shortest encoding: the length class it writes
    is the least one whose mask holds the value.  A value above [2^62 - 1]
    raises [ValueError] whatever the buffer; a value that is in range but
    does not fit what is left of the buffer raises [BufferWriteError]. *)
Theorem push_uint_var_shortest (v : Z) (buf : Buffer) :
  0 <= v ->
  (v <= 2 ^ 62 - 1 ->
   (_pos buf + uint_var_width v <= length (_data buf))%nat ->
   exists class : nat,
     (class <= 3)%nat /\ v <= uint_var_mask class
     /\ (forall j : nat, (j < class)%nat -> uint_var_mask j < v)
     /\ push_uint_var v buf
        = Ok (tt, mkBuffer (write_at (_pos buf) (uint_var_bytes_in class v)
                              (_data buf))
                    (_pos buf + Nat.pow 2 class)))
  /\ (v <= 2 ^ 62 - 1 ->
      (length (_data buf) < _pos buf + uint_var_width v)%nat ->
      push_uint_var v buf = Raise BufferWriteError)
  /\ (2 ^ 62 - 1 < v -> push_uint_var v buf = Raise ValueError).
Proof.
  intros H0.
  destruct uint_var_mask_values as (M0 & M1 & M2 & M3).
  split; [|split].
  - intros Hv Hroom. exists (uint_var_class v).
    pose proof (writes_push_uint_var v (conj H0 Hv) buf) as Hw.
    rewrite uint_var_bytes_length in Hw. specialize (Hw Hroom).
    change (uint_var_bytes v)
      with (uint_var_bytes_in (uint_var_class v) v) in Hw.
    change (uint_var_width v) with (Nat.pow 2 (uint_var_class v)) in Hw.
    destruct (uint_var_class_cases v (conj H0 Hv))
      as [(H & E)|[(H & E)|[(H & E)|(H & E)]]];
      rewrite E in *; (split; [lia|]); (split; [lia|]);
      (split; [|exact Hw]); intros j Hj.
    + lia.
    + destruct j as [|j]; [|lia]. lia.
    + destruct j as [|[|j]]; [| |lia]; lia.
    + destruct j as [|[|[|j]]]; [| | |lia]; lia.
  - intros Hv Hroom. unfold push_uint_var.
    unfold uint_var_width in Hroom.
    cbn [push_uint_var_from UINT_VAR_FORMATS].
    unfold push_uint8, push_uint16, push_uint32, push_uint64, push_uint,
      bind, get_pos, tell, capacity.
    destruct (uint_var_class_cases v (conj H0 Hv))
      as [(H & E)|[(H & E)|[(H & E)|(H & E)]]];
      rewrite E in Hroom; cbn [Nat.pow Nat.mul Nat.add] in Hroom;
      repeat match goal with
             | |- context [?a <=? ?b] =>
                 destruct (Z.leb_spec a b); try lia
             | |- context [?a <? ?b] =>
                 destruct (Z.ltb_spec a b); try lia
             | |- context [?a >? ?b] =>
                 destruct (Z.gtb_spec a b); try lia
             end; cbn [orb]; try reflexivity.
  - intros Hv. unfold push_uint_var.
    cbn [push_uint_var_from UINT_VAR_FORMATS].
    destruct (Z.leb_spec v 63); [lia|].
    destruct (Z.leb_spec v 16383); [lia|].
    destruct (Z.leb_spec v 1073741823); [lia|].
    destruct (Z.leb_spec v 4611686018427387903); [lia|]. reflexivity.
Qed.

(** 16384 does not fit two bytes' 14 bits: four bytes are written. *)
Lemma push_uint_var_shortest_witness :
  exists class : nat,
    (class <= 3)%nat /\ 16384 <= uint_var_mask class
    /\ (forall j : nat, (j < class)%nat -> uint_var_mask j < 16384)
    /\ push_uint_var 16384 (Buffer_capacity 8)
       = Ok (tt, mkBuffer (write_at 0 (uint_var_bytes_in class 16384)
                             (repeat 0 8))
                   (0 + Nat.pow 2 class)).
Proof.
  apply (proj1 (push_uint_var_shortest 16384 (Buffer_capacity 8)
                  ltac:(lia))).
  - lia.
  - vm_compute. lia.
Defined.

(* ================================================================= *)
(** ** How header parsing fails *)

Lemma pull_uint_var_bytes_raises (buf : Buffer) (e : exn) :
  Forall is_byte (_data buf) ->
  pull_uint_var buf = Raise e -> e = BufferReadError.
Proof.
  intros Hbytes H. pose proof (pull_uint_var_bytes buf Hbytes) as Hb.
  rewrite H in Hb. exact Hb.
Qed.

(** On a buffer of bytes, [pull_quic_header] fails in three ways only:
    with [BufferReadError] when the buffer ends inside the header; with
    [ValueError] when the fixed bit of the first byte is clear (and the
    packet is not a version negotiation); and, for a short header with the
    fixed bit set, with [TypeError] when no [host_cid_length] was given. *)
Theorem pull_quic_header_raises (host_cid_length : option Z) (buf : Buffer)
        (e : exn) :
  Forall is_byte (_data buf) ->
  pull_quic_header host_cid_length buf = Raise e ->
  e = BufferReadError
  \/ (e = ValueError
      /\ exists x, nth_error (_data buf) (_pos buf) = Some x
                   /\ Z.land x PACKET_FIXED_BIT = 0)
  \/ (e = TypeError /\ host_cid_length = None
      /\ exists x, nth_error (_data buf) (_pos buf) = Some x
                   /\ is_long_header x = false).
Proof.
  intros Hbytes H. unfold pull_quic_header in H. unfold bind at 1 in H.
  destruct (pull_uint8 buf) as [[x b1]|e1] eqn:E1.
  2:{ injection H as <-. left. exact (pull_uint_raises _ _ _ E1). }
  destruct (pull_uint8_head _ _ _ E1) as (Hx & _).
  pose proof (pull_uint_advanced 1 _ _ _ E1) as A1.
  assert (Hfix : truthy (Z.land x PACKET_FIXED_BIT) = false ->
                 Z.land x PACKET_FIXED_BIT = 0).
  { unfold truthy. destruct (Z.eqb_spec (Z.land x PACKET_FIXED_BIT) 0);
      [auto|discriminate]. }
  destruct (is_long_header x) eqn:Hlong.
  - unfold bind at 1 in H.
    destruct (pull_uint32 b1) as [[v b2]|e2] eqn:E2.
    2:{ injection H as <-. left. exact (pull_uint_raises _ _ _ E2). }
    pose proof (advanced_trans _ _ _ A1 (pull_uint_advanced 4 _ _ _ E2))
      as A2.
    unfold bind at 1 in H.
    destruct (pull_uint8 b2) as [[c b3]|e3] eqn:E3.
    2:{ injection H as <-. left. exact (pull_uint_raises _ _ _ E3). }
    pose proof (advanced_trans _ _ _ A2 (pull_uint_advanced 1 _ _ _ E3))
      as A3.
    unfold bind at 1 in H.
    destruct (pull_bytes (decode_cid_length (c / 16)) b3)
      as [[dcid b4]|e4] eqn:E4.
    2:{ injection H as <-. left. exact (pull_bytes_raises _ _ _ E4). }
    destruct (pull_bytes_advanced _ _ _ _
                ltac:(destruct A3 as (D & P); rewrite D; lia) E4)
      as (A4' & _).
    pose proof (advanced_trans _ _ _ A3 A4') as A4.
    unfold bind at 1 in H.
    destruct (pull_bytes (decode_cid_length (c mod 16)) b4)
      as [[scid b5]|e5] eqn:E5.
    2:{ injection H as <-. left. exact (pull_bytes_raises _ _ _ E5). }
    destruct (pull_bytes_advanced _ _ _ _
                ltac:(destruct A4 as (D & P); rewrite D; lia) E5)
      as (A5' & _).
    pose proof (advanced_trans _ _ _ A4 A5') as A5.
    pose proof (advanced_bytes _ _ A5 Hbytes) as Hb5.
    destruct (v =? NEGOTIATION); [discriminate|].
    destruct (truthy (Z.land x PACKET_FIXED_BIT)) eqn:Hf.
    2:{ injection H as <-. right. left. split; [reflexivity|].
        exists x. split; [exact Hx|]. apply Hfix. reflexivity. }
    unfold negb in H.
    destruct (Z.land x PACKET_TYPE_MASK =? PACKET_TYPE_INITIAL).
    + unfold bind at 1 in H.
      destruct (pull_uint_var b5) as [[tl b6]|e6] eqn:E6.
      2:{ injection H as <-. left.
          exact (pull_uint_var_bytes_raises _ _ Hb5 E6). }
      destruct (pull_uint_var_advanced _ _ _ E6) as (A6' & _).
      pose proof (advanced_trans _ _ _ A5 A6') as A6.
      unfold bind at 1 in H.
      destruct (pull_bytes tl b6) as [[tok b7]|e7] eqn:E7.
      2:{ injection H as <-. left. exact (pull_bytes_raises _ _ _ E7). }
      destruct (pull_bytes_advanced _ _ _ _
                  ltac:(destruct A6 as (D & P); rewrite D; lia) E7)
        as (A7' & _).
      pose proof (advanced_trans _ _ _ A6 A7') as A7.
      unfold bind at 1 in H.
      destruct (pull_uint_var b7) as [[rl b8]|e8] eqn:E8; [discriminate|].
      injection H as <-. left.
      exact (pull_uint_var_bytes_raises _ _ (advanced_bytes _ _ A7 Hbytes)
               E8).
    + destruct (Z.land x PACKET_TYPE_MASK =? PACKET_TYPE_RETRY).
      * unfold bind at 1 in H.
        destruct (pull_bytes (decode_cid_length (Z.land x 15)) b5)
          as [[odcid b6]|e6] eqn:E6.
        2:{ injection H as <-. left. exact (pull_bytes_raises _ _ _ E6). }
        unfold bind at 1 2 in H. unfold get_capacity, get_tell in H.
        unfold bind at 1 in H.
        destruct (pull_bytes (capacity b6 - tell b6) b6)
          as [[tok b7]|e7] eqn:E7; [discriminate|].
        injection H as <-. left. exact (pull_bytes_raises _ _ _ E7).
      * unfold bind at 1 in H.
        destruct (pull_uint_var b5) as [[rl b6]|e6] eqn:E6; [discriminate|].
        injection H as <-. left.
        exact (pull_uint_var_bytes_raises _ _ Hb5 E6).
  - destruct (truthy (Z.land x PACKET_FIXED_BIT)) eqn:Hf.
    2:{ injection H as <-. right. left. split; [reflexivity|].
        exists x. split; [exact Hx|]. apply Hfix. reflexivity. }
    unfold negb in H.
    destruct host_cid_length as [n|].
    + unfold bind at 1 in H.
      destruct (pull_bytes n b1) as [[dcid b2]|e2] eqn:E2; [discriminate|].
      injection H as <-. left. exact (pull_bytes_raises _ _ _ E2).
    + injection H as <-. right. right.
      split; [reflexivity|]. split; [reflexivity|].
      exists x. split; [exact Hx|exact Hlong].
Qed.

(** A long header cut after the version. *)
Lemma pull_quic_header_raises_witness :
  BufferReadError = BufferReadError
  \/ (BufferReadError = ValueError
      /\ exists x, nth_error [0xC0; 0xFF; 0; 0; 0x14] 0 = Some x
                   /\ Z.land x PACKET_FIXED_BIT = 0)
  \/ (BufferReadError = TypeError /\ @None Z = None
      /\ exists x, nth_error [0xC0; 0xFF; 0; 0; 0x14] 0 = Some x
                   /\ is_long_header x = false).
Proof.
  apply (pull_quic_header_raises None
           (Buffer_data [0xC0; 0xFF; 0; 0; 0x14]) BufferReadError).
  - repeat constructor; unfold is_byte; lia.
  - reflexivity.
Defined.

(* ================================================================= *)
(** ** Version negotiation packets that do not fit *)

Lemma overflows_bind (m1 m2 : M unit) (bs1 bs2 : list Z) :
  writes m1 bs1 -> overflows m1 bs1 -> overflows m2 bs2 ->
  overflows (m1 ;;; m2) (bs1 ++ bs2).
Proof.
  intros Hw H1 H2 buf Hpos Hroom. rewrite length_app in Hroom.
  unfold bind.
  destruct (Nat.le_gt_cases (_pos buf + length bs1) (length (_data buf)))
    as [Hfit|Hout].
  - rewrite (Hw buf Hfit). apply H2; cbn [_pos _data];
      rewrite write_at_length by lia; lia.
  - rewrite (H1 buf Hpos Hout). reflexivity.
Qed.

Lemma overflows_push_bytes (v : list Z) : overflows (push_bytes v) v.
Proof.
  intros buf Hpos Hroom. unfold push_bytes, tell, capacity.
  destruct (Z.gtb_spec (Z.of_nat (_pos buf) + Z.of_nat (length v))
              (Z.of_nat (length (_data buf)))); [reflexivity|lia].
Qed.

Lemma overflows_push_uint (n : nat) (v : Z) :
  0 <= v < 256 ^ Z.of_nat n -> overflows (push_uint n v) (be_bytes n v).
Proof.
  intros Hv buf Hpos Hroom. rewrite be_bytes_length in Hroom.
  unfold push_uint, tell, capacity.
  destruct (Z.ltb_spec v 0); [lia|].
  destruct (Z.leb_spec (256 ^ Z.of_nat n) v); [lia|]. cbn [orb].
  destruct (Z.gtb_spec (Z.of_nat (_pos buf) + Z.of_nat n)
              (Z.of_nat (length (_data buf)))); [reflexivity|lia].
Qed.

Lemma overflows_bytes (m : M unit) (bs bs' : list Z) :
  overflows m bs -> bs = bs' -> overflows m bs'.
Proof. intros H <-. exact H. Qed.

Lemma overflows_push_versions (versions : list Z) :
  Forall (fun version => 0 <= version < 2 ^ 32) versions ->
  overflows (push_versions versions) (flat_map (be_bytes 4) versions).
Proof.
  induction 1 as [|version versions Hv Hvs IH];
    cbn [push_versions flat_map].
  - intros buf Hpos Hroom. simpl in Hroom. lia.
  - apply overflows_bind.
    + apply (writes_push_uint 4). simpl. lia.
    + apply (overflows_push_uint 4). simpl. lia.
    + exact IH.
Qed.

(** A version negotiation packet of more than 100 bytes is not truncated:
    [encode_quic_version_negotiation] raises [BufferWriteError], for
    instance with more than 23 versions even without CIDs. *)
Theorem version_negotiation_overflow (random_byte : Z)
        (source_cid destination_cid : list Z) (supported_versions : list Z) :
  is_byte random_byte ->
  cid_length_ok (len destination_cid) -> cid_length_ok (len source_cid) ->
  Forall (fun version => 0 <= version < 2 ^ 32) supported_versions ->
  100 < 6 + len destination_cid + len source_cid
        + 4 * len supported_versions ->
  encode_quic_version_negotiation random_byte source_cid destination_cid
    supported_versions = Raise BufferWriteError.
Proof.
  intros Hr Hdcid Hscid Hvs Hbig.
  destruct (lor_long_header_byte random_byte Hr) as [Hbyte _].
  destruct (cid_lengths_byte _ _ Hdcid Hscid) as (Hlor & Hcid & _).
  unfold encode_quic_version_negotiation. rewrite Hlor.
  assert (Ho : overflows
                 (push_uint8 (Z.lor random_byte PACKET_LONG_HEADER) ;;;
                  push_uint32 NEGOTIATION ;;;
                  push_uint8
                    (16 * encode_cid_length (len destination_cid)
                     + encode_cid_length (len source_cid)) ;;;
                  push_bytes destination_cid ;;;
                  push_bytes source_cid ;;;
                  push_versions supported_versions)
                 (version_negotiation_bytes
                    (Z.lor random_byte PACKET_LONG_HEADER)
                    destination_cid source_cid supported_versions)).
  { unfold version_negotiation_bytes.
    apply overflows_bind.
    { eapply writes_bytes; [apply (writes_push_uint 1); exact Hbyte|].
      apply be_bytes_one. exact Hbyte. }
    { eapply overflows_bytes; [apply (overflows_push_uint 1); exact Hbyte|].
      apply be_bytes_one. exact Hbyte. }
    apply overflows_bind;
      [apply (writes_push_uint 4 0); simpl; lia
      |apply (overflows_push_uint 4 0); simpl; lia|].
    apply overflows_bind.
    { eapply writes_bytes; [apply (writes_push_uint 1); exact Hcid|].
      apply be_bytes_one. exact Hcid. }
    { eapply overflows_bytes; [apply (overflows_push_uint 1); exact Hcid|].
      apply be_bytes_one. exact Hcid. }
    apply overflows_bind;
      [apply writes_push_bytes|apply overflows_push_bytes|].
    apply overflows_bind;
      [apply writes_push_bytes|apply overflows_push_bytes|].
    apply overflows_push_versions. exact Hvs. }
  rewrite (Ho (Buffer_capacity 100)); [reflexivity|simpl; lia|].
  unfold version_negotiation_bytes. cbn [_pos _data Buffer_capacity].
  rewrite repeat_length, !length_app, be_bytes_length,
    flat_map_be_bytes_length.
  unfold len in Hbig. cbn [length]. lia.
Qed.

(** Twenty-four versions and no CIDs: 102 bytes. *)
Lemma version_negotiation_overflow_witness :
  encode_quic_version_negotiation 0 [] [] (repeat 0xFF000014 24)
  = Raise BufferWriteError.
Proof.
  apply (version_negotiation_overflow 0 [] [] (repeat 0xFF000014 24)).
  - unfold is_byte. lia.
  - left. reflexivity.
  - left. reflexivity.
  - apply Forall_forall. intros x Hx. apply repeat_spec in Hx. subst x. lia.
  - vm_compute. reflexivity.
Defined.
